(** * The unified MCAP recording writer of pulse (Go SDK)

  A shallow embedding of
  - [go/internal/foxglove/schemas.go]   (SchemaRegistry and the built-in schema texts),
  - the [foxglove] unified writer       (UnifiedMcapWriter and its methods),
  - the metric and log adapters         (getOrCreateChannel, NewLogMcapWriter,
                                         writeMetric, WriteLog and the level table),
  - two places that call the adapters   (the MCAP block of [Logger.log] and the
                                         tag parsing of [extractAndRecordMetrics]),
  followed by the properties of the id allocation, the idempotence of
  registration and channel creation, the behaviour on I/O failure and
  the close protocol, and by further properties of the writer, the
  adapters and the order of the records on the stream.

  Go values are modelled as follows.
  - [uint16], [uint32], [uint64] and [int64] are [Z]; the arithmetic on
    them is the increment of the two id counters and the conversions of
    the time stamps, whose wrap-around is written out.
  - Go strings and byte slices are [string] (sequences of 8-bit characters).
  - [map[string]T] is [gmap string T].
  - A method with a pointer receiver is a function on the pair of the
    receiver's fields and the outside world; it returns its Go results
    together with the new pair.  A Go [error] result is a [result]; the
    state reached when an error is returned is kept, as in Go.
  - The operating system and the MCAP codec library are outside the
    repository.  Every call into them is appended to a trace together
    with its outcome, and the outcome is read from a script of faults
    carried by the world, so that every theorem quantified over worlds
    covers every pattern of I/O failures.
  - The mutex taken by every method makes the methods atomic; the model
    is the sequential behaviour of the critical sections. *)

From Stdlib Require Import ZArith Lia String Ascii List Bool.
From stdpp Require Import base option list gmap strings.

Open Scope Z_scope.
Open Scope string_scope.

(** ** Go base types *)

Module Go.

(** [x++] on a [uint16]. *)
Definition uint16_incr (x : Z) : Z := (x + 1) mod 65536.

(** The result of a function whose last result is an [error];
    [Ok] stands for a [nil] error. *)
Inductive result (E A : Type) : Type :=
| Ok (a : A)
| Err (e : E).
Arguments Ok {E A} a.
Arguments Err {E A} e.

(** Does [s] start with [p]? *)
Fixpoint has_prefix (p s : string) : bool :=
  match p, s with
  | EmptyString, _ => true
  | String a p', String b s' => if Ascii.eqb a b then has_prefix p' s' else false
  | String _ _, EmptyString => false
  end.

(** [strings.ReplaceAll s old new] for a non-empty [old]: the
    non-overlapping occurrences of [old] are replaced from left to right.
    [skip] counts the characters of a matched occurrence still to be
    dropped. *)
Fixpoint replace_from (skip : nat) (old new s : string) : string :=
  match s with
  | EmptyString => EmptyString
  | String c s' =>
      match skip with
      | S k => replace_from k old new s'
      | O =>
          if has_prefix old s
          then new ++ replace_from (Nat.pred (String.length old)) old new s'
          else String c (replace_from O old new s')
      end
  end.

Definition ReplaceAll (s old new : string) : string := replace_from O old new s.

(** The text of a Go raw string literal, written here with ['] where the
    source has a double quote. *)
Fixpoint raw (s : string) : string :=
  match s with
  | EmptyString => EmptyString
  | String c s' =>
      String (if Ascii.eqb c "'"%char then ascii_of_nat 34 else c) (raw s')
  end.

End Go.

Import Go.

(** ** The MCAP codec and the operating system (external) *)

Module Mcap.

Record Header := { Profile : string; Library : string }.

Record Schema := {
  schema_ID : Z;
  schema_Name : string;
  schema_Encoding : string;
  schema_Data : string
}.

Record Channel := {
  channel_ID : Z;
  channel_SchemaID : Z;
  channel_Topic : string;
  channel_MessageEncoding : string;
  channel_Metadata : gmap string string
}.

Record Message := {
  message_ChannelID : Z;
  message_Sequence : Z;
  message_LogTime : Z;
  message_PublishTime : Z;
  message_Data : string
}.

(** The calls that leave the repository. [MkdirAll p] stands for
    [os.MkdirAll(filepath.Dir(p), 0755)]. *)
Inductive IoCall :=
| MkdirAll (path : string)
| Create (path : string)
| NewWriter
| WriteHeader (h : Header)
| WriteSchema (s : Schema)
| WriteChannel (c : Channel)
| WriteMessage (m : Message)
| WriterClose
| FileClose.

(** [faults] scripts the calls to come ([true]: the call returns an
    error; an exhausted script means success); [trace] lists the calls
    made so far, oldest first, with [true] for those that succeeded. *)
Record World := { faults : list bool; trace : list (IoCall * bool) }.

Definition fresh (script : list bool) : World := {| faults := script; trace := [] |}.

Definition outcome (w : World) : bool :=
  match faults w with
  | [] => true
  | failed :: _ => negb failed
  end.

Definition advance (c : IoCall) (w : World) : World :=
  {| faults := tail (faults w); trace := trace w ++ [(c, outcome w)] |}.

(** One external call: its success and the world after it. *)
Definition perform (c : IoCall) (w : World) : bool * World := (outcome w, advance c w).

(** The records that reached the stream. *)
Definition written_schema (e : IoCall * bool) : option Schema :=
  match e with
  | (WriteSchema s, true) => Some s
  | _ => None
  end.

Definition written_channel (e : IoCall * bool) : option Channel :=
  match e with
  | (WriteChannel c, true) => Some c
  | _ => None
  end.

Definition schemaRecords (w : World) : list Schema := omap written_schema (trace w).
Definition channelRecords (w : World) : list Channel := omap written_channel (trace w).

(** How often a call was attempted, whatever its outcome. *)
Definition is_file_close (e : IoCall * bool) : bool :=
  match e with (FileClose, _) => true | _ => false end.

Definition fileCloses (w : World) : nat := length (filter is_file_close (trace w)).

End Mcap.

Import Mcap.

(** ** Package options *)

Module Options.

Record ServiceOptions := {
  Name : string;
  Description : string;
  Version : string;
  Environment : string
}.

Record FoxgloveOptions := { Enabled : bool; McapPath : string }.

End Options.

Import Options.

(** ** Package foxglove *)

Module Foxglove.

(** The error values built by the package (each [fmt.Errorf] site), and
    [EIo] for an error handed back by the codec or the operating system. *)
Inductive error :=
| EIo
| EPathNotSpecified
| ECreateDirectory (cause : error)
| ECreateFile (cause : error)
| ECreateWriter (cause : error)
| EWriteHeader (cause : error)
| ESchemaNotFound (schemaName : string)
| EWriteSchema (schemaName : string) (cause : error)
| ESchemaNotRegistered (schemaName : string)
| ECreateChannel (cause : error)
| ECloseWriter (cause : error)
| ECloseFile (cause : error)
| EMetricChannel (metricName : string) (cause : error)
| ELogChannel (cause : error).

Definition foxgloveLogSchema : string := raw
"{
  '$schema': 'http://json-schema.org/draft-07/schema#',
  'title': 'Log',
  'description': 'A log message with timestamp, level, and structured data',
  'type': 'object',
  'properties': {
    'timestamp': {
      'type': 'object',
      'properties': {
        'sec': {'type': 'integer'},
        'nsec': {'type': 'integer'}
      },
      'required': ['sec', 'nsec']
    },
    'level': {'type': 'integer', 'description': 'Log level (1=DEBUG, 2=INFO, 3=WARN, 4=ERROR, 5=FATAL)'},
    'message': {'type': 'string', 'description': 'Log message'},
    'name': {'type': 'string', 'description': 'Logger name'},
    'file': {'type': 'string', 'description': 'Source file'},
    'line': {'type': 'integer', 'minimum': 0, 'description': 'Line number'},
    'service_version': {'type': 'string', 'description': 'Service version'},
    'service_environment': {'type': 'string', 'description': 'Service environment'},
    'data': {'type': 'object', 'description': 'Additional structured data'}
  },
  'required': ['timestamp', 'level', 'message', 'name', 'file', 'line', 'service_version', 'service_environment']
}".

Definition shokkiMetricSchema : string := raw
"{
  '$schema': 'http://json-schema.org/draft-07/schema#',
  'title': 'mahcanirobotics.metric',
  'description': 'A metric value with timestamp for time-series visualization',
  'type': 'object',
  'properties': {
    'timestamp': {
      'type': 'object',
      'title': 'time',
      'properties': {
        'sec': {'type': 'integer', 'minimum': 0},
        'nsec': {'type': 'integer', 'minimum': 0, 'maximum': 999999999}
      },
      'required': ['sec', 'nsec'],
      'description': 'Timestamp of the metric sample'
    },
    'name': {'type': 'string', 'description': 'Metric name'},
    'value': {'type': 'number', 'description': 'Metric value (plotted on Y-axis)'}
  },
  'required': ['timestamp', 'name', 'value']
}".

Definition foxglovePlotSchema : string := raw
"{
  '$schema': 'http://json-schema.org/draft-07/schema#',
  'title': 'foxglove.Plot',
  'description': 'A series of values for plotting',
  'type': 'object',
  'properties': {
    'timestamp': {
      'type': 'object',
      'title': 'time',
      'properties': {
        'sec': {'type': 'integer', 'minimum': 0},
        'nsec': {'type': 'integer', 'minimum': 0, 'maximum': 999999999}
      },
      'required': ['sec', 'nsec']
    },
    'x': {'type': 'number', 'description': 'X-axis value'},
    'y': {'type': 'number', 'description': 'Y-axis value'}
  },
  'required': ['timestamp', 'x', 'y']
}".

(** *** SchemaRegistry (schemas.go) *)

Record SchemaRegistry := { schemas : gmap string string }.

Definition NewSchemaRegistry : SchemaRegistry :=
  {| schemas :=
       <["foxglove.Log" := foxgloveLogSchema]>
         (<["mahcanirobotics.metric" := shokkiMetricSchema]>
            (<["foxglove.Plot" := foxglovePlotSchema]> ∅)) |}.

Definition Register (name schema : string) (r : SchemaRegistry) : SchemaRegistry :=
  {| schemas := <[name := schema]> (schemas r) |}.

Definition Get (name : string) (r : SchemaRegistry) : option string :=
  schemas r !! name.

(** *** UnifiedMcapWriter *)

(** The fields of the struct; [writer] and [file] are the handles of the
    codec and of the file, whose behaviour lives in the [World]. *)
Record UnifiedMcapWriter := {
  filePath : string;
  closed : bool;
  registry : SchemaRegistry;
  schemaIDs : gmap string Z;
  nextSchemaID : Z;
  channels : gmap string Z;
  nextChannel : Z
}.

(** The assignments to the fields made by the methods. *)

(** [u.schemaIDs[schemaName] = schemaID; u.nextSchemaID++] *)
Definition bind_schema (schemaName : string) (schemaID : Z) (u : UnifiedMcapWriter)
  : UnifiedMcapWriter :=
  {| filePath := filePath u;
     closed := closed u;
     registry := registry u;
     schemaIDs := <[schemaName := schemaID]> (schemaIDs u);
     nextSchemaID := uint16_incr (nextSchemaID u);
     channels := channels u;
     nextChannel := nextChannel u |}.

(** [u.channels[topic] = channelID; u.nextChannel++] *)
Definition bind_channel (topic : string) (channelID : Z) (u : UnifiedMcapWriter)
  : UnifiedMcapWriter :=
  {| filePath := filePath u;
     closed := closed u;
     registry := registry u;
     schemaIDs := schemaIDs u;
     nextSchemaID := nextSchemaID u;
     channels := <[topic := channelID]> (channels u);
     nextChannel := uint16_incr (nextChannel u) |}.

(** [u.closed = true] *)
Definition mark_closed (u : UnifiedMcapWriter) : UnifiedMcapWriter :=
  {| filePath := filePath u;
     closed := true;
     registry := registry u;
     schemaIDs := schemaIDs u;
     nextSchemaID := nextSchemaID u;
     channels := channels u;
     nextChannel := nextChannel u |}.

(** The registry is shared through a pointer: [u.registry.Register]
    changes the registry seen by [u]. *)
Definition with_registry (r : SchemaRegistry) (u : UnifiedMcapWriter) : UnifiedMcapWriter :=
  {| filePath := filePath u;
     closed := closed u;
     registry := r;
     schemaIDs := schemaIDs u;
     nextSchemaID := nextSchemaID u;
     channels := channels u;
     nextChannel := nextChannel u |}.

(** A writer object together with the world its handles point into. *)
Definition Sys : Type := UnifiedMcapWriter * World.

(** Computations that read and update a state [S] and may return an error. *)
Definition M (S A : Type) : Type := S -> result error A * S.

Definition ret {S A} (a : A) : M S A := fun s => (Ok a, s).

Definition fail {S A} (e : error) : M S A := fun s => (Err e, s).

Definition bind {S A B} (m : M S A) (k : A -> M S B) : M S B :=
  fun s =>
    match m s with
    | (Ok a, s') => k a s'
    | (Err e, s') => (Err e, s')
    end.

(** An external call made on behalf of the writer. *)
Definition io (c : IoCall) : M Sys bool :=
  fun '(u, w) => let '(ok, w') := perform c w in (Ok ok, (u, w')).

Definition get_writer : M Sys UnifiedMcapWriter := fun '(u, w) => (Ok u, (u, w)).

Definition set_writer (u' : UnifiedMcapWriter) : M Sys unit := fun '(_, w) => (Ok tt, (u', w)).

Declare Scope go_scope.
Delimit Scope go_scope with go.
Notation "'do' x <- m ; k" := (bind m (fun x => k))
  (at level 10, x name, m at level 100, k at level 200) : go_scope.
Notation "'call' m ; k" := (bind m (fun _ => k))
  (at level 10, m at level 100, k at level 200) : go_scope.
Open Scope go_scope.

Definition RegisterSchema (schemaName : string) : M Sys unit :=
  do u <- get_writer;
  match schemaIDs u !! schemaName with
  | Some _ => ret tt
  | None =>
      match Get schemaName (registry u) with
      | None => fail (ESchemaNotFound schemaName)
      | Some schemaData =>
          let schemaID := nextSchemaID u in
          do ok <- io (WriteSchema {| schema_ID := schemaID;
                                      schema_Name := schemaName;
                                      schema_Encoding := "jsonschema";
                                      schema_Data := schemaData |});
          if ok : bool then set_writer (bind_schema schemaName schemaID u)
          else fail (EWriteSchema schemaName EIo)
      end
  end.

(** The loop of [registerBuiltInSchemas]: stop at the first error. *)
Fixpoint register_each (names : list string) : M Sys unit :=
  match names with
  | [] => ret tt
  | schemaName :: rest => call RegisterSchema schemaName; register_each rest
  end.

Definition registerBuiltInSchemas : M Sys unit :=
  register_each ["foxglove.Log"; "mahcanirobotics.metric"].

(** The struct literal of [NewUnifiedMcapWriter]: empty tables, both
    counters at 1. *)
Definition unified_literal (path : string) : UnifiedMcapWriter :=
  {| filePath := path;
     closed := false;
     registry := NewSchemaRegistry;
     schemaIDs := ∅;
     nextSchemaID := 1;
     channels := ∅;
     nextChannel := 1 |}.

Definition NewUnifiedMcapWriter (serviceOpts : ServiceOptions) (foxgloveOpts : FoxgloveOptions)
  : M World UnifiedMcapWriter :=
  fun w0 =>
    if String.eqb (McapPath foxgloveOpts) "" then (Err EPathNotSpecified, w0)
    else
      let '(ok, w1) := perform (MkdirAll (McapPath foxgloveOpts)) w0 in
      if negb ok then (Err (ECreateDirectory EIo), w1)
      else
        let '(ok, w2) := perform (Create (McapPath foxgloveOpts)) w1 in
        if negb ok then (Err (ECreateFile EIo), w2)
        else
          let '(ok, w3) := perform NewWriter w2 in
          if negb ok then (Err (ECreateWriter EIo), snd (perform FileClose w3))
          else
            let '(ok, w4) :=
              perform (WriteHeader {| Profile := Name serviceOpts;
                                      Library := "github.com/machanirobotics/pulse/go/" |}) w3 in
            if negb ok then (Err (EWriteHeader EIo), snd (perform FileClose w4))
            else
              let unified := unified_literal (McapPath foxgloveOpts) in
              match registerBuiltInSchemas (unified, w4) with
              | (Err e, (_, w5)) => (Err e, snd (perform FileClose w5))
              | (Ok _, (unified', w5)) => (Ok unified', w5)
              end.

Definition AddCustomSchema (name schema : string) : M Sys unit :=
  do u <- get_writer;
  call set_writer (with_registry (Register name schema (registry u)) u);
  RegisterSchema name.

Definition CreateChannel (topic schemaName : string) (metadata : gmap string string)
  : M Sys Z :=
  do u <- get_writer;
  match channels u !! topic with
  | Some channelID => ret channelID
  | None =>
      match schemaIDs u !! schemaName with
      | None => fail (ESchemaNotRegistered schemaName)
      | Some schemaID =>
          let channelID := nextChannel u in
          do ok <- io (WriteChannel {| channel_ID := channelID;
                                       channel_SchemaID := schemaID;
                                       channel_Topic := topic;
                                       channel_MessageEncoding := "json";
                                       channel_Metadata := metadata |});
          if ok : bool then
            call set_writer (bind_channel topic channelID u);
            ret channelID
          else fail (ECreateChannel EIo)
      end
  end.

Definition CreateLogChannel (topic : string) (metadata : gmap string string) : M Sys Z :=
  CreateChannel topic "foxglove.Log" metadata.

Definition CreateMetricChannel (topic : string) (metadata : gmap string string) : M Sys Z :=
  CreateChannel topic "mahcanirobotics.metric" metadata.

(** The codec's own error is returned as it is. *)
Definition WriteMessage (channelID : Z) (data : string) (logTime publishTime : Z)
  : M Sys unit :=
  do ok <- io (Mcap.WriteMessage {| message_ChannelID := channelID;
                                    message_Sequence := 0;
                                    message_LogTime := logTime;
                                    message_PublishTime := publishTime;
                                    message_Data := data |});
  if ok : bool then ret tt else fail EIo.

Definition Close : M Sys unit :=
  do u <- get_writer;
  if closed u then ret tt
  else
    do ok <- io WriterClose;
    if negb ok then
      call io FileClose; fail (ECloseWriter EIo)
    else
      do ok <- io FileClose;
      if negb ok then fail (ECloseFile EIo)
      else set_writer (mark_closed u).

Definition IsClosed : M Sys bool := do u <- get_writer; ret (closed u).

Definition GetFilePath (u : UnifiedMcapWriter) : string := filePath u.

End Foxglove.

Import Foxglove.

(** ** Package metrics: the metric adapter *)

Module Metrics.

Record MetricMcapWriter := {
  metric_channels : gmap string Z;
  metric_serviceName : string;
  metric_metadata : gmap string string
}.

Definition NewMetricMcapWriter (serviceOpts : ServiceOptions) : MetricMcapWriter :=
  {| metric_channels := ∅;
     metric_serviceName := Name serviceOpts;
     metric_metadata :=
       <["service_name" := Name serviceOpts]>
         (<["version" := Version serviceOpts]>
            (<["environment" := Environment serviceOpts]> ∅)) |}.

(** [fmt.Sprintf("/metrics/%s/%s", serviceName, strings.ReplaceAll(metricName, ".", "/"))] *)
Definition metric_topic (serviceName metricName : string) : string :=
  "/metrics/" ++ serviceName ++ "/" ++ ReplaceAll metricName "." "/".

(** The adapter holds a pointer to the one shared unified writer: the
    method runs on the adapter's own fields and on the shared [Sys]. *)
Definition getOrCreateChannel (metricName : string) : M (MetricMcapWriter * Sys) Z :=
  fun '(m, s) =>
    match metric_channels m !! metricName with
    | Some channelID => (Ok channelID, (m, s))
    | None =>
        let topic := metric_topic (metric_serviceName m) metricName in
        let channelMetadata := <["metric_name" := metricName]> (metric_metadata m) in
        match CreateMetricChannel topic channelMetadata s with
        | (Err e, s') => (Err (EMetricChannel metricName e), (m, s'))
        | (Ok channelID, s') =>
            (Ok channelID,
             ({| metric_channels := <[metricName := channelID]> (metric_channels m);
                 metric_serviceName := metric_serviceName m;
                 metric_metadata := metric_metadata m |}, s'))
        end
    end.

(** The topic of a metric in the words of the specification, to be
    compared with [metric_topic]: the prefix [/metrics/{serviceName}/],
    then the metric name with every ['.'] replaced by ['/']. *)
Fixpoint slashify (metricName : string) : string :=
  match metricName with
  | EmptyString => EmptyString
  | String c rest =>
      String (if Ascii.eqb c "."%char then "/"%char else c) (slashify rest)
  end.

Definition spec_topic (serviceName metricName : string) : string :=
  "/metrics/" ++ serviceName ++ "/" ++ slashify metricName.

End Metrics.

(** ** Package logging: the log adapter *)

Module Logging.

Record LogMcapWriter := {
  log_channelID : Z;
  log_serviceName : string;
  log_serviceVersion : string;
  log_serviceEnvironment : string
}.

Definition log_topic (serviceOpts : ServiceOptions) : string :=
  "/logs/" ++ Name serviceOpts.

Definition NewLogMcapWriter (serviceOpts : ServiceOptions) : M Sys LogMcapWriter :=
  fun s =>
    let serviceName :=
      Name serviceOpts ++ " (" ++ Version serviceOpts ++ " | " ++ Environment serviceOpts ++ ")" in
    let topic := log_topic serviceOpts in
    let metadata : gmap string string :=
      <["service" := Name serviceOpts]>
        (<["version" := Version serviceOpts]>
           (<["environment" := Environment serviceOpts]>
              (<["description" := Description serviceOpts]> ∅))) in
    match CreateLogChannel topic metadata s with
    | (Err e, s') => (Err (ELogChannel e), s')
    | (Ok channelID, s') =>
        (Ok {| log_channelID := channelID;
               log_serviceName := serviceName;
               log_serviceVersion := Version serviceOpts;
               log_serviceEnvironment := Environment serviceOpts |}, s')
    end.

End Logging.

(** ** Histories of a writer *)

Module History.

(** The public operations of the unified writer, as calls. *)
Inductive Call :=
| CallRegisterSchema (schemaName : string)
| CallAddCustomSchema (name schema : string)
| CallCreateChannel (topic schemaName : string) (metadata : gmap string string)
| CallWriteMessage (channelID : Z) (data : string) (logTime publishTime : Z)
| CallClose.

(** One call; the value returned is dropped, the error (if any) is kept. *)
Definition step (c : Call) (s : Sys) : result error unit * Sys :=
  match c with
  | CallRegisterSchema n => RegisterSchema n s
  | CallAddCustomSchema n d => AddCustomSchema n d s
  | CallCreateChannel t n md =>
      match CreateChannel t n md s with
      | (Ok _, s') => (Ok tt, s')
      | (Err e, s') => (Err e, s')
      end
  | CallWriteMessage ch d lt pt => Foxglove.WriteMessage ch d lt pt s
  | CallClose => Close s
  end.

(** The calls are made one after the other, whatever they return. *)
Fixpoint exec (cs : list Call) (s : Sys) : Sys :=
  match cs with
  | [] => s
  | c :: rest => exec rest (snd (step c s))
  end.

(** The states a writer can be in: it was opened by
    [NewUnifiedMcapWriter] in some world, and then used. *)
Definition Reachable (s : Sys) : Prop :=
  exists serviceOpts foxgloveOpts script u w cs,
    NewUnifiedMcapWriter serviceOpts foxgloveOpts (fresh script) = (Ok u, w)
    /\ exec cs (u, w) = s.

(** The ids [first], [first + 1], ... ([n] of them). *)
Fixpoint ids_from (first : Z) (n : nat) : list Z :=
  match n with
  | O => []
  | S k => first :: ids_from (first + 1) k
  end.

(** The ids handed out by a [uint16] counter that starts at 1. *)
Definition counter_ids (n : nat) : list Z :=
  map (fun i => (Z.of_nat i + 1) mod 65536) (seq 0 n).

Definition schema_binding (r : Schema) : string * Z := (schema_Name r, schema_ID r).
Definition channel_binding (c : Channel) : string * Z := (channel_Topic c, channel_ID c).

(** The in-memory tables agree with the stream: the bindings are those
    of the records written, no name or topic was written twice, and both
    counters count the records written. *)
Record Consistent (s : Sys) : Prop := {
  schema_bindings :
    schemaIDs (fst s) = list_to_map (schema_binding <$> schemaRecords (snd s));
  schema_names : NoDup (schema_Name <$> schemaRecords (snd s));
  schema_ids :
    schema_ID <$> schemaRecords (snd s) = counter_ids (length (schemaRecords (snd s)));
  schema_next :
    nextSchemaID (fst s) = (Z.of_nat (length (schemaRecords (snd s))) + 1) mod 65536;
  channel_bindings :
    channels (fst s) = list_to_map (channel_binding <$> channelRecords (snd s));
  channel_topics : NoDup (channel_Topic <$> channelRecords (snd s));
  channel_ids :
    channel_ID <$> channelRecords (snd s) = counter_ids (length (channelRecords (snd s)));
  channel_next :
    nextChannel (fst s) = (Z.of_nat (length (channelRecords (snd s))) + 1) mod 65536
}.

(** What holds of a state and is kept by every call: bindings are never
    removed or changed, and a closed writer stays closed and never
    touches the file handle again. *)
Definition Kept (s s' : Sys) : Prop :=
  (forall n id, schemaIDs (fst s) !! n = Some id -> schemaIDs (fst s') !! n = Some id)
  /\ (forall t id, channels (fst s) !! t = Some id -> channels (fst s') !! t = Some id)
  /\ (closed (fst s) = true ->
      closed (fst s') = true /\ fileCloses (snd s') = fileCloses (snd s)).

(** The names seeded by [NewSchemaRegistry]. *)
Definition builtin_names : list string :=
  ["foxglove.Log"; "mahcanirobotics.metric"; "foxglove.Plot"].

(** The writer as [NewUnifiedMcapWriter] returns it when nothing fails. *)
Definition opened_writer (path : string) : UnifiedMcapWriter :=
  bind_schema "mahcanirobotics.metric" 2 (bind_schema "foxglove.Log" 1 (unified_literal path)).

(** The calls made by a [NewUnifiedMcapWriter] in which nothing fails. *)
Definition opening_calls (serviceOpts : ServiceOptions) (path : string) : list (IoCall * bool) :=
  [ (MkdirAll path, true);
    (Create path, true);
    (NewWriter, true);
    (WriteHeader {| Profile := Name serviceOpts;
                    Library := "github.com/machanirobotics/pulse/go/" |}, true);
    (WriteSchema {| schema_ID := 1; schema_Name := "foxglove.Log";
                    schema_Encoding := "jsonschema"; schema_Data := foxgloveLogSchema |}, true);
    (WriteSchema {| schema_ID := 2; schema_Name := "mahcanirobotics.metric";
                    schema_Encoding := "jsonschema"; schema_Data := shokkiMetricSchema |}, true) ].

(** The records of the stream that carry a given name, or a given topic. *)
Definition schemaRecordsNamed (name : string) (w : World) : list Schema :=
  filter (fun r => schema_Name r = name) (schemaRecords w).

Definition channelRecordsOn (topic : string) (w : World) : list Channel :=
  filter (fun r => channel_Topic r = topic) (channelRecords w).

End History.

Import Metrics Logging History.

(** ** The end-to-end scenario *)

Module Scenario.

Definition svc : ServiceOptions :=
  {| Name := "svc"; Description := "demo"; Version := "1.0.0"; Environment := "development" |}.

Definition fox : FoxgloveOptions := {| Enabled := true; McapPath := "/tmp/svc.mcap" |}.

(** Open the writer in a world without faults. *)
Definition opened : result error UnifiedMcapWriter * World :=
  NewUnifiedMcapWriter svc fox (fresh []).

Definition opened_sys : Sys :=
  match opened with
  | (Ok u, w) => (u, w)
  | (Err _, w) => (unified_literal "", w)
  end.

(** Then the log adapter is built, and the metric ["cpu.load"] is
    recorded for the first time. *)
Definition with_log : result error LogMcapWriter * Sys := NewLogMcapWriter svc opened_sys.

Definition with_metric : result error Z * (MetricMcapWriter * Sys) :=
  getOrCreateChannel "cpu.load" (NewMetricMcapWriter svc, snd with_log).

(** The same opening in a world whose seventh external call (the first
    one after the opening) fails. *)
Definition opened_before_fault : Sys :=
  match NewUnifiedMcapWriter svc fox (fresh [false; false; false; false; false; false; true]) with
  | (Ok u, w) => (u, w)
  | (Err _, w) => (unified_literal "", w)
  end.

(** A world in which the codec fails to finalize the stream, twice. *)
Definition opened_before_failing_close : Sys :=
  match NewUnifiedMcapWriter svc fox
          (fresh [false; false; false; false; false; false; true; false; true; false]) with
  | (Ok u, w) => (u, w)
  | (Err _, w) => (unified_literal "", w)
  end.

End Scenario.

(** ** The statements of the specification that are compared with the code *)

Module Stated.

(** Immediately after a successful open the three built-in names are
    bound to the schema ids 1 to 3. *)
Definition three_builtins_bound (u : UnifiedMcapWriter) : Prop :=
  forall n, n ∈ builtin_names -> exists id, schemaIDs u !! n = Some id /\ 1 <= id <= 3.

(** In the end-to-end scenario the log channel receives id 4 and the
    metric channel id 5. *)
Definition scenario_channels_4_5 : Prop :=
  exists l s ms,
    Scenario.with_log = (Ok l, s) /\ log_channelID l = 4 /\ Scenario.with_metric = (Ok 5, ms).

(** When the write of [RegisterSchema] fails, the binding of the name
    has already been committed. *)
Definition schema_binding_precedes_write : Prop :=
  forall u w n cause s',
    RegisterSchema n (u, w) = (Err (EWriteSchema n cause), s') ->
    is_Some (schemaIDs (fst s') !! n).

(** Every [Close] after the first returns no error and leaves the file
    handle alone. *)
Definition later_Close_is_noop (s : Sys) : Prop :=
  let s1 := snd (Close s) in
  fst (Close s1) = Ok tt /\ fileCloses (snd (snd (Close s1))) = fileCloses (snd s1).

End Stated.

(** ** The rest of schemas.go *)

Module Schemas.

(** [List]: the names, in the order in which [range] visits the map.  Go
    leaves that order unspecified; the model visits the keys in the order
    of [map_to_list], and only facts that hold for every order are proved
    of it. *)
Definition List (r : SchemaRegistry) : list string := (map_to_list (schemas r)).*1.

End Schemas.

(** ** The clock and the integer conversions used by the adapters *)

Module Clock.

(** A [time.Time] as the adapters read it: the seconds since the epoch
    ([Unix()], an [int64]) and the nanoseconds within the second
    ([Nanosecond()], in [0, 999999999]). *)
Record time_Time := { Unix : Z; Nanosecond : Z }.

Definition to_uint32 (x : Z) : Z := x mod 4294967296.

Definition to_uint64 (x : Z) : Z := x mod 18446744073709551616.

Definition to_int64 (x : Z) : Z :=
  (x + 9223372036854775808) mod 18446744073709551616 - 9223372036854775808.

(** [t.UnixNano()], computed in [int64]. *)
Definition UnixNano (t : time_Time) : Z := to_int64 (Unix t * 1000000000 + Nanosecond t).

(** A time as [time.Now()] returns it. *)
Definition valid (t : time_Time) : Prop := 0 <= Nanosecond t < 1000000000.

(** The errors returned by the write methods of the adapters: an error of
    the unified writer (or of the codec), or a failure of [json.Marshal]. *)
Inductive write_error :=
| FromWriter (e : error)
| EMarshalMetric
| EMarshalLog.

Record FoxgloveTimestamp := { Sec : Z; Nsec : Z }.

(** [FoxgloveTimestamp{Sec: uint32(now.Unix()), Nsec: uint32(now.Nanosecond())}] *)
Definition stamp (now : time_Time) : FoxgloveTimestamp :=
  {| Sec := to_uint32 (Unix now); Nsec := to_uint32 (Nanosecond now) |}.

End Clock.

(** ** The rest of the metric adapter *)

Module MetricWriter.

Import Clock.

Section Write.

(** [float64], and [json.Marshal] on a [FoxgloveMetric] ([None]: it
    returns an error), are taken from outside. *)
Variable float64 : Type.

Record FoxgloveMetric := {
  Timestamp : FoxgloveTimestamp;
  Name : string;
  Value : float64
}.

Variable json_Marshal : FoxgloveMetric -> option string.

(** [now] is the time read by [time.Now()] after the channel was resolved. *)
Definition writeMetric (now : time_Time) (name : string) (value : float64)
  (st : MetricMcapWriter * Sys) : result write_error unit * (MetricMcapWriter * Sys) :=
  match getOrCreateChannel name st with
  | (Err err, st') => (Err (FromWriter err), st')
  | (Ok channelID, (m', s')) =>
      let metric := {| Timestamp := stamp now; Name := name; Value := value |} in
      match json_Marshal metric with
      | None => (Err EMarshalMetric, (m', s'))
      | Some data =>
          let nowNano := to_uint64 (UnixNano now) in
          match Foxglove.WriteMessage channelID data nowNano nowNano s' with
          | (Ok _, s'') => (Ok tt, (m', s''))
          | (Err err, s'') => (Err (FromWriter err), (m', s''))
          end
      end
  end.

Definition WriteCounter := writeMetric.

Definition WriteHistogram := writeMetric.

Definition WriteGauge := writeMetric.

End Write.

(** [Close] is a no-op; [IsClosed] and [GetFilePath] ask the unified writer. *)
Definition Close (st : MetricMcapWriter * Sys)
  : result write_error unit * (MetricMcapWriter * Sys) := (Ok tt, st).

Definition IsClosed (st : MetricMcapWriter * Sys) : bool := closed (fst (snd st)).

Definition GetFilePath (st : MetricMcapWriter * Sys) : string :=
  Foxglove.GetFilePath (fst (snd st)).

End MetricWriter.

(** ** The rest of the log adapter *)

Module LogWriter.

Import Clock.

Definition LogLevelUnknown : Z := 0.
Definition LogLevelDebug : Z := 1.
Definition LogLevelInfo : Z := 2.
Definition LogLevelWarning : Z := 3.
Definition LogLevelError : Z := 4.
Definition LogLevelFatal : Z := 5.

(** One [case] of a [switch] on a string. *)
Definition is_one_of (s : string) (cases : list string) : bool :=
  existsb (String.eqb s) cases.

Definition stringToFoxgloveLevel (level : string) : Z :=
  if is_one_of level ["DEBUG"; "debug"; "Debug"] then LogLevelDebug
  else if is_one_of level ["INFO"; "info"; "Info"] then LogLevelInfo
  else if is_one_of level ["WARN"; "warn"; "Warn"; "WARNING"; "warning"; "Warning"]
  then LogLevelWarning
  else if is_one_of level ["ERROR"; "error"; "Error"] then LogLevelError
  else if is_one_of level ["FATAL"; "fatal"; "Fatal"] then LogLevelFatal
  else LogLevelUnknown.

(** The spellings that [stringToFoxgloveLevel] knows. *)
Definition known_levels : list string :=
  ["DEBUG"; "debug"; "Debug"; "INFO"; "info"; "Info";
   "WARN"; "warn"; "Warn"; "WARNING"; "warning"; "Warning";
   "ERROR"; "error"; "Error"; "FATAL"; "fatal"; "Fatal"].

Section Write.

(** The values of the structured data ([interface{}]), and [json.Marshal]
    on a [FoxgloveLog], are taken from outside. *)
Variable any : Type.

Record FoxgloveLog := {
  Timestamp : FoxgloveTimestamp;
  Level : Z;
  Message : string;
  Name : string;
  File : string;
  Line : Z;
  Data : gmap string any;
  ServiceVersion : string;
  ServiceEnvironment : string
}.

Variable json_Marshal : FoxgloveLog -> option string.

(** The struct handed to [json.Marshal] by [WriteLog]. *)
Definition logMsg (l : LogMcapWriter) (now : time_Time) (level message file : string)
  (line : Z) (data : gmap string any) : FoxgloveLog :=
  {| Timestamp := stamp now;
     Level := stringToFoxgloveLevel level;
     Message := message;
     Name := log_serviceName l;
     File := file;
     Line := line;
     Data := data;
     ServiceVersion := log_serviceVersion l;
     ServiceEnvironment := log_serviceEnvironment l |}.

(** [now] is the time read by [time.Now()] on entry. *)
Definition WriteLog (l : LogMcapWriter) (now : time_Time) (level message file : string)
  (line : Z) (data : gmap string any) (s : Sys) : result write_error unit * Sys :=
  match json_Marshal (logMsg l now level message file line data) with
  | None => (Err EMarshalLog, s)
  | Some msgData =>
      let nowNano := to_uint64 (UnixNano now) in
      match Foxglove.WriteMessage (log_channelID l) msgData nowNano nowNano s with
      | (Ok _, s') => (Ok tt, s')
      | (Err err, s') => (Err (FromWriter err), s')
      end
  end.

End Write.

(** [Close] is a no-op; [IsClosed] and [GetFilePath] ask the unified writer. *)
Definition Close (s : Sys) : result write_error unit * Sys := (Ok tt, s).

Definition IsClosed (s : Sys) : bool := closed (fst s).

Definition GetFilePath (s : Sys) : string := Foxglove.GetFilePath (fst s).

End LogWriter.

(** ** The order of the records on the stream *)

Module Order.

(** The schema id a channel record refers to (whether or not the codec
    accepted the record), and the id of a schema record on the stream. *)
Definition channel_schema_ref (e : IoCall * bool) : option Z :=
  match e with
  | (WriteChannel c, _) => Some (channel_SchemaID c)
  | _ => None
  end.

Definition schema_on_stream (e : IoCall * bool) : option Z :=
  match e with
  | (WriteSchema r, true) => Some (schema_ID r)
  | _ => None
  end.

(** The channel id a message refers to, and the id of a channel record on
    the stream. *)
Definition message_channel_ref (e : IoCall * bool) : option Z :=
  match e with
  | (Mcap.WriteMessage m, _) => Some (message_ChannelID m)
  | _ => None
  end.

Definition channel_on_stream (e : IoCall * bool) : option Z :=
  match e with
  | (WriteChannel c, true) => Some (channel_ID c)
  | _ => None
  end.

(** Every event that refers to an id comes after an event that defines it. *)
Definition preceded (ref def : IoCall * bool -> option Z) (tr : list (IoCall * bool)) : Prop :=
  forall before e after k,
    tr = (before ++ e :: after)%list -> ref e = Some k ->
    exists e', e' ∈ before /\ def e' = Some k.

End Order.

(** ** A telemetry session: both adapters on one unified writer *)

Module Session.

Import Clock.

Section Uses.

Variables float64 any : Type.
Variable marshal_metric : MetricWriter.FoxgloveMetric float64 -> option string.
Variable marshal_log : LogWriter.FoxgloveLog any -> option string.

(** The log adapter (absent when its channel could not be created), the
    metric adapter, and the unified writer they share. *)
Record State := {
  logw : option LogMcapWriter;
  metricw : MetricMcapWriter;
  sys : Sys
}.

(** The adapters are built on the opened writer, the log adapter first. *)
Definition start (serviceOpts : ServiceOptions) (s : Sys) : State :=
  let '(r, s') := NewLogMcapWriter serviceOpts s in
  {| logw := match r with Ok l => Some l | Err _ => None end;
     metricw := NewMetricMcapWriter serviceOpts;
     sys := s' |}.

(** What the producers do: write a metric, write a log record, or call the
    unified writer. *)
Inductive Use :=
| UseMetric (now : time_Time) (name : string) (value : float64)
| UseLog (now : time_Time) (level message file : string) (line : Z) (data : gmap string any)
| UseWriter (c : Call).

Definition use (x : Use) (st : State) : State :=
  match x with
  | UseMetric now name value =>
      let '(_, (m, s)) :=
        MetricWriter.writeMetric float64 marshal_metric now name value (metricw st, sys st) in
      {| logw := logw st; metricw := m; sys := s |}
  | UseLog now level message file line data =>
      match logw st with
      | None => st
      | Some l =>
          {| logw := logw st;
             metricw := metricw st;
             sys := snd (LogWriter.WriteLog any marshal_log l now level message file line data
                           (sys st)) |}
      end
  | UseWriter c =>
      {| logw := logw st; metricw := metricw st; sys := snd (step c (sys st)) |}
  end.

Fixpoint run (xs : list Use) (st : State) : State :=
  match xs with
  | [] => st
  | x :: rest => run rest (use x st)
  end.

(** The producers hand messages to the adapters only. *)
Definition through_adapters (x : Use) : Prop :=
  match x with
  | UseWriter (CallWriteMessage _ _ _ _) => False
  | _ => True
  end.

(** The states of a session of the service [serviceOpts]. *)
Definition Reachable (serviceOpts : ServiceOptions) (st : State) : Prop :=
  exists foxgloveOpts script u w xs,
    NewUnifiedMcapWriter serviceOpts foxgloveOpts (fresh script) = (Ok u, w)
    /\ Forall through_adapters xs
    /\ run xs (start serviceOpts (u, w)) = st.

(** The metric adapter's cache agrees with the unified writer. *)
Definition cache_coherent (m : MetricMcapWriter) (s : Sys) : Prop :=
  forall name id,
    metric_channels m !! name = Some id ->
    channels (fst s) !! metric_topic (metric_serviceName m) name = Some id.

(** What a session keeps: the unified writer is one that was opened and
    used; the cache of the metric adapter and the channel of the log
    adapter agree with it; and every message follows its channel. *)
Definition ok (serviceOpts : ServiceOptions) (st : State) : Prop :=
  History.Reachable (sys st)
  /\ metric_serviceName (metricw st) = Name serviceOpts
  /\ cache_coherent (metricw st) (sys st)
  /\ (forall l, logw st = Some l ->
                channels (fst (sys st)) !! log_topic serviceOpts = Some (log_channelID l))
  /\ Order.preceded Order.message_channel_ref Order.channel_on_stream
       (trace (snd (sys st))).

End Uses.

End Session.

(** ** The outcomes of opening the writer *)

Module Opening.

Definition is_created (e : IoCall * bool) : bool :=
  match e with (Create _, true) => true | _ => false end.

Definition returned_error {A} (r : result error A) : bool :=
  match r with Ok _ => false | Err _ => true end.

(** The position of the first external call that fails, when the outcomes
    of the calls follow [script]. *)
Fixpoint first_fault (script : list bool) : option nat :=
  match script with
  | [] => None
  | true :: _ => Some O
  | false :: rest => option_map S (first_fault rest)
  end.

(** The error returned by [NewUnifiedMcapWriter] when its call number [i]
    (from 0) is the first that fails. *)
Definition opening_error (i : nat) : option error :=
  match i with
  | 0%nat => Some (ECreateDirectory EIo)
  | 1%nat => Some (ECreateFile EIo)
  | 2%nat => Some (ECreateWriter EIo)
  | 3%nat => Some (EWriteHeader EIo)
  | 4%nat => Some (EWriteSchema "foxglove.Log" EIo)
  | 5%nat => Some (EWriteSchema "mahcanirobotics.metric" EIo)
  | _ => None
  end.

Definition opening_result (path : string) (script : list bool)
  : result error UnifiedMcapWriter :=
  match first_fault (take 6 script) with
  | Some i =>
      match opening_error i with
      | Some e => Err e
      | None => Ok (opened_writer path)
      end
  | None => Ok (opened_writer path)
  end.

End Opening.

(** ** Kinds of calls to the codec and the file *)

Module Events.

Definition is_message (e : IoCall * bool) : bool :=
  match e with (Mcap.WriteMessage _, _) => true | _ => false end.

(** The messages handed to the codec, accepted or not. *)
Definition messages (tr : list (IoCall * bool)) : list (IoCall * bool) :=
  filter is_message tr.

(** The calls that finalize the stream or close the file handle, whatever
    their outcome. *)
Definition is_close (e : IoCall * bool) : bool :=
  match e with
  | (WriterClose, _) | (FileClose, _) => true
  | _ => false
  end.

End Events.

(** ** What a writer keeps during its life *)

Module Lifetime.

(** The registry holds the built-in names and every name that has an id. *)
Definition registry_covers (u : UnifiedMcapWriter) : Prop :=
  (forall n, is_Some (schemaIDs u !! n) -> is_Some (Get n (registry u)))
  /\ (forall n, n ∈ builtin_names -> is_Some (Get n (registry u))).

(** The closed flag tells the truth: when it is set, the codec has
    finalized the stream and the file was closed, both with success. *)
Definition closed_truthful (s : Sys) : Prop :=
  closed (fst s) = true ->
  (WriterClose, true) ∈ trace (snd s) /\ (FileClose, true) ∈ trace (snd s).

(** The writer is open on [path]: it is not marked closed, and the stream
    was not finalized nor the file handle closed, not even without
    success. *)
Definition stays_open (path : string) (s : Sys) : Prop :=
  closed (fst s) = false
  /\ filter Events.is_close (trace (snd s)) = []
  /\ filePath (fst s) = path.

End Lifetime.

(** ** The logger on top of the log adapter (logging.go) *)

Module LoggerCalls.

Import Clock.

Section Acts.

Variables float64 any : Type.
Variable marshal_metric : MetricWriter.FoxgloveMetric float64 -> option string.
Variable marshal_log : LogWriter.FoxgloveLog any -> option string.

(** The last block of [Logger.log], the one that writes to the MCAP file;
    the blocks before it write to the console and to OTLP only.
    [levelStr] is [level.String()], [file] and [line] are the results of
    [getCallerInfo(3)], [dataMap] is the result of [convertToMap] (empty
    when no data was given).  The error of [WriteLog] goes to the console
    and is not returned. *)
Definition log_mcap (now : time_Time) (levelStr msg file : string) (line : Z)
  (dataMap : gmap string any) (st : Session.State) : Session.State :=
  match Session.logw st with
  | None => st
  | Some l =>
      if negb (LogWriter.IsClosed (Session.sys st)) then
        {| Session.logw := Session.logw st;
           Session.metricw := Session.metricw st;
           Session.sys :=
             snd (LogWriter.WriteLog any marshal_log l now levelStr msg file (to_uint32 line)
                    dataMap (Session.sys st)) |}
      else st
  end.

(** What a service does: it logs through the [Logger], or it uses the
    adapters and the unified writer as in [Session.Use]. *)
Inductive Act :=
| ActLog (now : time_Time) (levelStr msg file : string) (line : Z) (dataMap : gmap string any)
| ActUse (x : Session.Use float64 any).

Definition act (a : Act) (st : Session.State) : Session.State :=
  match a with
  | ActLog now levelStr msg file line dataMap => log_mcap now levelStr msg file line dataMap st
  | ActUse x => Session.use float64 any marshal_metric marshal_log x st
  end.

Fixpoint run (acts : list Act) (st : Session.State) : Session.State :=
  match acts with
  | [] => st
  | a :: rest => run rest (act a st)
  end.

(** The acts that are not calls of the [Logger]. *)
Fixpoint without_logs (acts : list Act) : list Act :=
  match acts with
  | [] => []
  | ActLog _ _ _ _ _ _ :: rest => without_logs rest
  | a :: rest => a :: without_logs rest
  end.

End Acts.

End LoggerCalls.

(** ** The metric tags of a struct (metrics.go) *)

Module MetricTags.

(** [strings.Split(s, sep)] for a separator [sep] of one character: the
    pieces of [s] between the occurrences of [sep], the empty ones
    included; they are one more than the occurrences. *)
Fixpoint Split (s : string) (sep : ascii) : list string :=
  match s with
  | EmptyString => [EmptyString]
  | String c s' =>
      if Ascii.eqb c sep then EmptyString :: Split s' sep
      else match Split s' sep with
           | piece :: pieces => String c piece :: pieces
           | [] => [String c EmptyString]
           end
  end.

(** The body of the loop of [extractAndRecordMetrics] for one exported
    field, up to the call of [recordMetric]: from the tag [pulse] of the
    field to the metric type and the metric name ([None]: [continue]). *)
Definition parse_tag (tag : string) : option (string * string) :=
  if String.eqb tag "" || negb (has_prefix "metric:" tag) then None
  else
    match Split tag ":" with
    | _ :: metricType :: metricName :: _ => Some (metricType, metricName)
    | _ => None
    end.

Inductive Kind := Counter | Histogram | Gauge.

(** The [switch] of [recordMetric] ([None]: the "unknown metric type"
    error). *)
Definition recordMetric (metricType : string) : option Kind :=
  if String.eqb metricType "counter" then Some Counter
  else if String.eqb metricType "histogram" then Some Histogram
  else if String.eqb metricType "gauge" then Some Gauge
  else None.

(** Does [c] occur in [s]? *)
Fixpoint occurs (c : ascii) (s : string) : bool :=
  match s with
  | EmptyString => false
  | String a s' => Ascii.eqb a c || occurs c s'
  end.

(** The pieces put together again, with [sep] between them. *)
Fixpoint Join (pieces : list string) (sep : ascii) : string :=
  match pieces with
  | [] => EmptyString
  | [piece] => piece
  | piece :: rest => (piece ++ String sep (Join rest sep))%string
  end.

End MetricTags.

(** ** A session to compute with *)

Module Demo.

(** Stand-ins for [float64], for the structured data and for
    [json.Marshal] (a fixed payload; it refuses the value 0 and an empty
    message). *)
Definition marshal_metric (x : MetricWriter.FoxgloveMetric Z) : option string :=
  if Z.eqb (MetricWriter.Value Z x) 0 then None else Some "{}".

Definition marshal_log (x : LogWriter.FoxgloveLog unit) : option string :=
  if String.eqb (LogWriter.Message unit x) "" then None else Some "{}".

Definition noon : Clock.time_Time := {| Clock.Unix := 1700000000; Clock.Nanosecond := 5 |}.

Definition uses : list (Session.Use Z unit) :=
  [ Session.UseLog Z unit noon "INFO" "started" "main.go" 10 ∅;
    Session.UseMetric Z unit noon "cpu.load" 7 ].

Definition started : Session.State := Session.start Scenario.svc Scenario.opened_sys.

Definition session : Session.State :=
  Session.run Z unit marshal_metric marshal_log uses started.

(** The same session after [Close] on the unified writer. *)
Definition closed_session : Session.State :=
  Session.use Z unit marshal_metric marshal_log (Session.UseWriter Z unit CallClose) session.

End Demo.

(** * Properties *)

Open Scope list_scope.

(** ** The external world *)

Section World_facts.

Lemma schemaRecords_advance c w :
  schemaRecords (advance c w) =
  schemaRecords w ++ match written_schema (c, outcome w) with Some r => [r] | None => [] end.
Proof.
  unfold schemaRecords, advance; simpl. rewrite omap_app; simpl.
  destruct (written_schema (c, outcome w)); reflexivity.
Qed.

Lemma channelRecords_advance c w :
  channelRecords (advance c w) =
  channelRecords w ++ match written_channel (c, outcome w) with Some r => [r] | None => [] end.
Proof.
  unfold channelRecords, advance; simpl. rewrite omap_app; simpl.
  destruct (written_channel (c, outcome w)); reflexivity.
Qed.

Lemma schemaRecords_advance_other c w :
  (forall r, c <> WriteSchema r) -> schemaRecords (advance c w) = schemaRecords w.
Proof.
  intros Hc. rewrite schemaRecords_advance.
  destruct c; simpl; try apply app_nil_r. now destruct (Hc s).
Qed.

Lemma channelRecords_advance_other c w :
  (forall r, c <> WriteChannel r) -> channelRecords (advance c w) = channelRecords w.
Proof.
  intros Hc. rewrite channelRecords_advance.
  destruct c; simpl; try apply app_nil_r. now destruct (Hc c).
Qed.

Lemma trace_advance c w : trace (advance c w) = trace w ++ [(c, outcome w)].
Proof. reflexivity. Qed.

End World_facts.

(** ** The methods, case by case *)

Section Method_cases.

Variables (u : UnifiedMcapWriter) (w : World).

Lemma RegisterSchema_bound n id :
  schemaIDs u !! n = Some id -> RegisterSchema n (u, w) = (Ok tt, (u, w)).
Proof. intros H. unfold RegisterSchema, bind, get_writer. now rewrite H. Qed.

Lemma RegisterSchema_unknown n :
  schemaIDs u !! n = None -> Get n (registry u) = None ->
  RegisterSchema n (u, w) = (Err (ESchemaNotFound n), (u, w)).
Proof. intros H1 H2. unfold RegisterSchema, bind, get_writer. now rewrite H1, H2. Qed.

Lemma RegisterSchema_fresh n d :
  schemaIDs u !! n = None -> Get n (registry u) = Some d ->
  RegisterSchema n (u, w) =
  let r := {| schema_ID := nextSchemaID u; schema_Name := n;
              schema_Encoding := "jsonschema"; schema_Data := d |} in
  if outcome w
  then (Ok tt, (bind_schema n (nextSchemaID u) u, advance (WriteSchema r) w))
  else (Err (EWriteSchema n EIo), (u, advance (WriteSchema r) w)).
Proof.
  intros H1 H2. unfold RegisterSchema, bind, get_writer, io, perform.
  rewrite H1, H2. simpl. now destruct (outcome w).
Qed.

Lemma CreateChannel_bound t n md id :
  channels u !! t = Some id -> CreateChannel t n md (u, w) = (Ok id, (u, w)).
Proof. intros H. unfold CreateChannel, bind, get_writer. now rewrite H. Qed.

Lemma CreateChannel_unregistered t n md :
  channels u !! t = None -> schemaIDs u !! n = None ->
  CreateChannel t n md (u, w) = (Err (ESchemaNotRegistered n), (u, w)).
Proof. intros H1 H2. unfold CreateChannel, bind, get_writer. now rewrite H1, H2. Qed.

Lemma CreateChannel_fresh t n md sid :
  channels u !! t = None -> schemaIDs u !! n = Some sid ->
  CreateChannel t n md (u, w) =
  let c := {| channel_ID := nextChannel u; channel_SchemaID := sid; channel_Topic := t;
              channel_MessageEncoding := "json"; channel_Metadata := md |} in
  if outcome w
  then (Ok (nextChannel u), (bind_channel t (nextChannel u) u, advance (WriteChannel c) w))
  else (Err (ECreateChannel EIo), (u, advance (WriteChannel c) w)).
Proof.
  intros H1 H2. unfold CreateChannel, bind, get_writer, io, perform.
  rewrite H1, H2. simpl. now destruct (outcome w).
Qed.

Lemma WriteMessage_eq ch d lt pt :
  Foxglove.WriteMessage ch d lt pt (u, w) =
  let m := {| message_ChannelID := ch; message_Sequence := 0; message_LogTime := lt;
              message_PublishTime := pt; message_Data := d |} in
  (if outcome w then Ok tt else Err EIo, (u, advance (Mcap.WriteMessage m) w)).
Proof. unfold Foxglove.WriteMessage, bind, io, perform. simpl. now destruct (outcome w). Qed.

Lemma Close_closed : closed u = true -> Close (u, w) = (Ok tt, (u, w)).
Proof. intros H. unfold Close, bind, get_writer. now rewrite H. Qed.

Lemma Close_open :
  closed u = false ->
  Close (u, w) =
  let w1 := advance WriterClose w in
  let w2 := advance FileClose w1 in
  if outcome w
  then if outcome w1 then (Ok tt, (mark_closed u, w2)) else (Err (ECloseFile EIo), (u, w2))
  else (Err (ECloseWriter EIo), (u, w2)).
Proof.
  intros H. unfold Close, bind, get_writer, io, perform. rewrite H. simpl.
  destruct (outcome w); simpl; [destruct (outcome (advance WriterClose w))|]; reflexivity.
Qed.

Lemma AddCustomSchema_eq n d :
  AddCustomSchema n d (u, w) = RegisterSchema n (with_registry (Register n d (registry u)) u, w).
Proof. reflexivity. Qed.

End Method_cases.

(** ** The tables agree with the stream *)

Section Consistency.

Lemma counter_ids_snoc n :
  counter_ids (S n) = counter_ids n ++ [(Z.of_nat n + 1) mod 65536].
Proof. unfold counter_ids. now rewrite seq_S, map_app. Qed.

Lemma uint16_incr_counter n :
  uint16_incr ((Z.of_nat n + 1) mod 65536) = (Z.of_nat (S n) + 1) mod 65536.
Proof.
  unfold uint16_incr. rewrite Zplus_mod_idemp_l. f_equal. lia.
Qed.

Lemma fst_binding_schema l : (schema_binding <$> l).*1 = schema_Name <$> l.
Proof. induction l as [|r l IH]; csimpl; [reflexivity | now rewrite IH]. Qed.

Lemma fst_binding_channel l : (channel_binding <$> l).*1 = channel_Topic <$> l.
Proof. induction l as [|r l IH]; csimpl; [reflexivity | now rewrite IH]. Qed.

Lemma NoDup_snoc_fresh {A} (l : list A) (x : A) : NoDup l -> x ∉ l -> NoDup (l ++ [x]).
Proof.
  intros Hl Hx. apply NoDup_app. split; [assumption|]. split.
  - intros y Hy Hin. apply list_elem_of_singleton in Hin. now subst.
  - apply NoDup_singleton.
Qed.

(** Appending a schema record for an unbound name, with the counter's id. *)
Lemma Consistent_bind_schema u w n d :
  Consistent (u, w) -> schemaIDs u !! n = None -> outcome w = true ->
  let r := {| schema_ID := nextSchemaID u; schema_Name := n;
              schema_Encoding := "jsonschema"; schema_Data := d |} in
  Consistent (bind_schema n (nextSchemaID u) u, advance (WriteSchema r) w).
Proof.
  intros [Hb Hn Hi Hx Cb Ct Ci Cx] Hnone Hok r; simpl in *.
  assert (Hfresh : n ∉ schema_Name <$> schemaRecords w).
  { rewrite <- fst_binding_schema. apply not_elem_of_list_to_map. now rewrite <- Hb. }
  assert (Hs : schemaRecords (advance (WriteSchema r) w) = schemaRecords w ++ [r]).
  { rewrite schemaRecords_advance. now rewrite Hok. }
  assert (Hc : channelRecords (advance (WriteSchema r) w) = channelRecords w).
  { now apply channelRecords_advance_other. }
  constructor; simpl; rewrite ?Hs, ?Hc; try assumption.
  - rewrite fmap_app. simpl. unfold schema_binding at 2. simpl.
    rewrite list_to_map_snoc by now rewrite fst_binding_schema.
    now rewrite Hb.
  - rewrite fmap_app. simpl. now apply NoDup_snoc_fresh.
  - rewrite fmap_app, length_app, Hi. simpl.
    rewrite Nat.add_1_r, counter_ids_snoc. now rewrite Hx.
  - rewrite length_app, Hx. simpl. rewrite Nat.add_1_r. apply uint16_incr_counter.
Qed.

(** Appending a channel record for an unbound topic, with the counter's id. *)
Lemma Consistent_bind_channel u w t sid md :
  Consistent (u, w) -> channels u !! t = None -> outcome w = true ->
  let c := {| channel_ID := nextChannel u; channel_SchemaID := sid; channel_Topic := t;
              channel_MessageEncoding := "json"; channel_Metadata := md |} in
  Consistent (bind_channel t (nextChannel u) u, advance (WriteChannel c) w).
Proof.
  intros [Hb Hn Hi Hx Cb Ct Ci Cx] Hnone Hok c; simpl in *.
  assert (Hfresh : t ∉ channel_Topic <$> channelRecords w).
  { rewrite <- fst_binding_channel. apply not_elem_of_list_to_map. now rewrite <- Cb. }
  assert (Hs : channelRecords (advance (WriteChannel c) w) = channelRecords w ++ [c]).
  { rewrite channelRecords_advance. now rewrite Hok. }
  assert (Hc : schemaRecords (advance (WriteChannel c) w) = schemaRecords w).
  { now apply schemaRecords_advance_other. }
  constructor; simpl; rewrite ?Hs, ?Hc; try assumption.
  - rewrite fmap_app. simpl. unfold channel_binding at 2. simpl.
    rewrite list_to_map_snoc by now rewrite fst_binding_channel.
    now rewrite Cb.
  - rewrite fmap_app. simpl. now apply NoDup_snoc_fresh.
  - rewrite fmap_app, length_app, Ci. simpl.
    rewrite Nat.add_1_r, counter_ids_snoc. now rewrite Cx.
  - rewrite length_app, Cx. simpl. rewrite Nat.add_1_r. apply uint16_incr_counter.
Qed.

(** A call that writes no schema and no channel record, and that leaves
    the tables alone, keeps the agreement. *)
Lemma Consistent_frame u u' w w' :
  Consistent (u, w) ->
  schemaRecords w' = schemaRecords w -> channelRecords w' = channelRecords w ->
  schemaIDs u' = schemaIDs u -> nextSchemaID u' = nextSchemaID u ->
  channels u' = channels u -> nextChannel u' = nextChannel u ->
  Consistent (u', w').
Proof.
  intros [Hb Hn Hi Hx Cb Ct Ci Cx] Hs Hc E1 E2 E3 E4; simpl in *.
  constructor; simpl; rewrite ?Hs, ?Hc, ?E1, ?E2, ?E3, ?E4; assumption.
Qed.

Lemma failed_schema_write r w :
  outcome w = false -> schemaRecords (advance (WriteSchema r) w) = schemaRecords w.
Proof. intros H. rewrite schemaRecords_advance, H. apply app_nil_r. Qed.

Lemma failed_channel_write c w :
  outcome w = false -> channelRecords (advance (WriteChannel c) w) = channelRecords w.
Proof. intros H. rewrite channelRecords_advance, H. apply app_nil_r. Qed.

Lemma Consistent_RegisterSchema n s : Consistent s -> Consistent (snd (RegisterSchema n s)).
Proof.
  destruct s as [u w]. intros HC.
  destruct (schemaIDs u !! n) as [id|] eqn:Hid.
  { now rewrite (RegisterSchema_bound u w n id Hid). }
  destruct (Get n (registry u)) as [d|] eqn:Hget.
  2:{ now rewrite (RegisterSchema_unknown u w n Hid Hget). }
  rewrite (RegisterSchema_fresh u w n d Hid Hget). cbv zeta.
  destruct (outcome w) eqn:Hok; simpl.
  - now apply Consistent_bind_schema.
  - eapply Consistent_frame; eauto using failed_schema_write.
    now apply channelRecords_advance_other.
Qed.

Lemma Consistent_CreateChannel t n md s :
  Consistent s -> Consistent (snd (CreateChannel t n md s)).
Proof.
  destruct s as [u w]. intros HC.
  destruct (channels u !! t) as [id|] eqn:Hid.
  { now rewrite (CreateChannel_bound u w t n md id Hid). }
  destruct (schemaIDs u !! n) as [sid|] eqn:Hsid.
  2:{ now rewrite (CreateChannel_unregistered u w t n md Hid Hsid). }
  rewrite (CreateChannel_fresh u w t n md sid Hid Hsid). cbv zeta.
  destruct (outcome w) eqn:Hok; simpl.
  - now apply Consistent_bind_channel.
  - eapply Consistent_frame; eauto using failed_channel_write.
    now apply schemaRecords_advance_other.
Qed.

Lemma Consistent_AddCustomSchema n d s :
  Consistent s -> Consistent (snd (AddCustomSchema n d s)).
Proof.
  destruct s as [u w]. intros HC. rewrite AddCustomSchema_eq.
  apply Consistent_RegisterSchema.
  eapply Consistent_frame; eauto.
Qed.

Lemma Consistent_WriteMessage ch d lt pt s :
  Consistent s -> Consistent (snd (Foxglove.WriteMessage ch d lt pt s)).
Proof.
  destruct s as [u w]. intros HC. rewrite WriteMessage_eq. simpl.
  eapply Consistent_frame; eauto.
  - now apply schemaRecords_advance_other.
  - now apply channelRecords_advance_other.
Qed.

Lemma Consistent_Close s : Consistent s -> Consistent (snd (Close s)).
Proof.
  destruct s as [u w]. intros HC.
  destruct (closed u) eqn:Hc.
  { now rewrite Close_closed. }
  rewrite Close_open by assumption. cbv zeta.
  assert (Hs : schemaRecords (advance FileClose (advance WriterClose w)) = schemaRecords w).
  { now rewrite !schemaRecords_advance_other. }
  assert (Hch : channelRecords (advance FileClose (advance WriterClose w)) = channelRecords w).
  { now rewrite !channelRecords_advance_other. }
  destruct (outcome w); [destruct (outcome (advance WriterClose w))|]; simpl;
    eapply Consistent_frame; eauto.
Qed.

Lemma Consistent_step c s : Consistent s -> Consistent (snd (step c s)).
Proof.
  intros HC. destruct c; simpl.
  - now apply Consistent_RegisterSchema.
  - now apply Consistent_AddCustomSchema.
  - pose proof (Consistent_CreateChannel topic schemaName metadata s HC) as H.
    destruct (CreateChannel topic schemaName metadata s) as [[x|e] s']; exact H.
  - now apply Consistent_WriteMessage.
  - now apply Consistent_Close.
Qed.

Lemma Consistent_exec cs : forall s, Consistent s -> Consistent (exec cs s).
Proof.
  induction cs as [|c cs IH]; intros s HC; simpl; [assumption|].
  apply IH. now apply Consistent_step.
Qed.

End Consistency.

(** ** Opening the writer *)

Section Opening.

Lemma Get_Log : Get "foxglove.Log" NewSchemaRegistry = Some foxgloveLogSchema.
Proof. reflexivity. Qed.

Lemma Get_metric : Get "mahcanirobotics.metric" NewSchemaRegistry = Some shokkiMetricSchema.
Proof. reflexivity. Qed.

Lemma Get_Plot : Get "foxglove.Plot" NewSchemaRegistry = Some foxglovePlotSchema.
Proof. reflexivity. Qed.

(** [registerBuiltInSchemas] on the fresh struct: it succeeds exactly
    when both writes do, and then it has bound the two names. *)
Lemma registerBuiltInSchemas_ok path w u' w' :
  registerBuiltInSchemas (unified_literal path, w) = (Ok tt, (u', w')) ->
  u' = opened_writer path /\
  trace w' = trace w ++
    [ (WriteSchema {| schema_ID := 1; schema_Name := "foxglove.Log";
                      schema_Encoding := "jsonschema"; schema_Data := foxgloveLogSchema |}, true);
      (WriteSchema {| schema_ID := 2; schema_Name := "mahcanirobotics.metric";
                      schema_Encoding := "jsonschema"; schema_Data := shokkiMetricSchema |}, true) ].
Proof.
  unfold registerBuiltInSchemas, register_each, bind.
  rewrite (RegisterSchema_fresh _ w "foxglove.Log" foxgloveLogSchema)
    by (reflexivity || apply Get_Log).
  cbv zeta. destruct (outcome w) eqn:Hw1; [|discriminate].
  match goal with
  | |- context [RegisterSchema _ (?u1, ?w1)] =>
      rewrite (RegisterSchema_fresh u1 w1 "mahcanirobotics.metric" shokkiMetricSchema)
        by (reflexivity || apply Get_metric);
      cbv zeta; destruct (outcome w1) eqn:Hw2; [|discriminate]
  end.
  unfold ret. intros H. injection H as <- <-. split; [reflexivity|].
  simpl in Hw2. rewrite !trace_advance, Hw1, Hw2.
  now rewrite <- app_assoc.
Qed.

Lemma NewUnifiedMcapWriter_ok serviceOpts foxgloveOpts w0 u w :
  NewUnifiedMcapWriter serviceOpts foxgloveOpts w0 = (Ok u, w) ->
  McapPath foxgloveOpts <> "" /\
  u = opened_writer (McapPath foxgloveOpts) /\
  trace w = trace w0 ++ opening_calls serviceOpts (McapPath foxgloveOpts).
Proof.
  unfold NewUnifiedMcapWriter, perform.
  destruct (String.eqb_spec (McapPath foxgloveOpts) "") as [|Hpath]; [discriminate|].
  destruct (outcome w0) eqn:H0; simpl; [|discriminate].
  set (w1 := advance (MkdirAll _) w0).
  destruct (outcome w1) eqn:H1; simpl; [|discriminate].
  set (w2 := advance (Create _) w1).
  destruct (outcome w2) eqn:H2; simpl; [|discriminate].
  set (w3 := advance NewWriter w2).
  destruct (outcome w3) eqn:H3; simpl; [|discriminate].
  set (w4 := advance (WriteHeader _) w3).
  destruct (registerBuiltInSchemas (unified_literal (McapPath foxgloveOpts), w4))
    as [[[]|e] [u' w5]] eqn:Hreg; [|discriminate].
  intros H. injection H as <- <-.
  apply registerBuiltInSchemas_ok in Hreg as [-> Htr].
  split; [assumption|]. split; [reflexivity|].
  rewrite Htr. subst w4 w3 w2 w1. rewrite !trace_advance, H0, H1, H2, H3.
  unfold opening_calls. now rewrite <- !app_assoc.
Qed.

Lemma schemaRecords_trace w w' l :
  trace w' = trace w ++ l -> schemaRecords w' = schemaRecords w ++ omap written_schema l.
Proof. intros H. unfold schemaRecords. now rewrite H, omap_app. Qed.

Lemma channelRecords_trace w w' l :
  trace w' = trace w ++ l -> channelRecords w' = channelRecords w ++ omap written_channel l.
Proof. intros H. unfold channelRecords. now rewrite H, omap_app. Qed.

(** A writer opened in a world whose stream is still empty agrees with it. *)
Lemma Consistent_opened serviceOpts foxgloveOpts script u w :
  NewUnifiedMcapWriter serviceOpts foxgloveOpts (fresh script) = (Ok u, w) ->
  Consistent (u, w).
Proof.
  intros H. apply NewUnifiedMcapWriter_ok in H as (_ & -> & Htr).
  set (p := McapPath foxgloveOpts) in *.
  set (r1 := {| schema_ID := 1; schema_Name := "foxglove.Log";
                schema_Encoding := "jsonschema"; schema_Data := foxgloveLogSchema |}).
  set (r2 := {| schema_ID := 2; schema_Name := "mahcanirobotics.metric";
                schema_Encoding := "jsonschema"; schema_Data := shokkiMetricSchema |}).
  assert (Hs : schemaRecords w = [r1; r2]).
  { now rewrite (schemaRecords_trace (fresh script) w _ Htr). }
  assert (Hc : channelRecords w = []).
  { now rewrite (channelRecords_trace (fresh script) w _ Htr). }
  constructor; simpl; rewrite ?Hs, ?Hc; try reflexivity.
  - apply NoDup_cons. split; [|apply NoDup_singleton].
    intros Hin. apply list_elem_of_singleton in Hin. discriminate.
  - apply NoDup_nil_2.
Qed.

Lemma Reachable_Consistent s : Reachable s -> Consistent s.
Proof.
  intros (so & fo & script & u & w & cs & Hopen & <-).
  apply Consistent_exec. eapply Consistent_opened; eassumption.
Qed.

Lemma Reachable_step c s : Reachable s -> Reachable (snd (step c s)).
Proof.
  intros (so & fo & script & u & w & cs & Hopen & <-).
  exists so, fo, script, u, w, (cs ++ [c]). split; [assumption|].
  clear Hopen. generalize (u, w). induction cs as [|c' cs IH]; intros s; simpl; [reflexivity|].
  apply IH.
Qed.

End Opening.

(** ** What a call can change *)

Section Effects.

Lemma RegisterSchema_effect n u w :
  let s' := snd (RegisterSchema n (u, w)) in
  s' = (u, w)
  \/ (exists r, s' = (u, advance (WriteSchema r) w))
  \/ (exists r, schemaIDs u !! n = None
                /\ s' = (bind_schema n (nextSchemaID u) u, advance (WriteSchema r) w)).
Proof.
  destruct (schemaIDs u !! n) as [id|] eqn:Hid.
  { left. now rewrite (RegisterSchema_bound u w n id Hid). }
  destruct (Get n (registry u)) as [d|] eqn:Hget.
  2:{ left. now rewrite (RegisterSchema_unknown u w n Hid Hget). }
  rewrite (RegisterSchema_fresh u w n d Hid Hget). cbv zeta.
  destruct (outcome w); simpl; right; [right | left]; eauto.
Qed.

Lemma CreateChannel_effect t n md u w :
  let s' := snd (CreateChannel t n md (u, w)) in
  s' = (u, w)
  \/ (exists c, s' = (u, advance (WriteChannel c) w))
  \/ (exists c, channels u !! t = None
                /\ s' = (bind_channel t (nextChannel u) u, advance (WriteChannel c) w)).
Proof.
  destruct (channels u !! t) as [id|] eqn:Hid.
  { left. now rewrite (CreateChannel_bound u w t n md id Hid). }
  destruct (schemaIDs u !! n) as [sid|] eqn:Hsid.
  2:{ left. now rewrite (CreateChannel_unregistered u w t n md Hid Hsid). }
  rewrite (CreateChannel_fresh u w t n md sid Hid Hsid). cbv zeta.
  destruct (outcome w); simpl; right; [right | left]; eauto.
Qed.

Lemma fileCloses_advance c w :
  c <> FileClose -> fileCloses (advance c w) = fileCloses w.
Proof.
  intros Hc. unfold fileCloses. rewrite trace_advance, filter_app, length_app.
  rewrite filter_cons_False; [simpl; lia|].
  destruct c; simpl; auto.
Qed.

Lemma Kept_refl s : Kept s s.
Proof. unfold Kept; auto. Qed.

Lemma Kept_trans s1 s2 s3 : Kept s1 s2 -> Kept s2 s3 -> Kept s1 s3.
Proof.
  intros (A1 & B1 & C1) (A2 & B2 & C2). split; [auto|]. split; [auto|].
  intros Hc. destruct (C1 Hc) as [H1 E1]. destruct (C2 H1) as [H2 E2].
  split; [assumption | congruence].
Qed.

Lemma Kept_RegisterSchema n s : Kept s (snd (RegisterSchema n s)).
Proof.
  destruct s as [u w].
  destruct (RegisterSchema_effect n u w) as [E | [[r E] | [r [Hfree E]]]];
    cbv zeta in E; rewrite E; unfold Kept; simpl.
  - auto.
  - repeat split; auto. apply fileCloses_advance. discriminate.
  - repeat split; auto.
    + intros m id Hm. rewrite lookup_insert_ne; [assumption | congruence].
    + apply fileCloses_advance. discriminate.
Qed.

Lemma Kept_CreateChannel t n md s : Kept s (snd (CreateChannel t n md s)).
Proof.
  destruct s as [u w].
  destruct (CreateChannel_effect t n md u w) as [E | [[c E] | [c [Hfree E]]]];
    cbv zeta in E; rewrite E; unfold Kept; simpl.
  - auto.
  - repeat split; auto. apply fileCloses_advance. discriminate.
  - repeat split; auto.
    + intros m id Hm. rewrite lookup_insert_ne; [assumption | congruence].
    + apply fileCloses_advance. discriminate.
Qed.

Lemma Kept_step c s : Kept s (snd (step c s)).
Proof.
  destruct c; simpl.
  - apply Kept_RegisterSchema.
  - destruct s as [u w]. rewrite AddCustomSchema_eq.
    eapply Kept_trans; [|apply Kept_RegisterSchema]. unfold Kept; simpl; auto.
  - pose proof (Kept_CreateChannel topic schemaName metadata s) as H.
    destruct (CreateChannel topic schemaName metadata s) as [[x|e] s']; exact H.
  - destruct s as [u w]. rewrite WriteMessage_eq. unfold Kept; simpl.
    repeat split; auto. apply fileCloses_advance. discriminate.
  - destruct s as [u w]. destruct (closed u) eqn:Hc.
    + rewrite Close_closed by assumption. apply Kept_refl.
    + rewrite Close_open by assumption. cbv zeta. unfold Kept.
      destruct (outcome w); [destruct (outcome (advance WriterClose w))|]; simpl;
        repeat split; auto; congruence.
Qed.

Lemma Kept_exec cs : forall s, Kept s (exec cs s).
Proof.
  induction cs as [|c cs IH]; intros s; simpl; [apply Kept_refl|].
  eapply Kept_trans; [apply Kept_step | apply IH].
Qed.

Lemma Reachable_exec cs s : Reachable s -> Reachable (exec cs s).
Proof.
  revert s. induction cs as [|c cs IH]; intros s H; simpl; [assumption|].
  apply IH. now apply Reachable_step.
Qed.

Lemma Reachable_CreateChannel t n md s r s' :
  Reachable s -> CreateChannel t n md s = (r, s') -> Reachable s'.
Proof.
  intros HR H. pose proof (Reachable_step (CallCreateChannel t n md) s HR) as HS.
  simpl in HS. rewrite H in HS. now destruct r.
Qed.

Lemma Reachable_RegisterSchema n s r s' :
  Reachable s -> RegisterSchema n s = (r, s') -> Reachable s'.
Proof.
  intros HR H. pose proof (Reachable_step (CallRegisterSchema n) s HR) as HS.
  simpl in HS. now rewrite H in HS.
Qed.

(** With distinct keys, the records under a bound key are exactly one. *)
Lemma filter_unique_key {A} (key : A -> string) (val : A -> Z) (l : list A) k v :
  NoDup (key <$> l) ->
  (k, v) ∈ (fun r => (key r, val r)) <$> l ->
  exists r, filter (fun r => key r = k) l = [r] /\ key r = k /\ val r = v.
Proof.
  induction l as [|r0 l IH]; csimpl; intros Hnd Hin.
  { now apply elem_of_nil in Hin. }
  apply NoDup_cons in Hnd as [Hfresh Hnd].
  apply elem_of_cons in Hin as [Heq | Hin].
  - injection Heq as -> ->. exists r0.
    rewrite filter_cons_True by reflexivity. repeat split. f_equal.
    clear IH Hnd. induction l as [|r1 l IHl]; csimpl; [reflexivity|].
    apply not_elem_of_cons in Hfresh as [Hne Hfresh].
    rewrite filter_cons_False by congruence. now apply IHl.
  - destruct (IH Hnd Hin) as (r & Hf & Hk & Hv). exists r.
    rewrite filter_cons_False; [auto|].
    intros <-. apply Hfresh. apply list_elem_of_fmap.
    apply list_elem_of_fmap in Hin as (r1 & Hr1 & Hin).
    exists r1. split; [congruence | assumption].
Qed.

Lemma bound_schema_written_once s n id :
  Consistent s -> schemaIDs (fst s) !! n = Some id ->
  exists r, schemaRecordsNamed n (snd s) = [r] /\ schema_Name r = n /\ schema_ID r = id.
Proof.
  intros HC Hb. unfold schemaRecordsNamed.
  apply (filter_unique_key schema_Name schema_ID); [apply HC|].
  rewrite (schema_bindings _ HC) in Hb.
  apply elem_of_list_to_map in Hb; [assumption|].
  rewrite fst_binding_schema. apply HC.
Qed.

Lemma bound_channel_written_once s t id :
  Consistent s -> channels (fst s) !! t = Some id ->
  exists c, channelRecordsOn t (snd s) = [c] /\ channel_Topic c = t /\ channel_ID c = id.
Proof.
  intros HC Hb. unfold channelRecordsOn.
  apply (filter_unique_key channel_Topic channel_ID); [apply HC|].
  rewrite (channel_bindings _ HC) in Hb.
  apply elem_of_list_to_map in Hb; [assumption|].
  rewrite fst_binding_channel. apply HC.
Qed.

(** A call that returns an id has bound the topic to it; a registration
    that returns no error has bound the name. *)
Lemma CreateChannel_Ok_bound t n md s id s' :
  CreateChannel t n md s = (Ok id, s') -> channels (fst s') !! t = Some id.
Proof.
  destruct s as [u w].
  destruct (channels u !! t) as [id0|] eqn:Hid.
  { rewrite (CreateChannel_bound u w t n md id0 Hid). now intros [= <- <-]. }
  destruct (schemaIDs u !! n) as [sid|] eqn:Hsid.
  2:{ now rewrite (CreateChannel_unregistered u w t n md Hid Hsid). }
  rewrite (CreateChannel_fresh u w t n md sid Hid Hsid). cbv zeta.
  destruct (outcome w); [|discriminate].
  intros [= <- <-]. simpl. apply lookup_insert_eq.
Qed.

Lemma RegisterSchema_Ok_bound n s s' :
  RegisterSchema n s = (Ok tt, s') -> is_Some (schemaIDs (fst s') !! n).
Proof.
  destruct s as [u w].
  destruct (schemaIDs u !! n) as [id0|] eqn:Hid.
  { rewrite (RegisterSchema_bound u w n id0 Hid). intros [= <-]. simpl. eauto. }
  destruct (Get n (registry u)) as [d|] eqn:Hget.
  2:{ now rewrite (RegisterSchema_unknown u w n Hid Hget). }
  rewrite (RegisterSchema_fresh u w n d Hid Hget). cbv zeta.
  destruct (outcome w); [|discriminate].
  intros [= <-]. simpl. rewrite lookup_insert_eq. eauto.
Qed.

End Effects.

(** * The claims *)

(** ** C1: what opening the writer registers *)

(** C1 (as the code has it).  A successful [NewUnifiedMcapWriter] has
    registered two of the three built-in schemas, those named by
    [registerBuiltInSchemas]: ["foxglove.Log"] is bound to id 1 and
    ["mahcanirobotics.metric"] to id 2, with one schema record written for
    each, in that order, and the next schema id is 3.  No other name is
    bound: ["foxglove.Plot"] is seeded in the registry, as the other two
    are, but it is bound (to id 3) only by an explicit [RegisterSchema]. *)
Theorem open_binds_log_and_metric_schemas serviceOpts foxgloveOpts w0 u w :
  NewUnifiedMcapWriter serviceOpts foxgloveOpts w0 = (Ok u, w) ->
  schemaIDs u !! "foxglove.Log" = Some 1
  /\ schemaIDs u !! "mahcanirobotics.metric" = Some 2
  /\ (forall n, n <> "foxglove.Log" -> n <> "mahcanirobotics.metric" -> schemaIDs u !! n = None)
  /\ nextSchemaID u = 3
  /\ (forall n, n ∈ builtin_names -> is_Some (Get n (registry u)))
  /\ schema_binding <$> schemaRecords w =
     (schema_binding <$> schemaRecords w0) ++ [("foxglove.Log", 1); ("mahcanirobotics.metric", 2)]
  /\ (outcome w = true ->
      exists s', RegisterSchema "foxglove.Plot" (u, w) = (Ok tt, s')
                 /\ schemaIDs (fst s') !! "foxglove.Plot" = Some 3).
Proof.
  intros H. apply NewUnifiedMcapWriter_ok in H as (_ & -> & Htr).
  set (p := McapPath foxgloveOpts) in *.
  assert (Hplot : schemaIDs (opened_writer p) !! "foxglove.Plot" = None) by reflexivity.
  repeat split.
  - intros n H1 H2. unfold opened_writer, bind_schema; simpl.
    rewrite !lookup_insert_ne by congruence. apply lookup_empty.
  - intros n Hn. unfold builtin_names in Hn.
    repeat (apply elem_of_cons in Hn as [-> | Hn]; [simpl; eauto using Get_Log, Get_metric, Get_Plot|]).
    now apply elem_of_nil in Hn.
  - rewrite (schemaRecords_trace w0 w _ Htr), fmap_app. reflexivity.
  - intros Hok. eexists.
    rewrite (RegisterSchema_fresh _ w "foxglove.Plot" foxglovePlotSchema Hplot Get_Plot).
    cbv zeta. rewrite Hok. split; reflexivity.
Qed.

Lemma open_binds_log_and_metric_schemas_witness :
  NewUnifiedMcapWriter Scenario.svc Scenario.fox (fresh [])
  = (Ok (fst Scenario.opened_sys), snd Scenario.opened_sys)
  /\ schemaIDs (fst Scenario.opened_sys) !! "foxglove.Log" = Some 1
  /\ schemaIDs (fst Scenario.opened_sys) !! "mahcanirobotics.metric" = Some 2
  /\ nextSchemaID (fst Scenario.opened_sys) = 3.
Proof.
  assert (H : NewUnifiedMcapWriter Scenario.svc Scenario.fox (fresh [])
              = (Ok (fst Scenario.opened_sys), snd Scenario.opened_sys))
    by (vm_compute; reflexivity).
  split; [exact H|].
  destruct (open_binds_log_and_metric_schemas _ _ _ _ _ H) as (A & B & _ & C & _).
  repeat split; assumption.
Defined.

(** C1 as stated fails: after a successful open in a world without
    faults, ["foxglove.Plot"] has no schema id. *)
Lemma open_leaves_plot_unbound :
  exists u w,
    NewUnifiedMcapWriter Scenario.svc Scenario.fox (fresh []) = (Ok u, w)
    /\ schemaIDs u !! "foxglove.Plot" = None
    /\ ~ Stated.three_builtins_bound u.
Proof.
  exists (fst Scenario.opened_sys), (snd Scenario.opened_sys).
  split; [vm_compute; reflexivity|].
  assert (Hnone : schemaIDs (fst Scenario.opened_sys) !! "foxglove.Plot" = None)
    by (vm_compute; reflexivity).
  split; [exact Hnone|].
  intros Hall. destruct (Hall "foxglove.Plot") as (id & Hid & _).
  - unfold builtin_names. set_solver.
  - rewrite Hnone in Hid. discriminate.
Qed.

(** ** C2: the ids handed out *)

Section Id_sequences.

Lemma ids_from_seq n : forall a, ids_from a n = map (fun i => Z.of_nat i + a) (seq 0 n).
Proof.
  induction n as [|n IH]; intros a; simpl; [reflexivity|].
  f_equal. rewrite IH, <- seq_shift, map_map.
  apply map_ext. intros i. lia.
Qed.

Lemma counter_ids_small n : Z.of_nat n <= 65535 -> counter_ids n = ids_from 1 n.
Proof.
  intros Hn. rewrite ids_from_seq. unfold counter_ids.
  apply map_ext_in. intros i Hi. apply in_seq in Hi.
  apply Z.mod_small. lia.
Qed.

Lemma ids_from_lower a n x : x ∈ ids_from a n -> a <= x.
Proof.
  revert a. induction n as [|n IH]; intros a Hx; simpl in Hx.
  - now apply elem_of_nil in Hx.
  - apply elem_of_cons in Hx as [-> | Hx]; [lia|]. apply IH in Hx. lia.
Qed.

Lemma NoDup_ids_from n : forall a, NoDup (ids_from a n).
Proof.
  induction n as [|n IH]; intros a; simpl; [apply NoDup_nil_2|].
  apply NoDup_cons. split; [|apply IH].
  intros Hin. apply ids_from_lower in Hin. lia.
Qed.

End Id_sequences.

(** C2 (as the code has it).  Schema ids and channel ids come from two
    separate counters, each starting at 1.  On every writer that was opened
    and then used by any sequence of calls, under any pattern of I/O
    failures, and as long as fewer than 65535 records of a kind were written:
    the schema records of the stream carry the ids 1, 2, 3, ... in the
    order they were written, and so do the channel records; no id of a kind
    is used twice and none is skipped; the tables bind exactly the names
    and topics of these records to these ids; and each counter holds the
    id after the last one used.  In the end-to-end scenario the two
    schemas bound at open have ids 1 and 2, the log channel receives
    channel id 1 and the channel of the metric ["cpu.load"] channel id 2. *)
Theorem ids_sequential_per_kind s :
  Reachable s ->
  Z.of_nat (length (schemaRecords (snd s))) < 65535 ->
  Z.of_nat (length (channelRecords (snd s))) < 65535 ->
  schema_ID <$> schemaRecords (snd s) = ids_from 1 (length (schemaRecords (snd s)))
  /\ channel_ID <$> channelRecords (snd s) = ids_from 1 (length (channelRecords (snd s)))
  /\ NoDup (schema_ID <$> schemaRecords (snd s))
  /\ NoDup (channel_ID <$> channelRecords (snd s))
  /\ (forall n id, schemaIDs (fst s) !! n = Some id
                   <-> (n, id) ∈ schema_binding <$> schemaRecords (snd s))
  /\ (forall t id, channels (fst s) !! t = Some id
                   <-> (t, id) ∈ channel_binding <$> channelRecords (snd s))
  /\ nextSchemaID (fst s) = Z.of_nat (length (schemaRecords (snd s))) + 1
  /\ nextChannel (fst s) = Z.of_nat (length (channelRecords (snd s))) + 1
  /\ (exists l s1 ms,
        Scenario.with_log = (Ok l, s1) /\ log_channelID l = 1
        /\ Scenario.with_metric = (Ok 2, ms)
        /\ schema_binding <$> schemaRecords (snd (snd ms))
           = [("foxglove.Log", 1); ("mahcanirobotics.metric", 2)]
        /\ channel_binding <$> channelRecords (snd (snd ms))
           = [("/logs/svc", 1); ("/metrics/svc/cpu/load", 2)]).
Proof.
  intros HR Hs Hc. pose proof (Reachable_Consistent s HR) as HC.
  destruct HC as [Sb Sn Si Sx Cb Ct Ci Cx].
  assert (Es : schema_ID <$> schemaRecords (snd s) = ids_from 1 (length (schemaRecords (snd s)))).
  { rewrite Si. apply counter_ids_small. lia. }
  assert (Ec : channel_ID <$> channelRecords (snd s) = ids_from 1 (length (channelRecords (snd s)))).
  { rewrite Ci. apply counter_ids_small. lia. }
  split; [exact Es|]. split; [exact Ec|].
  split; [rewrite Es; apply NoDup_ids_from|].
  split; [rewrite Ec; apply NoDup_ids_from|].
  split.
  { intros n id. rewrite Sb. symmetry. apply elem_of_list_to_map.
    now rewrite fst_binding_schema. }
  split.
  { intros t id. rewrite Cb. symmetry. apply elem_of_list_to_map.
    now rewrite fst_binding_channel. }
  split; [rewrite Sx; apply Z.mod_small; lia|].
  split; [rewrite Cx; apply Z.mod_small; lia|].
  eexists _, _, _. split; [vm_compute; reflexivity|].
  split; [reflexivity|]. split; [vm_compute; reflexivity|].
  split; vm_compute; reflexivity.
Qed.

Lemma ids_sequential_per_kind_witness :
  Reachable (snd (snd Scenario.with_metric))
  /\ schema_ID <$> schemaRecords (snd (snd (snd Scenario.with_metric))) = [1; 2]
  /\ channel_ID <$> channelRecords (snd (snd (snd Scenario.with_metric))) = [1; 2].
Proof.
  assert (HR : Reachable (snd (snd Scenario.with_metric))).
  { exists Scenario.svc, Scenario.fox, [], (fst Scenario.opened_sys), (snd Scenario.opened_sys),
      [CallCreateChannel "/logs/svc" "foxglove.Log"
         (<["service" := "svc"]> (<["version" := "1.0.0"]>
            (<["environment" := "development"]> (<["description" := "demo"]> ∅))));
       CallCreateChannel "/metrics/svc/cpu/load" "mahcanirobotics.metric"
         (<["metric_name" := "cpu.load"]> (<["service_name" := "svc"]>
            (<["version" := "1.0.0"]> (<["environment" := "development"]> ∅))))].
    split; vm_compute; reflexivity. }
  split; [exact HR|].
  assert (Hs : Z.of_nat (length (schemaRecords (snd (snd (snd Scenario.with_metric))))) < 65535)
    by (vm_compute; reflexivity).
  assert (Hc : Z.of_nat (length (channelRecords (snd (snd (snd Scenario.with_metric))))) < 65535)
    by (vm_compute; reflexivity).
  destruct (ids_sequential_per_kind _ HR Hs Hc) as (A & B & _).
  split; [rewrite A | rewrite B]; vm_compute; reflexivity.
Defined.

(** C2 as stated fails: in the end-to-end scenario the log channel does
    not receive id 4 (it receives 1), nor the metric channel id 5. *)
Lemma scenario_channels_are_not_4_5 : ~ Stated.scenario_channels_4_5.
Proof.
  intros (l & s & ms & Hlog & H4 & _).
  assert (E : exists l0 s0, Scenario.with_log = (Ok l0, s0) /\ log_channelID l0 = 1).
  { eexists _, _. split; [vm_compute; reflexivity | reflexivity]. }
  destruct E as (l0 & s0 & E & H1). rewrite E in Hlog.
  injection Hlog as <- <-. rewrite H1 in H4. discriminate.
Qed.

(** ** C3: a write that fails *)

(** C3 (as the code has it).  [RegisterSchema] and [CreateChannel] hand
    the record to the codec first and record the binding only when that
    write succeeded.  When the write fails, the error is returned
    (wrapped), the failed attempt is the only thing that happened, and the
    writer is exactly as it was: the name or topic is still unbound and the
    counter was not advanced, so the tables are never ahead of the stream. *)
Theorem failed_write_commits_nothing u w :
  outcome w = false ->
  (forall n d,
      schemaIDs u !! n = None -> Get n (registry u) = Some d ->
      let r := {| schema_ID := nextSchemaID u; schema_Name := n;
                  schema_Encoding := "jsonschema"; schema_Data := d |} in
      RegisterSchema n (u, w) = (Err (EWriteSchema n EIo), (u, advance (WriteSchema r) w))
      /\ trace (advance (WriteSchema r) w) = trace w ++ [(WriteSchema r, false)]
      /\ schemaRecords (advance (WriteSchema r) w) = schemaRecords w)
  /\ (forall t n md sid,
      channels u !! t = None -> schemaIDs u !! n = Some sid ->
      let c := {| channel_ID := nextChannel u; channel_SchemaID := sid; channel_Topic := t;
                  channel_MessageEncoding := "json"; channel_Metadata := md |} in
      CreateChannel t n md (u, w) = (Err (ECreateChannel EIo), (u, advance (WriteChannel c) w))
      /\ trace (advance (WriteChannel c) w) = trace w ++ [(WriteChannel c, false)]
      /\ channelRecords (advance (WriteChannel c) w) = channelRecords w).
Proof.
  intros Hfail. split.
  - intros n d Hn Hd r.
    rewrite (RegisterSchema_fresh u w n d Hn Hd). cbv zeta. rewrite Hfail.
    split; [reflexivity|]. split.
    + now rewrite trace_advance, Hfail.
    + now apply failed_schema_write.
  - intros t n md sid Ht Hn c.
    rewrite (CreateChannel_fresh u w t n md sid Ht Hn). cbv zeta. rewrite Hfail.
    split; [reflexivity|]. split.
    + now rewrite trace_advance, Hfail.
    + now apply failed_channel_write.
Qed.

Lemma failed_write_commits_nothing_witness :
  outcome (snd Scenario.opened_before_fault) = false
  /\ (exists s', RegisterSchema "foxglove.Plot" Scenario.opened_before_fault
                 = (Err (EWriteSchema "foxglove.Plot" EIo), s')
                 /\ fst s' = fst Scenario.opened_before_fault)
  /\ (exists s', CreateChannel "/logs/svc" "foxglove.Log" ∅ Scenario.opened_before_fault
                 = (Err (ECreateChannel EIo), s')
                 /\ fst s' = fst Scenario.opened_before_fault).
Proof.
  assert (Hf : outcome (snd Scenario.opened_before_fault) = false) by (vm_compute; reflexivity).
  split; [exact Hf|].
  destruct (failed_write_commits_nothing (fst Scenario.opened_before_fault) _ Hf) as [HS HC].
  split.
  - destruct (HS "foxglove.Plot" foxglovePlotSchema) as (E & _);
      [vm_compute; reflexivity | vm_compute; reflexivity |].
    eexists. split; [exact E | reflexivity].
  - destruct (HC "/logs/svc" "foxglove.Log" ∅ 1) as (E & _);
      [vm_compute; reflexivity | vm_compute; reflexivity |].
    eexists. split; [exact E | reflexivity].
Defined.

(** C3 as stated fails: when the write of a schema record fails, the
    error is returned and the name has no binding. *)
Lemma failed_schema_write_binds_nothing :
  (exists s',
      RegisterSchema "foxglove.Plot" Scenario.opened_before_fault
      = (Err (EWriteSchema "foxglove.Plot" EIo), s')
      /\ schemaIDs (fst s') !! "foxglove.Plot" = None
      /\ nextSchemaID (fst s') = nextSchemaID (fst Scenario.opened_before_fault))
  /\ ~ Stated.schema_binding_precedes_write.
Proof.
  assert (E : exists s',
             RegisterSchema "foxglove.Plot" Scenario.opened_before_fault
             = (Err (EWriteSchema "foxglove.Plot" EIo), s')
             /\ schemaIDs (fst s') !! "foxglove.Plot" = None
             /\ nextSchemaID (fst s') = nextSchemaID (fst Scenario.opened_before_fault)).
  { eexists. split; [vm_compute; reflexivity|]. split; vm_compute; reflexivity. }
  split; [exact E|].
  intros Hclaim. destruct E as ([u' w'] & E & Hnone & _).
  destruct Scenario.opened_before_fault as [u w].
  apply Hclaim in E. rewrite Hnone in E. now destruct E.
Qed.

(** ** C4 and C5: creating and registering twice *)

(** C4.  On a writer that was opened and used in any way, a
    [CreateChannel] for a topic returns an id whenever its schema name has
    a schema id and the codec accepts the record.  Once a [CreateChannel]
    for the topic has returned an id, every later [CreateChannel] for that
    topic, whatever its schema name and metadata and whatever calls were
    made in between, returns the same id, writes nothing and leaves the
    writer and the world as they are; and the stream holds exactly one
    channel record for the topic, which carries that id. *)
Theorem CreateChannel_idempotent s t n1 md1 :
  Reachable s ->
  (forall sid,
      schemaIDs (fst s) !! n1 = Some sid -> outcome (snd s) = true ->
      exists id, fst (CreateChannel t n1 md1 s) = Ok id)
  /\ forall id s1,
      CreateChannel t n1 md1 s = (Ok id, s1) ->
      forall cs n2 md2,
        let s2 := exec cs s1 in
        CreateChannel t n2 md2 s2 = (Ok id, s2)
        /\ exists c, channelRecordsOn t (snd s2) = [c] /\ channel_ID c = id.
Proof.
  intros HR. split.
  - intros sid Hsid Hok. destruct s as [u w]; simpl in *.
    destruct (channels u !! t) as [id|] eqn:Ht.
    + exists id. now rewrite (CreateChannel_bound u w t n1 md1 id Ht).
    + exists (nextChannel u).
      rewrite (CreateChannel_fresh u w t n1 md1 sid Ht Hsid). cbv zeta. now rewrite Hok.
  - intros id s1 H1 cs n2 md2 s2.
    assert (HR1 : Reachable s1) by (eapply Reachable_CreateChannel; eassumption).
    assert (HR2 : Reachable s2) by now apply Reachable_exec.
    assert (Hb : channels (fst s2) !! t = Some id).
    { apply (Kept_exec cs s1). eapply CreateChannel_Ok_bound; eassumption. }
    split.
    + destruct s2 as [u2 w2]. now apply CreateChannel_bound.
    + destruct (bound_channel_written_once s2 t id (Reachable_Consistent _ HR2) Hb)
        as (c & Hc & _ & Hid).
      eauto.
Qed.

Lemma CreateChannel_idempotent_witness :
  Reachable Scenario.opened_sys
  /\ CreateChannel "/logs/svc" "foxglove.Log" ∅ Scenario.opened_sys
     = (Ok 1, snd (CreateChannel "/logs/svc" "foxglove.Log" ∅ Scenario.opened_sys))
  /\ fst (CreateChannel "/logs/svc" "mahcanirobotics.metric" {["k" := "v"]}
            (snd (CreateChannel "/logs/svc" "foxglove.Log" ∅ Scenario.opened_sys)))
     = Ok 1.
Proof.
  assert (HR : Reachable Scenario.opened_sys).
  { exists Scenario.svc, Scenario.fox, [], (fst Scenario.opened_sys), (snd Scenario.opened_sys), [].
    split; vm_compute; reflexivity. }
  assert (H1 : CreateChannel "/logs/svc" "foxglove.Log" ∅ Scenario.opened_sys
               = (Ok 1, snd (CreateChannel "/logs/svc" "foxglove.Log" ∅ Scenario.opened_sys)))
    by (vm_compute; reflexivity).
  split; [exact HR|]. split; [exact H1|].
  destruct (CreateChannel_idempotent _ "/logs/svc" "foxglove.Log" ∅ HR) as [_ Hlater].
  destruct (Hlater _ _ H1 [] "mahcanirobotics.metric" {["k" := "v"]}) as [E _].
  simpl in E. now rewrite E.
Defined.

(** C5.  [RegisterSchema] returns only an error; the id it assigns is the
    one bound to the name.  On a writer that was opened and used in any
    way, a [RegisterSchema] for a name present in the registry returns no
    error whenever the codec accepts the record.  Once a [RegisterSchema]
    for the name has returned no error, the name is bound to an id, and
    every later [RegisterSchema] for that name, whatever calls were made in
    between, returns no error, writes nothing, leaves the writer and the
    world as they are, and finds the name bound to the same id; and the
    stream holds exactly one schema record for the name, which carries
    that id. *)
Theorem RegisterSchema_idempotent s n :
  Reachable s ->
  (forall d,
      Get n (registry (fst s)) = Some d -> outcome (snd s) = true ->
      fst (RegisterSchema n s) = Ok tt)
  /\ forall s1,
      RegisterSchema n s = (Ok tt, s1) ->
      exists id,
        schemaIDs (fst s1) !! n = Some id
        /\ forall cs,
            let s2 := exec cs s1 in
            RegisterSchema n s2 = (Ok tt, s2)
            /\ schemaIDs (fst s2) !! n = Some id
            /\ exists r, schemaRecordsNamed n (snd s2) = [r] /\ schema_ID r = id.
Proof.
  intros HR. split.
  - intros d Hd Hok. destruct s as [u w]; simpl in *.
    destruct (schemaIDs u !! n) as [id|] eqn:Hn.
    + now rewrite (RegisterSchema_bound u w n id Hn).
    + rewrite (RegisterSchema_fresh u w n d Hn Hd). cbv zeta. now rewrite Hok.
  - intros s1 H1.
    destruct (RegisterSchema_Ok_bound n s s1 H1) as [id Hid].
    exists id. split; [exact Hid|]. intros cs s2.
    assert (HR1 : Reachable s1) by (eapply Reachable_RegisterSchema; eassumption).
    assert (HR2 : Reachable s2) by now apply Reachable_exec.
    assert (Hb : schemaIDs (fst s2) !! n = Some id) by now apply (Kept_exec cs s1).
    split; [|split].
    + destruct s2 as [u2 w2]. eapply RegisterSchema_bound. exact Hb.
    + exact Hb.
    + destruct (bound_schema_written_once s2 n id (Reachable_Consistent _ HR2) Hb)
        as (r & Hr & _ & Hrid).
      eauto.
Qed.

Lemma RegisterSchema_idempotent_witness :
  Reachable Scenario.opened_sys
  /\ RegisterSchema "foxglove.Plot" Scenario.opened_sys
     = (Ok tt, snd (RegisterSchema "foxglove.Plot" Scenario.opened_sys))
  /\ exists id,
      schemaIDs (fst (snd (RegisterSchema "foxglove.Plot" Scenario.opened_sys))) !! "foxglove.Plot"
      = Some id
      /\ fst (RegisterSchema "foxglove.Plot"
                (snd (RegisterSchema "foxglove.Plot" Scenario.opened_sys))) = Ok tt.
Proof.
  assert (HR : Reachable Scenario.opened_sys).
  { exists Scenario.svc, Scenario.fox, [], (fst Scenario.opened_sys), (snd Scenario.opened_sys), [].
    split; vm_compute; reflexivity. }
  assert (H1 : RegisterSchema "foxglove.Plot" Scenario.opened_sys
               = (Ok tt, snd (RegisterSchema "foxglove.Plot" Scenario.opened_sys)))
    by (vm_compute; reflexivity).
  split; [exact HR|]. split; [exact H1|].
  destruct (RegisterSchema_idempotent _ "foxglove.Plot" HR) as [_ Honce].
  destruct (Honce _ H1) as (id & Hid & Hlater).
  exists id. split; [exact Hid|].
  destruct (Hlater []) as (E & _). simpl in E. now rewrite E.
Defined.

(** ** C6: a channel on an unregistered schema *)

(** C6.  [CreateChannel] for a topic without binding and a schema name
    without schema id returns the error "schema not registered" and changes
    nothing: no call reaches the codec, so no channel record is written;
    the topic stays unbound; the channel counter, and every other field of
    the writer, is as before. *)
Theorem CreateChannel_unregistered_schema u w t n md :
  channels u !! t = None ->
  schemaIDs u !! n = None ->
  exists u' w',
    CreateChannel t n md (u, w) = (Err (ESchemaNotRegistered n), (u', w'))
    /\ trace w' = trace w
    /\ channelRecords w' = channelRecords w
    /\ channels u' !! t = None
    /\ nextChannel u' = nextChannel u
    /\ u' = u /\ w' = w.
Proof.
  intros Ht Hn. exists u, w.
  unfold CreateChannel, bind, get_writer, fail. rewrite Ht, Hn.
  repeat split; assumption.
Qed.

Lemma CreateChannel_unregistered_schema_witness :
  channels (fst Scenario.opened_sys) !! "t" = None
  /\ schemaIDs (fst Scenario.opened_sys) !! "nonexistent-schema" = None
  /\ CreateChannel "t" "nonexistent-schema" ∅
       (fst Scenario.opened_sys, snd Scenario.opened_sys)
     = (Err (ESchemaNotRegistered "nonexistent-schema"),
        (fst Scenario.opened_sys, snd Scenario.opened_sys)).
Proof.
  assert (Ht : channels (fst Scenario.opened_sys) !! "t" = None) by (vm_compute; reflexivity).
  assert (Hn : schemaIDs (fst Scenario.opened_sys) !! "nonexistent-schema" = None)
    by (vm_compute; reflexivity).
  split; [exact Ht|]. split; [exact Hn|].
  destruct (CreateChannel_unregistered_schema _ (snd Scenario.opened_sys) "t" _ ∅ Ht Hn)
    as (u' & w' & E & _ & _ & _ & _ & -> & ->).
  exact E.
Defined.

(** ** C7: writing after Close *)

(** C7.  [WriteMessage] never looks at the closed flag.  In every state,
    and so in the state left by a [Close] (where the flag is set whenever
    that [Close] returned no error), the message, with sequence number 0,
    is handed to the codec; the call returns what the codec returns: no
    error when the codec accepts the message, the codec's own error
    otherwise, and never an error of the writer's own. *)
Theorem WriteMessage_after_Close_reaches_codec s ch d lt pt :
  let m := {| message_ChannelID := ch; message_Sequence := 0; message_LogTime := lt;
              message_PublishTime := pt; message_Data := d |} in
  let s1 := snd (Close s) in
  (fst (Close s) = Ok tt -> closed (fst s1) = true)
  /\ Foxglove.WriteMessage ch d lt pt s1
     = (if outcome (snd s1) then Ok tt else Err EIo,
        (fst s1, advance (Mcap.WriteMessage m) (snd s1)))
  /\ trace (snd (snd (Foxglove.WriteMessage ch d lt pt s1)))
     = trace (snd s1) ++ [(Mcap.WriteMessage m, outcome (snd s1))]
  /\ Foxglove.WriteMessage ch d lt pt s
     = (if outcome (snd s) then Ok tt else Err EIo,
        (fst s, advance (Mcap.WriteMessage m) (snd s))).
Proof.
  intros m s1. split; [|split; [|split]].
  - subst s1. destruct s as [u w]. destruct (closed u) eqn:Hc.
    + now rewrite Close_closed.
    + rewrite Close_open by assumption. cbv zeta.
      destruct (outcome w); [destruct (outcome (advance WriterClose w))|];
        simpl; intros; congruence.
  - destruct s1 as [u1 w1]. apply WriteMessage_eq.
  - destruct s1 as [u1 w1]. now rewrite WriteMessage_eq.
  - destruct s as [u w]. apply WriteMessage_eq.
Qed.

Lemma WriteMessage_after_Close_reaches_codec_witness :
    fst (Close Scenario.opened_sys) = Ok tt
    /\ closed (fst (snd (Close Scenario.opened_sys))) = true
    /\ fst (Foxglove.WriteMessage 1 "{}" 5 5 (snd (Close Scenario.opened_sys))) = Ok tt.
Proof.
    assert (H : fst (Close Scenario.opened_sys) = Ok tt) by (vm_compute; reflexivity).
    split; [exact H|].
    destruct (WriteMessage_after_Close_reaches_codec Scenario.opened_sys 1 "{}" 5 5)
      as (Hc & E & _).
    split; [exact (Hc H)|].
    rewrite E. vm_compute. reflexivity.
Defined.

(** ** C8: closing twice *)

(** C8 (as the code has it).  The first [Close] of a writer asks the
    codec to finalize the stream and then closes the file handle, once
    each; it returns no error exactly when both succeed.  When it returns
    no error, it has marked the writer closed, and from then on, whatever
    calls are made, [IsClosed] reports true and every [Close] returns no
    error and does nothing: the writer and the world stay as they are, and
    the file handle is never closed again. *)
Theorem Close_idempotent_after_success u w :
  closed u = false ->
  let s1 := snd (Close (u, w)) in
  trace (snd s1)
  = trace w ++ [(WriterClose, outcome w); (FileClose, outcome (advance WriterClose w))]
  /\ (fst (Close (u, w)) = Ok tt
      <-> outcome w = true /\ outcome (advance WriterClose w) = true)
  /\ (fst (Close (u, w)) = Ok tt ->
      closed (fst s1) = true
      /\ IsClosed s1 = (Ok true, s1)
      /\ forall cs,
          let s2 := exec cs s1 in
          Close s2 = (Ok tt, s2)
          /\ IsClosed s2 = (Ok true, s2)
          /\ fileCloses (snd s2) = fileCloses (snd s1)).
Proof.
  intros Hopen. rewrite Close_open by assumption. cbv zeta.
  destruct (outcome w) eqn:H1; [destruct (outcome (advance WriterClose w)) eqn:H2|];
    cbn [fst snd]; (split; [now rewrite !trace_advance, H1, ?H2, <- app_assoc|]).
  - split; [tauto|]. intros _.
    split; [reflexivity|]. split; [reflexivity|].
    intros cs.
    set (s1 := (mark_closed u, advance FileClose (advance WriterClose w))).
    destruct (Kept_exec cs s1) as (_ & _ & Hk).
    destruct (Hk eq_refl) as [Hc Hf].
    destruct (exec cs s1) as [u2 w2]; simpl in *.
    split; [now apply Close_closed|]. split; [|exact Hf].
    unfold IsClosed, bind, get_writer, ret. now rewrite Hc.
  - split; [|discriminate]. split; [discriminate | intros [_ ?]; discriminate].
  - split; [|discriminate]. split; [discriminate | intros [? _]; discriminate].
Qed.

Lemma Close_idempotent_after_success_witness :
  closed (fst Scenario.opened_sys) = false
  /\ fst (Close (fst Scenario.opened_sys, snd Scenario.opened_sys)) = Ok tt
  /\ fst (Close (snd (Close (fst Scenario.opened_sys, snd Scenario.opened_sys)))) = Ok tt
  /\ fileCloses (snd (snd (Close (snd (Close (fst Scenario.opened_sys, snd Scenario.opened_sys))))))
     = 1%nat.
Proof.
  assert (H0 : closed (fst Scenario.opened_sys) = false) by (vm_compute; reflexivity).
  assert (H1 : fst (Close (fst Scenario.opened_sys, snd Scenario.opened_sys)) = Ok tt)
    by (vm_compute; reflexivity).
  split; [exact H0|]. split; [exact H1|].
  destruct (Close_idempotent_after_success _ (snd Scenario.opened_sys) H0) as (_ & _ & Hmarked).
  destruct (Hmarked H1) as (_ & _ & Hlater).
  destruct (Hlater []) as (E & _ & _). simpl in E. rewrite E.
  split; [reflexivity | vm_compute; reflexivity].
Defined.

(** C8 as stated fails: when the codec cannot finalize the stream, the
    first [Close] closes the file handle and returns the error without
    marking the writer closed; the second [Close] then runs again, closes
    the handle a second time and, here, returns an error again. *)
Lemma Close_after_failed_Close_runs_again :
  let s1 := snd (Close Scenario.opened_before_failing_close) in
  fst (Close Scenario.opened_before_failing_close) = Err (ECloseWriter EIo)
  /\ closed (fst s1) = false
  /\ fileCloses (snd s1) = 1%nat
  /\ fst (Close s1) = Err (ECloseWriter EIo)
  /\ fileCloses (snd (snd (Close s1))) = 2%nat
  /\ ~ Stated.later_Close_is_noop Scenario.opened_before_failing_close.
Proof.
  cbv zeta.
  assert (E : fst (Close (snd (Close Scenario.opened_before_failing_close)))
              = Err (ECloseWriter EIo)) by (vm_compute; reflexivity).
  repeat split; try (vm_compute; reflexivity).
  intros [Hok _]. rewrite E in Hok. discriminate.
Qed.

(** ** C9: the topic of a metric *)

Section Topic.

Lemma ReplaceAll_dot_slash name : ReplaceAll name "." "/" = slashify name.
Proof.
  unfold ReplaceAll. induction name as [|c rest IH]; [reflexivity|].
  cbn [replace_from has_prefix slashify String.length Nat.pred].
  rewrite (Ascii.eqb_sym c "."%char), IH.
  now destruct (Ascii.eqb "."%char c).
Qed.

End Topic.

(** C9.  The topic under which the metric adapter creates the channel of
    a metric is ["/metrics/"], the service name, ["/"], and the metric name
    with every ['.'] replaced by ['/'] and nothing else changed, for every
    service name and metric name; for ["llm.cache.hit_rate"] under ["svc"]
    it is ["/metrics/svc/llm/cache/hit_rate"].  When [getOrCreateChannel]
    returns an id for a metric name it had not cached, the unified writer
    binds that topic to the id, and the adapter caches the id under the
    metric name. *)
Theorem metric_topic_derivation :
  (forall serviceName metricName,
      metric_topic serviceName metricName = spec_topic serviceName metricName)
  /\ metric_topic "svc" "llm.cache.hit_rate" = "/metrics/svc/llm/cache/hit_rate"
  /\ (forall m s metricName id m' s',
      metric_channels m !! metricName = None ->
      getOrCreateChannel metricName (m, s) = (Ok id, (m', s')) ->
      channels (fst s') !! spec_topic (metric_serviceName m) metricName = Some id
      /\ metric_channels m' !! metricName = Some id).
Proof.
  assert (Heq : forall a b, metric_topic a b = spec_topic a b).
  { intros a b. unfold metric_topic, spec_topic. now rewrite ReplaceAll_dot_slash. }
  split; [exact Heq|]. split; [reflexivity|].
  intros m s name id m' s' Hcache. unfold getOrCreateChannel. rewrite Hcache.
  unfold CreateMetricChannel.
  destruct (CreateChannel _ _ _ s) as [[id0|e] s0] eqn:Hc; [|discriminate].
  intros [= <- <- <-]. rewrite <- Heq. split.
  - eapply CreateChannel_Ok_bound. exact Hc.
  - simpl. apply lookup_insert_eq.
Qed.

Lemma metric_topic_derivation_witness :
    metric_channels (NewMetricMcapWriter Scenario.svc) !! "cpu.load" = None
    /\ Scenario.with_metric
       = (Ok 2, (fst (snd Scenario.with_metric), snd (snd Scenario.with_metric)))
    /\ channels (fst (snd (snd Scenario.with_metric))) !! "/metrics/svc/cpu/load" = Some 2.
Proof.
    assert (H0 : metric_channels (NewMetricMcapWriter Scenario.svc) !! "cpu.load" = None)
      by (vm_compute; reflexivity).
    assert (H1 : getOrCreateChannel "cpu.load" (NewMetricMcapWriter Scenario.svc, snd Scenario.with_log)
                 = (Ok 2, (fst (snd Scenario.with_metric), snd (snd Scenario.with_metric))))
      by (vm_compute; reflexivity).
    split; [exact H0|]. split; [exact H1|].
    destruct metric_topic_derivation as (_ & _ & Hbound).
    destruct (Hbound _ _ _ _ _ _ H0 H1) as [Hb _].
    exact Hb.
Defined.

(** ** C10: a custom schema under a bound name *)

(** C10.  On a writer that was opened and used in any way, let a name be
    bound to a schema id.  Then [AddCustomSchema] with that name and any
    definition returns no error; afterwards the registry holds the new
    definition under the name, while the schema ids, the next schema id and
    every other field of the writer are as before and the world is as
    before: nothing was handed to the codec, and the stream still holds
    exactly one schema record for the name, the one written when the name
    was bound, with the id and the definition it was written with. *)
Theorem AddCustomSchema_on_bound_name u w name definition id :
  Reachable (u, w) ->
  schemaIDs u !! name = Some id ->
  exists u',
    AddCustomSchema name definition (u, w) = (Ok tt, (u', w))
    /\ Get name (registry u') = Some definition
    /\ (forall other, other <> name -> Get other (registry u') = Get other (registry u))
    /\ schemaIDs u' = schemaIDs u
    /\ nextSchemaID u' = nextSchemaID u
    /\ channels u' = channels u /\ nextChannel u' = nextChannel u /\ closed u' = closed u
    /\ exists r, schemaRecordsNamed name w = [r] /\ schema_ID r = id.
Proof.
  intros HR Hb. exists (with_registry (Register name definition (registry u)) u).
  split.
  { rewrite AddCustomSchema_eq. eapply RegisterSchema_bound. exact Hb. }
  split; [apply lookup_insert_eq|].
  split; [intros other Hne; unfold Get; simpl; now apply lookup_insert_ne|].
  repeat (split; [reflexivity|]).
  destruct (bound_schema_written_once (u, w) name id (Reachable_Consistent _ HR) Hb)
    as (r & Hr & _ & Hid).
  eauto.
Qed.

Lemma AddCustomSchema_on_bound_name_witness :
  Reachable (fst Scenario.opened_sys, snd Scenario.opened_sys)
  /\ schemaIDs (fst Scenario.opened_sys) !! "foxglove.Log" = Some 1
  /\ exists u',
      AddCustomSchema "foxglove.Log" "{}" (fst Scenario.opened_sys, snd Scenario.opened_sys)
      = (Ok tt, (u', snd Scenario.opened_sys))
      /\ Get "foxglove.Log" (registry u') = Some "{}"
      /\ exists r, schemaRecordsNamed "foxglove.Log" (snd Scenario.opened_sys) = [r]
                   /\ schema_Data r = foxgloveLogSchema.
Proof.
  assert (HR : Reachable (fst Scenario.opened_sys, snd Scenario.opened_sys)).
  { exists Scenario.svc, Scenario.fox, [], (fst Scenario.opened_sys), (snd Scenario.opened_sys), [].
    split; vm_compute; reflexivity. }
  assert (Hb : schemaIDs (fst Scenario.opened_sys) !! "foxglove.Log" = Some 1)
    by (vm_compute; reflexivity).
  split; [exact HR|]. split; [exact Hb|].
  destruct (AddCustomSchema_on_bound_name _ _ "foxglove.Log" "{}" 1 HR Hb)
    as (u' & E & Hg & _ & _ & _ & _ & _ & _ & r & Hr & _).
  exists u'. split; [exact E|]. split; [exact Hg|].
  exists r. split; [exact Hr|].
  assert (Hc : schemaRecordsNamed "foxglove.Log" (snd Scenario.opened_sys)
               = [ {| schema_ID := 1; schema_Name := "foxglove.Log";
                      schema_Encoding := "jsonschema"; schema_Data := foxgloveLogSchema |} ])
    by (vm_compute; reflexivity).
  rewrite Hc in Hr. injection Hr as <-. reflexivity.
Defined.


(** * Further properties of the code *)

(** ** Histories, once more *)

Section History_facts.

Lemma exec_snoc cs c : forall s, exec (cs ++ [c]) s = snd (step c (exec cs s)).
Proof. induction cs as [|c' cs IH]; intros s; simpl; [reflexivity | apply IH]. Qed.

(** What holds when the writer is opened and is kept by every call holds
    of every state a writer can be in. *)
Lemma Reachable_invariant (P : Sys -> Prop) :
  (forall serviceOpts foxgloveOpts script u w,
      NewUnifiedMcapWriter serviceOpts foxgloveOpts (fresh script) = (Ok u, w) -> P (u, w)) ->
  (forall c s, Reachable s -> P s -> P (snd (step c s))) ->
  forall s, Reachable s -> P s.
Proof.
  intros Hopen Hstep s (so & fo & script & u & w & cs & HN & <-).
  induction cs as [|c cs IH] using rev_ind; simpl.
  - eapply Hopen; eassumption.
  - rewrite exec_snoc. apply Hstep; [|exact IH].
    exists so, fo, script, u, w, cs. split; [assumption | reflexivity].
Qed.

(** The trace only grows. *)
Lemma step_trace_grows c s :
  exists evs, trace (snd (snd (step c s))) = trace (snd s) ++ evs.
Proof.
  destruct s as [u w]. destruct c; simpl.
  - destruct (RegisterSchema_effect schemaName u w) as [E | [[r E] | [r [_ E]]]];
      cbv zeta in E; rewrite E; simpl;
      first [exists []; now rewrite app_nil_r | eauto].
  - rewrite AddCustomSchema_eq.
    destruct (RegisterSchema_effect name (with_registry (Register name schema (registry u)) u) w)
      as [E | [[r E] | [r [_ E]]]];
      cbv zeta in E; rewrite E; simpl;
      first [exists []; now rewrite app_nil_r | eauto].
  - pose proof (CreateChannel_effect topic schemaName metadata u w) as H. cbv zeta in H.
    destruct (CreateChannel topic schemaName metadata (u, w)) as [[x|e] s']; simpl in *;
      destruct H as [E | [[r E] | [r [_ E]]]]; rewrite E; simpl;
      first [exists []; now rewrite app_nil_r | eauto].
  - rewrite WriteMessage_eq. simpl. eauto.
  - destruct (closed u) eqn:Hc.
    + rewrite Close_closed by assumption. exists []. now rewrite app_nil_r.
    + rewrite Close_open by assumption. cbv zeta.
      destruct (outcome w); [destruct (outcome (advance WriterClose w))|]; simpl;
        rewrite <- app_assoc; eauto.
Qed.

Lemma exec_trace_grows cs :
  forall s, exists evs, trace (snd (exec cs s)) = trace (snd s) ++ evs.
Proof.
  induction cs as [|c cs IH]; intros s; simpl.
  - exists []. now rewrite app_nil_r.
  - destruct (IH (snd (step c s))) as [evs2 E2].
    destruct (step_trace_grows c s) as [evs1 E1].
    exists (evs1 ++ evs2). now rewrite E2, E1, app_assoc.
Qed.

Lemma exec_channelRecords_grow cs s c :
  c ∈ channelRecords (snd s) -> c ∈ channelRecords (snd (exec cs s)).
Proof.
  intros Hc. destruct (exec_trace_grows cs s) as [evs E].
  rewrite (channelRecords_trace _ _ _ E). apply elem_of_app. now left.
Qed.

Lemma exec_schemaRecords_grow cs s r :
  r ∈ schemaRecords (snd s) -> r ∈ schemaRecords (snd (exec cs s)).
Proof.
  intros Hr. destruct (exec_trace_grows cs s) as [evs E].
  rewrite (schemaRecords_trace _ _ _ E). apply elem_of_app. now left.
Qed.

End History_facts.

(** ** The registry *)

(** X1.  [Register] followed by [Get]: the name just registered is found
    with the definition given, every other name is found as before, and
    registering a name again replaces its definition (the last one wins)
    without touching the others. *)
Theorem Register_then_Get r name definition :
  Get name (Register name definition r) = Some definition
  /\ (forall other, other <> name ->
        Get other (Register name definition r) = Get other r)
  /\ (forall definition',
        Register name definition' (Register name definition r) = Register name definition' r)
  /\ (forall other definition', other <> name ->
        Register name definition (Register other definition' r)
        = Register other definition' (Register name definition r)).
Proof.
  unfold Get, Register; simpl. split; [apply lookup_insert_eq|].
  split; [intros other Hne; now apply lookup_insert_ne|].
  split; [intros d'; f_equal; apply insert_insert_eq|].
  intros other d' Hne. f_equal. now apply insert_insert_ne.
Qed.

(** X2.  [List] returns every registered name exactly once, and nothing
    else, in some order: a name is listed if and only if [Get] finds it.
    For a new registry these are the three built-in names; registering a
    name that was absent adds it to the list, and registering a name again
    leaves the listed names as they are. *)
Theorem List_lists_the_registered_names r :
  NoDup (Schemas.List r)
  /\ (forall name, name ∈ Schemas.List r <-> is_Some (Get name r))
  /\ Schemas.List NewSchemaRegistry ≡ₚ builtin_names
  /\ (forall name definition,
        Get name r = None ->
        Schemas.List (Register name definition r) ≡ₚ name :: Schemas.List r)
  /\ (forall name definition,
        is_Some (Get name r) ->
        Schemas.List (Register name definition r) ≡ₚ Schemas.List r).
Proof.
  assert (Hnd : forall r0, NoDup (Schemas.List r0)).
  { intros r0. apply NoDup_fst_map_to_list. }
  assert (Hin : forall r0 name, name ∈ Schemas.List r0 <-> is_Some (Get name r0)).
  { intros r0 name. unfold Schemas.List, Get. rewrite list_elem_of_fmap. split.
    - intros ([k v] & -> & Hkv). apply elem_of_map_to_list in Hkv. simpl. eauto.
    - intros [v Hv]. exists (name, v). split; [reflexivity|]. now apply elem_of_map_to_list. }
  split; [apply Hnd|]. split; [apply Hin|]. split; [|split].
  - apply NoDup_Permutation; [apply Hnd| |].
    + apply (bool_decide_eq_true_1 (NoDup builtin_names)). vm_compute. reflexivity.
    + intros n. rewrite Hin. unfold builtin_names, Get, NewSchemaRegistry; simpl. split.
      * intros [v Hv].
        destruct (decide (n = "foxglove.Log")) as [->|H1];
          [repeat constructor|].
        destruct (decide (n = "mahcanirobotics.metric")) as [->|H2];
          [repeat constructor|].
        destruct (decide (n = "foxglove.Plot")) as [->|H3];
          [repeat constructor|].
        rewrite !lookup_insert_ne, lookup_empty in Hv by congruence. discriminate.
      * intros Hn. repeat (apply elem_of_cons in Hn as [-> | Hn]; [eexists; reflexivity|]).
        now apply elem_of_nil in Hn.
  - intros name d Hnone. unfold Schemas.List, Register; simpl.
    rewrite map_to_list_insert by exact Hnone. reflexivity.
  - intros name d Hsome. apply NoDup_Permutation; [apply Hnd | apply Hnd |].
    intros n. rewrite !Hin. unfold Get, Register; simpl.
    destruct (decide (n = name)) as [->|Hne].
    + rewrite lookup_insert_eq. split; eauto.
    + now rewrite lookup_insert_ne by congruence.
Qed.

(** ** Opening the writer: the failures *)

(** The outcomes of the first six external calls, one case after the
    other; [fin] closes each case. *)
Ltac opening_walk n fin :=
  lazymatch n with
  | O => fin
  | S ?k =>
      lazymatch goal with
      | script : list bool |- _ =>
          destruct script as [|[] script]; [fin | fin | opening_walk k fin]
      end
  end.

(** X3.  [NewUnifiedMcapWriter] with an empty path returns the error
    "path not specified" without any call to the operating system or the
    codec.  With a path, it returns the writer exactly when none of its
    six external calls fails (create the directory, create the file, build
    the codec writer, write the header, write the two built-in schemas);
    otherwise it returns the error of the first call that fails: the
    directory, file, codec-writer or header error, or the error of
    [RegisterSchema] for the schema concerned, as it is. *)
Theorem NewUnifiedMcapWriter_result serviceOpts foxgloveOpts w0 :
  (McapPath foxgloveOpts = "" ->
   NewUnifiedMcapWriter serviceOpts foxgloveOpts w0 = (Err EPathNotSpecified, w0))
  /\ (McapPath foxgloveOpts <> "" ->
      fst (NewUnifiedMcapWriter serviceOpts foxgloveOpts w0)
      = Opening.opening_result (McapPath foxgloveOpts) (faults w0)).
Proof.
  split.
  - intros Hp. unfold NewUnifiedMcapWriter. now rewrite Hp.
  - intros Hp. apply String.eqb_neq in Hp.
    unfold NewUnifiedMcapWriter. rewrite Hp.
    destruct w0 as [script tr].
    opening_walk 6%nat ltac:(vm_compute; reflexivity).
Qed.

Lemma NewUnifiedMcapWriter_result_witness :
  McapPath Scenario.fox <> ""
  /\ fst (NewUnifiedMcapWriter Scenario.svc Scenario.fox (fresh [false; false; true]))
     = Err (ECreateWriter EIo).
Proof.
  assert (Hp : McapPath Scenario.fox <> "") by discriminate.
  split; [exact Hp|].
  destruct (NewUnifiedMcapWriter_result Scenario.svc Scenario.fox (fresh [false; false; true]))
    as [_ H].
  rewrite (H Hp). reflexivity.
Defined.

(** [registerBuiltInSchemas] on the fresh struct, and
    [NewUnifiedMcapWriter], along the outcomes of their external calls. *)
Lemma registerBuiltInSchemas_run path w :
  registerBuiltInSchemas (unified_literal path, w) =
  let w1 := advance (WriteSchema {| schema_ID := 1; schema_Name := "foxglove.Log";
                                    schema_Encoding := "jsonschema";
                                    schema_Data := foxgloveLogSchema |}) w in
  let w2 := advance (WriteSchema {| schema_ID := 2; schema_Name := "mahcanirobotics.metric";
                                    schema_Encoding := "jsonschema";
                                    schema_Data := shokkiMetricSchema |}) w1 in
  if outcome w then
    if outcome w1 then (Ok tt, (opened_writer path, w2))
    else (Err (EWriteSchema "mahcanirobotics.metric" EIo),
          (bind_schema "foxglove.Log" 1 (unified_literal path), w2))
  else (Err (EWriteSchema "foxglove.Log" EIo), (unified_literal path, w1)).
Proof.
  unfold registerBuiltInSchemas, register_each, bind.
  rewrite (RegisterSchema_fresh _ w "foxglove.Log" foxgloveLogSchema)
    by (reflexivity || apply Get_Log).
  cbv zeta. destruct (outcome w) eqn:Hw1; [|reflexivity].
  match goal with
  | |- context [RegisterSchema _ (?u1, ?w1)] =>
      rewrite (RegisterSchema_fresh u1 w1 "mahcanirobotics.metric" shokkiMetricSchema)
        by (reflexivity || apply Get_metric);
      cbv zeta; destruct (outcome w1) eqn:Hw2
  end.
  - simpl in Hw2. now rewrite Hw2.
  - simpl in Hw2. now rewrite Hw2.
Qed.

Lemma NewUnifiedMcapWriter_run serviceOpts foxgloveOpts w0 :
  McapPath foxgloveOpts <> "" ->
  NewUnifiedMcapWriter serviceOpts foxgloveOpts w0 =
  let path := McapPath foxgloveOpts in
  let w1 := advance (MkdirAll path) w0 in
  let w2 := advance (Create path) w1 in
  let w3 := advance NewWriter w2 in
  let w4 := advance (WriteHeader {| Profile := Name serviceOpts;
                                    Library := "github.com/machanirobotics/pulse/go/" |}) w3 in
  let w5 := advance (WriteSchema {| schema_ID := 1; schema_Name := "foxglove.Log";
                                    schema_Encoding := "jsonschema";
                                    schema_Data := foxgloveLogSchema |}) w4 in
  let w6 := advance (WriteSchema {| schema_ID := 2; schema_Name := "mahcanirobotics.metric";
                                    schema_Encoding := "jsonschema";
                                    schema_Data := shokkiMetricSchema |}) w5 in
  if negb (outcome w0) then (Err (ECreateDirectory EIo), w1)
  else if negb (outcome w1) then (Err (ECreateFile EIo), w2)
  else if negb (outcome w2) then (Err (ECreateWriter EIo), advance FileClose w3)
  else if negb (outcome w3) then (Err (EWriteHeader EIo), advance FileClose w4)
  else if negb (outcome w4) then (Err (EWriteSchema "foxglove.Log" EIo), advance FileClose w5)
  else if negb (outcome w5)
       then (Err (EWriteSchema "mahcanirobotics.metric" EIo), advance FileClose w6)
       else (Ok (opened_writer path), w6).
Proof.
  intros Hp. apply String.eqb_neq in Hp.
  unfold NewUnifiedMcapWriter, perform. rewrite Hp. cbv zeta.
  destruct (outcome w0); [|reflexivity]. cbn [negb snd].
  destruct (outcome (advance (MkdirAll _) w0)); [|reflexivity]. cbn [negb snd].
  destruct (outcome (advance (Create _) _)); [|reflexivity]. cbn [negb snd].
  destruct (outcome (advance NewWriter _)); [|reflexivity]. cbn [negb snd].
  rewrite registerBuiltInSchemas_run. cbv zeta.
  destruct (outcome (advance (WriteHeader _) _)); [|reflexivity]. cbn [negb snd].
  destruct (outcome (advance (WriteSchema _) _)); reflexivity.
Qed.

(** X4.  [NewUnifiedMcapWriter] leaves no open file behind.  Whatever
    fails, and wherever the world started, the calls it makes are added to
    the trace, and among them the file handle is closed exactly once when
    the file had been created and an error is returned, and not at all
    otherwise: not when it returns the writer (whose flag is then not
    closed), and not when the failure came before the file existed. *)
Theorem NewUnifiedMcapWriter_closes_what_it_created serviceOpts foxgloveOpts w0 :
  let res := NewUnifiedMcapWriter serviceOpts foxgloveOpts w0 in
  exists evs,
    trace (snd res) = trace w0 ++ evs
    /\ length (filter Mcap.is_file_close evs)
       = (if Opening.returned_error (fst res) && existsb Opening.is_created evs
          then 1%nat else 0%nat)
    /\ (Opening.returned_error (fst res) && existsb Opening.is_created evs = true ->
        exists ok, last evs = Some (FileClose, ok))
    /\ (forall u, fst res = Ok u -> closed u = false).
Proof.
  cbv zeta.
  destruct (String.eqb_spec (McapPath foxgloveOpts) "") as [Hp|Hp].
  { unfold NewUnifiedMcapWriter. rewrite Hp. exists []. simpl. rewrite app_nil_r.
    repeat split; discriminate. }
  rewrite (NewUnifiedMcapWriter_run _ _ _ Hp). cbv zeta.
  destruct (outcome w0) eqn:H0; cbn [negb];
    [destruct (outcome (advance (MkdirAll _) w0)) eqn:H1; cbn [negb];
     [destruct (outcome (advance (Create _) _)) eqn:H2; cbn [negb];
      [destruct (outcome (advance NewWriter _)) eqn:H3; cbn [negb];
       [destruct (outcome (advance (WriteHeader _) _)) eqn:H4; cbn [negb];
        [destruct (outcome (advance (WriteSchema _) _)) eqn:H5; cbn [negb]|]|]|]|]|];
    cbn [fst snd]; rewrite ?trace_advance, ?H0, ?H1, ?H2, ?H3, ?H4, ?H5, <- ?app_assoc;
    (eexists; split; [reflexivity|]);
    (split; [reflexivity|]);
    (split; [first [discriminate | intros _; eexists; reflexivity]|]);
    first [discriminate | intros ? [= <-]; reflexivity].
Qed.

(** ** The order of the records *)

Section Order_facts.

Variables ref def : IoCall * bool -> option Z.

Lemma preceded_nil : Order.preceded ref def [].
Proof. intros before e after k H. now destruct before. Qed.

Lemma preceded_snoc tr e :
  Order.preceded ref def tr ->
  (forall k, ref e = Some k -> exists e', e' ∈ tr /\ def e' = Some k) ->
  Order.preceded ref def (tr ++ [e]).
Proof.
  intros Htr He before x after k Heq Hx.
  destruct after as [|y after _] using rev_ind.
  - apply app_inj_tail in Heq as [-> ->]. now apply He.
  - rewrite app_comm_cons, app_assoc in Heq.
    apply app_inj_tail in Heq as [-> _].
    eapply Htr; [reflexivity | exact Hx].
Qed.

Lemma preceded_snoc_silent tr e :
  Order.preceded ref def tr -> ref e = None -> Order.preceded ref def (tr ++ [e]).
Proof.
  intros Htr He. apply preceded_snoc; [assumption|].
  intros k Hk. rewrite He in Hk. discriminate.
Qed.

End Order_facts.

Lemma schema_record_in_trace r w :
  r ∈ schemaRecords w -> (WriteSchema r, true) ∈ trace w.
Proof.
  unfold schemaRecords. rewrite list_elem_of_omap.
  intros ([c ok] & Hin & Hw). destruct c; try discriminate.
  destruct ok; [|discriminate]. simpl in Hw. now injection Hw as ->.
Qed.

Lemma channel_record_in_trace c w :
  c ∈ channelRecords w -> (WriteChannel c, true) ∈ trace w.
Proof.
  unfold channelRecords. rewrite list_elem_of_omap.
  intros ([c0 ok] & Hin & Hw). destruct c0; try discriminate.
  destruct ok; [|discriminate]. simpl in Hw. now injection Hw as ->.
Qed.

(** A bound name has its record, with its id, on the trace; so has a bound
    topic. *)
Lemma bound_schema_in_trace s n id :
  Consistent s -> schemaIDs (fst s) !! n = Some id ->
  exists e, e ∈ trace (snd s) /\ Order.schema_on_stream e = Some id.
Proof.
  intros HC Hb.
  destruct (bound_schema_written_once s n id HC Hb) as (r & Hr & _ & Hid).
  exists (WriteSchema r, true). split; [|simpl; now rewrite Hid].
  apply schema_record_in_trace.
  assert (Hin : r ∈ schemaRecordsNamed n (snd s)) by (rewrite Hr; apply list_elem_of_here).
  unfold schemaRecordsNamed in Hin. now apply list_elem_of_filter in Hin as [_ Hin].
Qed.

Lemma bound_channel_in_trace s t id :
  Consistent s -> channels (fst s) !! t = Some id ->
  exists e, e ∈ trace (snd s) /\ Order.channel_on_stream e = Some id.
Proof.
  intros HC Hb.
  destruct (bound_channel_written_once s t id HC Hb) as (c & Hc & _ & Hid).
  exists (WriteChannel c, true). split; [|simpl; now rewrite Hid].
  apply channel_record_in_trace.
  assert (Hin : c ∈ channelRecordsOn t (snd s)) by (rewrite Hc; apply list_elem_of_here).
  unfold channelRecordsOn in Hin. now apply list_elem_of_filter in Hin as [_ Hin].
Qed.

Lemma opening_calls_preceded ref def serviceOpts path :
  (forall e, e ∈ opening_calls serviceOpts path -> ref e = None) ->
  Order.preceded ref def (opening_calls serviceOpts path).
Proof.
  intros Hnone before e after k Heq Hk.
  rewrite Hnone in Hk; [discriminate|].
  rewrite Heq. apply elem_of_app. right. apply list_elem_of_here.
Qed.

(** X5.  A schema is on the stream before any channel that refers to it:
    on every writer that was opened and used in any way, under any pattern
    of I/O failures, each channel record handed to the codec carries a
    schema id for which a schema record was written, with success, earlier
    in the stream. *)
Theorem schema_written_before_channel s :
  Reachable s ->
  Order.preceded Order.channel_schema_ref Order.schema_on_stream (trace (snd s)).
Proof.
  revert s. apply Reachable_invariant.
  - intros so fo script u w HN.
    apply NewUnifiedMcapWriter_ok in HN as (_ & _ & Htr). simpl in *. rewrite Htr. simpl.
    apply opening_calls_preceded.
    intros e He. unfold opening_calls in He.
    repeat (apply elem_of_cons in He as [-> | He]; [reflexivity|]).
    now apply elem_of_nil in He.
  - intros c [u w] HR HP. pose proof (Reachable_Consistent _ HR) as HC. destruct c; simpl.
    + destruct (RegisterSchema_effect schemaName u w) as [E | [[r E] | [r [_ E]]]];
        cbv zeta in E; rewrite E; simpl; [assumption | |];
        now apply preceded_snoc_silent.
    + rewrite AddCustomSchema_eq.
      destruct (RegisterSchema_effect name
                  (with_registry (Register name schema (registry u)) u) w)
        as [E | [[r E] | [r [_ E]]]];
        cbv zeta in E; rewrite E; simpl; [assumption | |];
        now apply preceded_snoc_silent.
    + destruct (channels u !! topic) as [id|] eqn:Ht.
      { now rewrite (CreateChannel_bound u w topic schemaName metadata id Ht). }
      destruct (schemaIDs u !! schemaName) as [sid|] eqn:Hs.
      2:{ now rewrite (CreateChannel_unregistered u w topic schemaName metadata Ht Hs). }
      rewrite (CreateChannel_fresh u w topic schemaName metadata sid Ht Hs). cbv zeta.
      assert (Hsnoc : forall ok,
                 Order.preceded Order.channel_schema_ref Order.schema_on_stream
                   (trace w ++ [(WriteChannel
                                   {| channel_ID := nextChannel u; channel_SchemaID := sid;
                                      channel_Topic := topic; channel_MessageEncoding := "json";
                                      channel_Metadata := metadata |}, ok)])).
      { intros ok. apply preceded_snoc; [assumption|].
        intros k [= <-]. exact (bound_schema_in_trace (u, w) schemaName sid HC Hs). }
      destruct (outcome w) eqn:Hok; simpl; rewrite Hok; apply Hsnoc.
    + rewrite WriteMessage_eq. simpl. now apply preceded_snoc_silent.
    + destruct (closed u) eqn:Hc.
      * now rewrite Close_closed.
      * rewrite Close_open by assumption. cbv zeta.
        destruct (outcome w); [destruct (outcome (advance WriterClose w))|]; simpl;
          repeat apply preceded_snoc_silent; auto.
Qed.

Lemma schema_written_before_channel_witness :
  Reachable (snd (snd Scenario.with_metric))
  /\ exists before after,
      trace (snd (snd (snd Scenario.with_metric)))
      = before ++ (WriteChannel
                     {| channel_ID := 2; channel_SchemaID := 2;
                        channel_Topic := "/metrics/svc/cpu/load";
                        channel_MessageEncoding := "json";
                        channel_Metadata :=
                          <["metric_name" := "cpu.load"]>
                            (<["service_name" := "svc"]>
                               (<["version" := "1.0.0"]>
                                  (<["environment" := "development"]> ∅))) |}, true) :: after
      /\ exists e', e' ∈ before /\ Order.schema_on_stream e' = Some 2.
Proof.
  assert (HR : Reachable (snd (snd Scenario.with_metric))).
  { exists Scenario.svc, Scenario.fox, [], (fst Scenario.opened_sys), (snd Scenario.opened_sys),
      [CallCreateChannel "/logs/svc" "foxglove.Log"
         (<["service" := "svc"]> (<["version" := "1.0.0"]>
            (<["environment" := "development"]> (<["description" := "demo"]> ∅))));
       CallCreateChannel "/metrics/svc/cpu/load" "mahcanirobotics.metric"
         (<["metric_name" := "cpu.load"]> (<["service_name" := "svc"]>
            (<["version" := "1.0.0"]> (<["environment" := "development"]> ∅))))].
    split; vm_compute; reflexivity. }
  split; [exact HR|].
  pose proof (schema_written_before_channel _ HR) as Hord.
  eexists (removelast (trace (snd (snd (snd Scenario.with_metric))))), [].
  assert (Heq : trace (snd (snd (snd Scenario.with_metric)))
                = removelast (trace (snd (snd (snd Scenario.with_metric))))
                  ++ [(WriteChannel
                         {| channel_ID := 2; channel_SchemaID := 2;
                            channel_Topic := "/metrics/svc/cpu/load";
                            channel_MessageEncoding := "json";
                            channel_Metadata :=
                              <["metric_name" := "cpu.load"]>
                                (<["service_name" := "svc"]>
                                   (<["version" := "1.0.0"]>
                                      (<["environment" := "development"]> ∅))) |}, true)])
    by (vm_compute; reflexivity).
  split; [exact Heq|].
  exact (Hord _ _ _ 2 Heq eq_refl).
Defined.

(** ** The built-in schemas during the life of a writer *)

Section Builtin_facts.

Lemma Reachable_builtins_bound s :
  Reachable s ->
  schemaIDs (fst s) !! "foxglove.Log" = Some 1
  /\ schemaIDs (fst s) !! "mahcanirobotics.metric" = Some 2.
Proof.
  intros (so & fo & script & u & w & cs & HN & <-).
  apply NewUnifiedMcapWriter_ok in HN as (_ & -> & _).
  destruct (Kept_exec cs (opened_writer (McapPath fo), w)) as (Hk & _ & _).
  split; apply Hk; reflexivity.
Qed.

(** [CreateChannel] on a name that is bound: an id, or the codec's failure. *)
Lemma CreateChannel_on_bound_schema u w t n md sid :
  schemaIDs u !! n = Some sid ->
  (exists id, fst (CreateChannel t n md (u, w)) = Ok id
              /\ (outcome w = true \/ is_Some (channels u !! t)))
  \/ (fst (CreateChannel t n md (u, w)) = Err (ECreateChannel EIo)
      /\ outcome w = false /\ channels u !! t = None).
Proof.
  intros Hs. destruct (channels u !! t) as [id|] eqn:Ht.
  - left. exists id. rewrite (CreateChannel_bound u w t n md id Ht). eauto.
  - rewrite (CreateChannel_fresh u w t n md sid Ht Hs). cbv zeta.
    destruct (outcome w); [left | right]; eauto.
Qed.

Lemma registry_covers_RegisterSchema n u w :
  Lifetime.registry_covers u -> Lifetime.registry_covers (fst (snd (RegisterSchema n (u, w)))).
Proof.
  intros [Hc Hb].
  destruct (schemaIDs u !! n) as [id|] eqn:Hid.
  { rewrite (RegisterSchema_bound u w n id Hid). now split. }
  destruct (Get n (registry u)) as [d|] eqn:Hget.
  2:{ rewrite (RegisterSchema_unknown u w n Hid Hget). now split. }
  rewrite (RegisterSchema_fresh u w n d Hid Hget). cbv zeta.
  destruct (outcome w); simpl; [|now split].
  split; [|exact Hb]. intros m Hm. simpl in *.
  destruct (decide (n = m)) as [<-|Hne]; [rewrite Hget; eauto|].
  rewrite lookup_insert_ne in Hm by assumption. now apply Hc.
Qed.

Lemma Reachable_registry_covers s : Reachable s -> Lifetime.registry_covers (fst s).
Proof.
  revert s. apply Reachable_invariant.
  - intros so fo script u w HN.
    apply NewUnifiedMcapWriter_ok in HN as (_ & -> & _). simpl. split.
    + intros n [id Hid]. unfold opened_writer, bind_schema in Hid; simpl in Hid.
      destruct (decide (n = "mahcanirobotics.metric")) as [->|H1];
        [eexists; apply Get_metric|].
      destruct (decide (n = "foxglove.Log")) as [->|H2]; [eexists; apply Get_Log|].
      rewrite !lookup_insert_ne, lookup_empty in Hid by congruence. discriminate.
    + intros n Hn. unfold builtin_names in Hn.
      repeat (apply elem_of_cons in Hn as [-> | Hn];
              [simpl; eauto using Get_Log, Get_metric, Get_Plot|]).
      now apply elem_of_nil in Hn.
  - intros c [u w] _ HP. destruct c; simpl.
    + now apply registry_covers_RegisterSchema.
    + rewrite AddCustomSchema_eq. apply registry_covers_RegisterSchema.
      destruct HP as [Hc Hb]. split; simpl; intros n Hn; unfold Get, Register; simpl.
      * destruct (decide (name = n)) as [->|Hne]; [rewrite lookup_insert_eq; eauto|].
        rewrite lookup_insert_ne by assumption. now apply Hc.
      * destruct (decide (name = n)) as [->|Hne]; [rewrite lookup_insert_eq; eauto|].
        rewrite lookup_insert_ne by assumption. now apply Hb.
    + destruct (CreateChannel_effect topic schemaName metadata u w) as [E | [[r E] | [r [_ E]]]];
        cbv zeta in E.
      all: destruct (CreateChannel topic schemaName metadata (u, w)) as [[x|e] s'];
        simpl in *; subst s'; exact HP.
    + rewrite WriteMessage_eq. exact HP.
    + destruct (closed u) eqn:Hcl.
      * now rewrite Close_closed.
      * rewrite Close_open by assumption. cbv zeta.
        destruct (outcome w); [destruct (outcome (advance WriterClose w))|]; exact HP.
Qed.

End Builtin_facts.

(** X6.  The two schemas bound at open stay bound for the life of the
    writer, ["foxglove.Log"] to id 1 and ["mahcanirobotics.metric"] to id
    2, whatever calls are made.  So [CreateLogChannel] and
    [CreateMetricChannel] never fail with "schema not registered": each
    returns an id whenever the topic is bound already or the codec accepts
    the record, and otherwise fails with the codec's error, on an unbound
    topic. *)
Theorem builtin_channels_fail_only_in_the_codec s :
  Reachable s ->
  schemaIDs (fst s) !! "foxglove.Log" = Some 1
  /\ schemaIDs (fst s) !! "mahcanirobotics.metric" = Some 2
  /\ (forall t md,
        (exists id, fst (CreateLogChannel t md s) = Ok id
                    /\ (outcome (snd s) = true \/ is_Some (channels (fst s) !! t)))
        \/ (fst (CreateLogChannel t md s) = Err (ECreateChannel EIo)
            /\ outcome (snd s) = false /\ channels (fst s) !! t = None))
  /\ (forall t md,
        (exists id, fst (CreateMetricChannel t md s) = Ok id
                    /\ (outcome (snd s) = true \/ is_Some (channels (fst s) !! t)))
        \/ (fst (CreateMetricChannel t md s) = Err (ECreateChannel EIo)
            /\ outcome (snd s) = false /\ channels (fst s) !! t = None)).
Proof.
  intros HR. destruct (Reachable_builtins_bound s HR) as [HL HM].
  split; [exact HL|]. split; [exact HM|].
  destruct s as [u w]. split; intros t md.
  - exact (CreateChannel_on_bound_schema u w t "foxglove.Log" md 1 HL).
  - exact (CreateChannel_on_bound_schema u w t "mahcanirobotics.metric" md 2 HM).
Qed.

Lemma builtin_channels_fail_only_in_the_codec_witness :
  Reachable Scenario.opened_before_fault
  /\ fst (CreateLogChannel "/logs/svc" ∅ Scenario.opened_before_fault)
     = Err (ECreateChannel EIo).
Proof.
  assert (HR : Reachable Scenario.opened_before_fault).
  { exists Scenario.svc, Scenario.fox, [false; false; false; false; false; false; true],
      (fst Scenario.opened_before_fault), (snd Scenario.opened_before_fault), [].
    split; vm_compute; reflexivity. }
  split; [exact HR|].
  destruct (builtin_channels_fail_only_in_the_codec _ HR) as (_ & _ & HL & _).
  destruct (HL "/logs/svc" ∅) as [(id & E & [Hok | Hb]) | (E & _)].
  - vm_compute in Hok. discriminate.
  - vm_compute in Hb. destruct Hb as [x Hx]. discriminate.
  - exact E.
Defined.

(** X7.  On a writer that was opened and used in any way, the registry
    holds the three built-in names and every name that has a schema id.
    [RegisterSchema] fails in two ways only: with "schema not found",
    exactly when the name is not in the registry, and then nothing was
    written and the writer is unchanged; or with the codec's error on the
    schema record, and then the writer is unchanged too. *)
Theorem RegisterSchema_errors s name :
  Reachable s ->
  (forall n, is_Some (schemaIDs (fst s) !! n) -> is_Some (Get n (registry (fst s))))
  /\ (forall n, n ∈ builtin_names -> is_Some (Get n (registry (fst s))))
  /\ (Get name (registry (fst s)) = None ->
      RegisterSchema name s = (Err (ESchemaNotFound name), s))
  /\ (forall e s',
        RegisterSchema name s = (Err e, s') ->
        (e = ESchemaNotFound name /\ Get name (registry (fst s)) = None /\ s' = s)
        \/ (e = EWriteSchema name EIo /\ is_Some (Get name (registry (fst s)))
            /\ outcome (snd s) = false /\ fst s' = fst s
            /\ schemaRecords (snd s') = schemaRecords (snd s))).
Proof.
  intros HR. destruct (Reachable_registry_covers s HR) as [Hc Hb].
  split; [exact Hc|]. split; [exact Hb|].
  destruct s as [u w]; simpl in *.
  destruct (schemaIDs u !! name) as [id|] eqn:Hid.
  - split.
    + intros Hnone. destruct (Hc name) as [d Hd]; [eauto|]. congruence.
    + intros e s'. rewrite (RegisterSchema_bound u w name id Hid). discriminate.
  - split.
    + intros Hnone. now apply RegisterSchema_unknown.
    + intros e s'. destruct (Get name (registry u)) as [d|] eqn:Hget.
      * rewrite (RegisterSchema_fresh u w name d Hid Hget). cbv zeta.
        destruct (outcome w) eqn:Hok; [discriminate|].
        intros [= <- <-]. right. simpl.
        repeat split; eauto. now apply failed_schema_write.
      * rewrite (RegisterSchema_unknown u w name Hid Hget).
        intros [= <- <-]. left. repeat split.
Qed.

Lemma RegisterSchema_errors_witness :
  Reachable Scenario.opened_sys
  /\ Get "custom.Pose" (registry (fst Scenario.opened_sys)) = None
  /\ RegisterSchema "custom.Pose" Scenario.opened_sys
     = (Err (ESchemaNotFound "custom.Pose"), Scenario.opened_sys).
Proof.
  assert (HR : Reachable Scenario.opened_sys).
  { exists Scenario.svc, Scenario.fox, [], (fst Scenario.opened_sys), (snd Scenario.opened_sys), [].
    split; vm_compute; reflexivity. }
  assert (Hn : Get "custom.Pose" (registry (fst Scenario.opened_sys)) = None)
    by (vm_compute; reflexivity).
  split; [exact HR|]. split; [exact Hn|].
  destruct (RegisterSchema_errors _ "custom.Pose" HR) as (_ & _ & H & _).
  exact (H Hn).
Defined.

(** ** What is on the stream stays as it was written *)

Section Stream_facts.

Lemma unique_named_record n w r r0 :
  schemaRecordsNamed n w = [r] -> r0 ∈ schemaRecords w -> schema_Name r0 = n -> r0 = r.
Proof.
  intros Hone Hin Hname.
  assert (H : r0 ∈ schemaRecordsNamed n w).
  { unfold schemaRecordsNamed. apply list_elem_of_filter. now split. }
  rewrite Hone in H. now apply list_elem_of_singleton in H.
Qed.

Lemma unique_topic_record t w c c0 :
  channelRecordsOn t w = [c] -> c0 ∈ channelRecords w -> channel_Topic c0 = t -> c0 = c.
Proof.
  intros Hone Hin Htopic.
  assert (H : c0 ∈ channelRecordsOn t w).
  { unfold channelRecordsOn. apply list_elem_of_filter. now split. }
  rewrite Hone in H. now apply list_elem_of_singleton in H.
Qed.

Lemma Reachable_opening_records s :
  Reachable s ->
  {| schema_ID := 1; schema_Name := "foxglove.Log";
     schema_Encoding := "jsonschema"; schema_Data := foxgloveLogSchema |}
  ∈ schemaRecords (snd s)
  /\ {| schema_ID := 2; schema_Name := "mahcanirobotics.metric";
        schema_Encoding := "jsonschema"; schema_Data := shokkiMetricSchema |}
     ∈ schemaRecords (snd s).
Proof.
  intros (so & fo & script & u & w & cs & HN & <-).
  apply NewUnifiedMcapWriter_ok in HN as (_ & _ & Htr).
  assert (Hs : schemaRecords w
               = [ {| schema_ID := 1; schema_Name := "foxglove.Log";
                      schema_Encoding := "jsonschema"; schema_Data := foxgloveLogSchema |};
                   {| schema_ID := 2; schema_Name := "mahcanirobotics.metric";
                      schema_Encoding := "jsonschema"; schema_Data := shokkiMetricSchema |} ]).
  { now rewrite (schemaRecords_trace (fresh script) w _ Htr). }
  split; apply exec_schemaRecords_grow; simpl; rewrite Hs.
  - apply list_elem_of_here.
  - apply list_elem_of_further, list_elem_of_here.
Qed.

Lemma Reachable_encodings s :
  Reachable s ->
  Forall (fun r => schema_Encoding r = "jsonschema") (schemaRecords (snd s))
  /\ Forall (fun c => channel_MessageEncoding c = "json") (channelRecords (snd s)).
Proof.
  revert s. apply Reachable_invariant.
  - intros so fo script u w HN.
    apply NewUnifiedMcapWriter_ok in HN as (_ & _ & Htr). simpl.
    rewrite (schemaRecords_trace (fresh script) w _ Htr),
      (channelRecords_trace (fresh script) w _ Htr). simpl.
    split; repeat constructor.
  - intros c [u w] _ [HS HC]. destruct c; simpl.
    + destruct (schemaIDs u !! schemaName) as [id|] eqn:Hid.
      { now rewrite (RegisterSchema_bound u w schemaName id Hid). }
      destruct (Get schemaName (registry u)) as [d|] eqn:Hget.
      2:{ now rewrite (RegisterSchema_unknown u w schemaName Hid Hget). }
      rewrite (RegisterSchema_fresh u w schemaName d Hid Hget). cbv zeta.
      destruct (outcome w) eqn:Hok; simpl;
        rewrite schemaRecords_advance, Hok, channelRecords_advance_other by discriminate;
        simpl; rewrite ?app_nil_r; split; try assumption.
      apply Forall_app. split; [assumption | repeat constructor].
    + rewrite AddCustomSchema_eq.
      set (u1 := with_registry (Register name schema (registry u)) u).
      destruct (schemaIDs u1 !! name) as [id|] eqn:Hid.
      { now rewrite (RegisterSchema_bound u1 w name id Hid). }
      destruct (Get name (registry u1)) as [d|] eqn:Hget.
      2:{ now rewrite (RegisterSchema_unknown u1 w name Hid Hget). }
      rewrite (RegisterSchema_fresh u1 w name d Hid Hget). cbv zeta.
      destruct (outcome w) eqn:Hok; simpl;
        rewrite schemaRecords_advance, Hok, channelRecords_advance_other by discriminate;
        simpl; rewrite ?app_nil_r; split; try assumption.
      apply Forall_app. split; [assumption | repeat constructor].
    + destruct (channels u !! topic) as [id|] eqn:Ht.
      { now rewrite (CreateChannel_bound u w topic schemaName metadata id Ht). }
      destruct (schemaIDs u !! schemaName) as [sid|] eqn:Hs.
      2:{ now rewrite (CreateChannel_unregistered u w topic schemaName metadata Ht Hs). }
      rewrite (CreateChannel_fresh u w topic schemaName metadata sid Ht Hs). cbv zeta.
      destruct (outcome w) eqn:Hok; simpl;
        rewrite channelRecords_advance, Hok, schemaRecords_advance_other by discriminate;
        simpl; rewrite ?app_nil_r; split; try assumption.
      apply Forall_app. split; [assumption | repeat constructor].
    + rewrite WriteMessage_eq. simpl.
      now rewrite schemaRecords_advance_other, channelRecords_advance_other by discriminate.
    + destruct (closed u) eqn:Hcl.
      * now rewrite Close_closed.
      * rewrite Close_open by assumption. cbv zeta.
        destruct (outcome w); [destruct (outcome (advance WriterClose w))|]; simpl;
          now rewrite !schemaRecords_advance_other, !channelRecords_advance_other
            by discriminate.
Qed.

End Stream_facts.

(** X8.  The built-in log and metric schemas on the stream cannot be
    replaced.  On every writer that was opened and used in any way (and so
    also after [AddCustomSchema] has put other definitions under these
    names into the registry), the stream holds exactly one schema record
    named ["foxglove.Log"], with id 1 and the built-in definition, and
    exactly one named ["mahcanirobotics.metric"], with id 2 and the
    built-in definition.  Every schema record on the stream has the
    encoding ["jsonschema"], and every channel record the message encoding
    ["json"]. *)
Theorem builtin_schema_records_are_fixed s :
  Reachable s ->
  schemaRecordsNamed "foxglove.Log" (snd s)
  = [ {| schema_ID := 1; schema_Name := "foxglove.Log";
         schema_Encoding := "jsonschema"; schema_Data := foxgloveLogSchema |} ]
  /\ schemaRecordsNamed "mahcanirobotics.metric" (snd s)
     = [ {| schema_ID := 2; schema_Name := "mahcanirobotics.metric";
            schema_Encoding := "jsonschema"; schema_Data := shokkiMetricSchema |} ]
  /\ Forall (fun r => schema_Encoding r = "jsonschema") (schemaRecords (snd s))
  /\ Forall (fun c => channel_MessageEncoding c = "json") (channelRecords (snd s)).
Proof.
  intros HR. pose proof (Reachable_Consistent s HR) as HC.
  destruct (Reachable_builtins_bound s HR) as [HL HM].
  destruct (Reachable_opening_records s HR) as [RL RM].
  destruct (bound_schema_written_once s _ _ HC HL) as (r1 & E1 & _ & _).
  destruct (bound_schema_written_once s _ _ HC HM) as (r2 & E2 & _ & _).
  split; [|split; [|exact (Reachable_encodings s HR)]].
  - rewrite E1. f_equal. symmetry. eapply unique_named_record; [exact E1 | exact RL | reflexivity].
  - rewrite E2. f_equal. symmetry. eapply unique_named_record; [exact E2 | exact RM | reflexivity].
Qed.

Lemma builtin_schema_records_are_fixed_witness :
  Reachable (exec [CallAddCustomSchema "foxglove.Log" "{}"] Scenario.opened_sys)
  /\ Get "foxglove.Log" (registry (fst (exec [CallAddCustomSchema "foxglove.Log" "{}"]
                                          Scenario.opened_sys))) = Some "{}"
  /\ schema_Data <$> schemaRecordsNamed "foxglove.Log"
                       (snd (exec [CallAddCustomSchema "foxglove.Log" "{}"] Scenario.opened_sys))
     = [foxgloveLogSchema].
Proof.
  assert (HR : Reachable (exec [CallAddCustomSchema "foxglove.Log" "{}"] Scenario.opened_sys)).
  { exists Scenario.svc, Scenario.fox, [], (fst Scenario.opened_sys), (snd Scenario.opened_sys),
      [CallAddCustomSchema "foxglove.Log" "{}"].
    split; vm_compute; reflexivity. }
  split; [exact HR|]. split; [vm_compute; reflexivity|].
  destruct (builtin_schema_records_are_fixed _ HR) as (E & _).
  rewrite E. reflexivity.
Defined.

(** ** A custom schema under a name without id *)

(** X9.  [AddCustomSchema] with a name that has no schema id never fails
    with "schema not found", whatever the registry held.  When the codec
    accepts the record, the name is bound to the next schema id and the
    record written carries the definition given in the call, also when the
    registry held another definition under that name (as it does for the
    built-in ["foxglove.Plot"]).  When the codec fails, the error of the
    codec is returned, no id is bound and no id is used up, but the
    definition stays in the registry. *)
Theorem AddCustomSchema_on_unbound_name u w name definition :
  schemaIDs u !! name = None ->
  let r := {| schema_ID := nextSchemaID u; schema_Name := name;
              schema_Encoding := "jsonschema"; schema_Data := definition |} in
  let u1 := with_registry (Register name definition (registry u)) u in
  (outcome w = true ->
   AddCustomSchema name definition (u, w)
   = (Ok tt, (bind_schema name (nextSchemaID u) u1, advance (WriteSchema r) w))
   /\ schemaRecords (advance (WriteSchema r) w) = schemaRecords w ++ [r])
  /\ (outcome w = false ->
      AddCustomSchema name definition (u, w)
      = (Err (EWriteSchema name EIo), (u1, advance (WriteSchema r) w))
      /\ schemaRecords (advance (WriteSchema r) w) = schemaRecords w
      /\ schemaIDs u1 = schemaIDs u /\ nextSchemaID u1 = nextSchemaID u
      /\ Get name (registry u1) = Some definition).
Proof.
  intros Hn r u1.
  assert (Hget : Get name (registry u1) = Some definition) by apply lookup_insert_eq.
  rewrite AddCustomSchema_eq. fold u1.
  rewrite (RegisterSchema_fresh u1 w name definition Hn Hget). cbv zeta.
  split; intros Hok; rewrite Hok.
  - split; [reflexivity|]. now rewrite schemaRecords_advance, Hok.
  - split; [reflexivity|]. split; [now apply failed_schema_write|].
    repeat split. exact Hget.
Qed.

Lemma AddCustomSchema_on_unbound_name_witness :
  schemaIDs (fst Scenario.opened_sys) !! "foxglove.Plot" = None
  /\ outcome (snd Scenario.opened_sys) = true
  /\ schema_Data <$> schemaRecordsNamed "foxglove.Plot"
       (snd (snd (AddCustomSchema "foxglove.Plot" "{}"
                    (fst Scenario.opened_sys, snd Scenario.opened_sys))))
     = ["{}"].
Proof.
  assert (Hn : schemaIDs (fst Scenario.opened_sys) !! "foxglove.Plot" = None)
    by (vm_compute; reflexivity).
  assert (Hok : outcome (snd Scenario.opened_sys) = true) by (vm_compute; reflexivity).
  split; [exact Hn|]. split; [exact Hok|].
  destruct (AddCustomSchema_on_unbound_name _ (snd Scenario.opened_sys) _ "{}" Hn) as [H _].
  destruct (H Hok) as [E _]. rewrite E. vm_compute. reflexivity.
Defined.

(** ** The channel record of a topic *)

(** X10.  The channel record of a topic is the one written by the first
    successful [CreateChannel] for it.  On a writer that was opened and
    used in any way, when [CreateChannel] returns an id for a topic that
    was unbound, the record it wrote carries that id, the id bound to the
    schema name of the call, the topic, the message encoding ["json"] and
    the metadata of the call; and whatever calls follow, with whatever
    schema name and metadata, this stays the only channel record of the
    topic. *)
Theorem first_CreateChannel_fixes_the_record s t n md id s1 :
  Reachable s ->
  channels (fst s) !! t = None ->
  CreateChannel t n md s = (Ok id, s1) ->
  exists sid,
    schemaIDs (fst s) !! n = Some sid
    /\ id = nextChannel (fst s)
    /\ forall cs,
        channelRecordsOn t (snd (exec cs s1))
        = [ {| channel_ID := id; channel_SchemaID := sid; channel_Topic := t;
               channel_MessageEncoding := "json"; channel_Metadata := md |} ].
Proof.
  intros HR Ht H1. destruct s as [u w]; simpl in *.
  destruct (schemaIDs u !! n) as [sid|] eqn:Hs.
  2:{ rewrite (CreateChannel_unregistered u w t n md Ht Hs) in H1. discriminate. }
  exists sid. split; [reflexivity|].
  pose proof H1 as H1'.
  rewrite (CreateChannel_fresh u w t n md sid Ht Hs) in H1. cbv zeta in H1.
  destruct (outcome w) eqn:Hok; [|discriminate].
  injection H1 as <- <-. split; [reflexivity|]. intros cs.
  set (c := {| channel_ID := nextChannel u; channel_SchemaID := sid; channel_Topic := t;
               channel_MessageEncoding := "json"; channel_Metadata := md |}).
  set (s1 := (bind_channel t (nextChannel u) u, advance (WriteChannel c) w)) in *.
  assert (HR1 : Reachable s1) by (eapply Reachable_CreateChannel; eassumption).
  assert (HR2 : Reachable (exec cs s1)) by now apply Reachable_exec.
  assert (Hb : channels (fst (exec cs s1)) !! t = Some (nextChannel u)).
  { apply (Kept_exec cs s1). simpl. apply lookup_insert_eq. }
  destruct (bound_channel_written_once _ t _ (Reachable_Consistent _ HR2) Hb)
    as (c' & Hc' & _ & _).
  rewrite Hc'. f_equal. symmetry. eapply unique_topic_record; [exact Hc' | | reflexivity].
  apply exec_channelRecords_grow. simpl.
  rewrite channelRecords_advance, Hok. apply elem_of_app. right. apply list_elem_of_here.
Qed.

Lemma first_CreateChannel_fixes_the_record_witness :
  Reachable Scenario.opened_sys
  /\ channels (fst Scenario.opened_sys) !! "/t" = None
  /\ channel_Metadata <$>
       channelRecordsOn "/t"
         (snd (exec [CallCreateChannel "/t" "foxglove.Plot" ∅]
                 (snd (CreateChannel "/t" "foxglove.Log" {["k" := "v"]} Scenario.opened_sys))))
     = [ {["k" := "v"]} ].
Proof.
  assert (HR : Reachable Scenario.opened_sys).
  { exists Scenario.svc, Scenario.fox, [], (fst Scenario.opened_sys), (snd Scenario.opened_sys), [].
    split; vm_compute; reflexivity. }
  assert (Ht : channels (fst Scenario.opened_sys) !! "/t" = None) by (vm_compute; reflexivity).
  assert (H1 : CreateChannel "/t" "foxglove.Log" {["k" := "v"]} Scenario.opened_sys
               = (Ok 1, snd (CreateChannel "/t" "foxglove.Log" {["k" := "v"]}
                               Scenario.opened_sys)))
    by (vm_compute; reflexivity).
  split; [exact HR|]. split; [exact Ht|].
  destruct (first_CreateChannel_fixes_the_record _ _ _ _ _ _ HR Ht H1) as (sid & _ & _ & Hrec).
  rewrite (Hrec [CallCreateChannel "/t" "foxglove.Plot" ∅]). reflexivity.
Defined.

(** ** Ids identify *)

Section Id_facts.

Lemma ids_from_upper n : forall a x, x ∈ ids_from a n -> x < a + Z.of_nat n.
Proof.
  induction n as [|n IH]; intros a x Hx; simpl in Hx.
  - now apply elem_of_nil in Hx.
  - apply elem_of_cons in Hx as [-> | Hx]; [lia|]. apply IH in Hx. lia.
Qed.

(** With distinct keys of one kind, two entries with the same key are the
    same entry. *)
Lemma NoDup_fmap_same {A B} (f : A -> B) (l : list A) x y :
  NoDup (f <$> l) -> x ∈ l -> y ∈ l -> f x = f y -> x = y.
Proof.
  intros Hnd Hx Hy Hf.
  apply list_elem_of_lookup in Hx as [i Hi]. apply list_elem_of_lookup in Hy as [j Hj].
  assert (Hij : i = j).
  { eapply NoDup_lookup; [exact Hnd | |].
    - rewrite list_lookup_fmap, Hi. reflexivity.
    - rewrite list_lookup_fmap, Hj. simpl. now rewrite Hf. }
  subst j. congruence.
Qed.

Lemma bound_channel_is_record s t id :
  Consistent s -> channels (fst s) !! t = Some id ->
  exists c, c ∈ channelRecords (snd s) /\ channel_Topic c = t /\ channel_ID c = id.
Proof.
  intros HC Hb. rewrite (channel_bindings _ HC) in Hb.
  apply elem_of_list_to_map in Hb; [|rewrite fst_binding_channel; apply HC].
  apply list_elem_of_fmap in Hb as (c & [= -> ->] & Hin). eauto.
Qed.

Lemma bound_schema_is_record s n id :
  Consistent s -> schemaIDs (fst s) !! n = Some id ->
  exists r, r ∈ schemaRecords (snd s) /\ schema_Name r = n /\ schema_ID r = id.
Proof.
  intros HC Hb. rewrite (schema_bindings _ HC) in Hb.
  apply elem_of_list_to_map in Hb; [|rewrite fst_binding_schema; apply HC].
  apply list_elem_of_fmap in Hb as (r & [= -> ->] & Hin). eauto.
Qed.

End Id_facts.

(** X11.  Ids identify.  On a writer that was opened and used in any way,
    as long as fewer than 65535 channel records were written, two topics
    bound to the same channel id are the same topic, and every bound
    channel id lies between 1 and the number of channel records written
    (so 0 is never the id of a channel); likewise for schema names and
    schema ids. *)
Theorem ids_identify s :
  Reachable s ->
  (Z.of_nat (length (channelRecords (snd s))) < 65535 ->
   (forall t1 t2 id,
       channels (fst s) !! t1 = Some id -> channels (fst s) !! t2 = Some id -> t1 = t2)
   /\ (forall t id,
         channels (fst s) !! t = Some id ->
         1 <= id <= Z.of_nat (length (channelRecords (snd s)))))
  /\ (Z.of_nat (length (schemaRecords (snd s))) < 65535 ->
      (forall n1 n2 id,
          schemaIDs (fst s) !! n1 = Some id -> schemaIDs (fst s) !! n2 = Some id -> n1 = n2)
      /\ (forall n id,
            schemaIDs (fst s) !! n = Some id ->
            1 <= id <= Z.of_nat (length (schemaRecords (snd s))))).
Proof.
  intros HR. pose proof (Reachable_Consistent s HR) as HC. split; intros Hlen.
  - assert (Hids : channel_ID <$> channelRecords (snd s)
                   = ids_from 1 (length (channelRecords (snd s)))).
    { rewrite (channel_ids _ HC). apply counter_ids_small. lia. }
    split.
    + intros t1 t2 id H1 H2.
      destruct (bound_channel_is_record s t1 id HC H1) as (c1 & I1 & <- & E1).
      destruct (bound_channel_is_record s t2 id HC H2) as (c2 & I2 & <- & E2).
      f_equal. eapply (NoDup_fmap_same channel_ID); [|exact I1 | exact I2 | congruence].
      rewrite Hids. apply NoDup_ids_from.
    + intros t id H1.
      destruct (bound_channel_is_record s t id HC H1) as (c & I & _ & <-).
      assert (Hin : channel_ID c ∈ ids_from 1 (length (channelRecords (snd s)))).
      { rewrite <- Hids. apply list_elem_of_fmap. eauto. }
      pose proof (ids_from_lower _ _ _ Hin). pose proof (ids_from_upper _ _ _ Hin). lia.
  - assert (Hids : schema_ID <$> schemaRecords (snd s)
                   = ids_from 1 (length (schemaRecords (snd s)))).
    { rewrite (schema_ids _ HC). apply counter_ids_small. lia. }
    split.
    + intros n1 n2 id H1 H2.
      destruct (bound_schema_is_record s n1 id HC H1) as (r1 & I1 & <- & E1).
      destruct (bound_schema_is_record s n2 id HC H2) as (r2 & I2 & <- & E2).
      f_equal. eapply (NoDup_fmap_same schema_ID); [|exact I1 | exact I2 | congruence].
      rewrite Hids. apply NoDup_ids_from.
    + intros n id H1.
      destruct (bound_schema_is_record s n id HC H1) as (r & I & _ & <-).
      assert (Hin : schema_ID r ∈ ids_from 1 (length (schemaRecords (snd s)))).
      { rewrite <- Hids. apply list_elem_of_fmap. eauto. }
      pose proof (ids_from_lower _ _ _ Hin). pose proof (ids_from_upper _ _ _ Hin). lia.
Qed.

Lemma ids_identify_witness :
  Reachable (snd (snd Scenario.with_metric))
  /\ Z.of_nat (length (channelRecords (snd (snd (snd Scenario.with_metric))))) < 65535
  /\ channels (fst (snd (snd Scenario.with_metric))) !! "/logs/svc" = Some 1
  /\ 1 <= 1 <= Z.of_nat (length (channelRecords (snd (snd (snd Scenario.with_metric))))).
Proof.
  assert (HR : Reachable (snd (snd Scenario.with_metric))).
  { exists Scenario.svc, Scenario.fox, [], (fst Scenario.opened_sys), (snd Scenario.opened_sys),
      [CallCreateChannel "/logs/svc" "foxglove.Log"
         (<["service" := "svc"]> (<["version" := "1.0.0"]>
            (<["environment" := "development"]> (<["description" := "demo"]> ∅))));
       CallCreateChannel "/metrics/svc/cpu/load" "mahcanirobotics.metric"
         (<["metric_name" := "cpu.load"]> (<["service_name" := "svc"]>
            (<["version" := "1.0.0"]> (<["environment" := "development"]> ∅))))].
    split; vm_compute; reflexivity. }
  assert (Hlen : Z.of_nat (length (channelRecords (snd (snd (snd Scenario.with_metric))))) < 65535)
    by (vm_compute; reflexivity).
  assert (Hb : channels (fst (snd (snd Scenario.with_metric))) !! "/logs/svc" = Some 1)
    by (vm_compute; reflexivity).
  split; [exact HR|]. split; [exact Hlen|]. split; [exact Hb|].
  destruct (ids_identify _ HR) as [Hch _].
  destruct (Hch Hlen) as [_ Hrange]. exact (Hrange _ _ Hb).
Defined.

(** ** The path and the closed flag *)

Section Lifetime_facts.

Lemma Reachable_closed_truthful s : Reachable s -> Lifetime.closed_truthful s.
Proof.
  revert s. apply Reachable_invariant.
  - intros so fo script u w HN.
    apply NewUnifiedMcapWriter_ok in HN as (_ & -> & _). intros Hc. discriminate.
  - intros c [u w] _ HP. unfold Lifetime.closed_truthful in *. simpl in HP.
    assert (Hgrow : forall evs,
               closed u = true ->
               (WriterClose, true) ∈ trace w ++ evs /\ (FileClose, true) ∈ trace w ++ evs).
    { intros evs Hc. destruct (HP Hc) as [A B]. split; apply elem_of_app; now left. }
    destruct c; simpl.
    + destruct (RegisterSchema_effect schemaName u w) as [E | [[r E] | [r [_ E]]]];
        cbv zeta in E; rewrite E; simpl; [exact HP| |]; apply Hgrow.
    + rewrite AddCustomSchema_eq.
      destruct (RegisterSchema_effect name
                  (with_registry (Register name schema (registry u)) u) w)
        as [E | [[r E] | [r [_ E]]]];
        cbv zeta in E; rewrite E; simpl; [exact HP| |]; apply Hgrow.
    + pose proof (CreateChannel_effect topic schemaName metadata u w) as H. cbv zeta in H.
      destruct (CreateChannel topic schemaName metadata (u, w)) as [[x|e] s']; simpl in *;
        destruct H as [E | [[r E] | [r [_ E]]]]; rewrite E; simpl;
        first [exact HP | apply Hgrow].
    + rewrite WriteMessage_eq. simpl. apply Hgrow.
    + destruct (closed u) eqn:Hcl.
      * rewrite Close_closed by assumption. simpl. now rewrite Hcl.
      * rewrite Close_open by assumption. cbv zeta.
        destruct (outcome w) eqn:H1;
          [destruct (outcome (advance WriterClose w)) eqn:H2|]; simpl;
          try (intros Hc; congruence).
        intros _. simpl in H2. rewrite ?H1, ?H2. split.
        -- apply elem_of_app. left. apply elem_of_app. right. apply list_elem_of_here.
        -- apply elem_of_app. right. apply list_elem_of_here.
Qed.

Lemma filePath_step c s : filePath (fst (snd (step c s))) = filePath (fst s).
Proof.
  destruct s as [u w]. destruct c; simpl.
  - destruct (RegisterSchema_effect schemaName u w) as [E | [[r E] | [r [_ E]]]];
      cbv zeta in E; now rewrite E.
  - rewrite AddCustomSchema_eq.
    destruct (RegisterSchema_effect name
                (with_registry (Register name schema (registry u)) u) w)
      as [E | [[r E] | [r [_ E]]]];
      cbv zeta in E; now rewrite E.
  - pose proof (CreateChannel_effect topic schemaName metadata u w) as H. cbv zeta in H.
    destruct (CreateChannel topic schemaName metadata (u, w)) as [[x|e] s']; simpl in *;
      destruct H as [E | [[r E] | [r [_ E]]]]; now rewrite E.
  - now rewrite WriteMessage_eq.
  - destruct (closed u) eqn:Hcl.
    + now rewrite Close_closed.
    + rewrite Close_open by assumption. cbv zeta.
      destruct (outcome w); [destruct (outcome (advance WriterClose w))|]; reflexivity.
Qed.

End Lifetime_facts.

(** X12.  For the life of a writer, [GetFilePath] returns the path it was
    opened with, and [IsClosed] tells the truth about the file: the writer
    is open after [NewUnifiedMcapWriter], and whenever [IsClosed] reports
    true, the codec has finalized the stream and the file handle was
    closed, both with success. *)
Theorem path_and_closed_flag serviceOpts foxgloveOpts script u w :
  NewUnifiedMcapWriter serviceOpts foxgloveOpts (fresh script) = (Ok u, w) ->
  fst (IsClosed (u, w)) = Ok false
  /\ forall cs,
      let s := exec cs (u, w) in
      GetFilePath (fst s) = McapPath foxgloveOpts
      /\ (fst (IsClosed s) = Ok true ->
          (WriterClose, true) ∈ trace (snd s) /\ (FileClose, true) ∈ trace (snd s)).
Proof.
  intros HN. pose proof HN as HN'.
  apply NewUnifiedMcapWriter_ok in HN' as (_ & -> & _).
  split; [reflexivity|]. intros cs s. split.
  - subst s. unfold GetFilePath.
    induction cs as [|c cs IH] using rev_ind; [reflexivity|].
    now rewrite exec_snoc, filePath_step.
  - assert (HR : Reachable s).
    { exists serviceOpts, foxgloveOpts, script, (opened_writer (McapPath foxgloveOpts)), w, cs.
      split; [assumption | reflexivity]. }
    intros Hc. apply (Reachable_closed_truthful s HR).
    destruct s as [u2 w2]. unfold IsClosed, bind, get_writer, ret in Hc. simpl in *.
    congruence.
Qed.

Lemma path_and_closed_flag_witness :
  NewUnifiedMcapWriter Scenario.svc Scenario.fox (fresh [])
  = (Ok (fst Scenario.opened_sys), snd Scenario.opened_sys)
  /\ GetFilePath (fst (exec [CallClose] (fst Scenario.opened_sys, snd Scenario.opened_sys)))
     = "/tmp/svc.mcap"
  /\ fst (IsClosed (exec [CallClose] (fst Scenario.opened_sys, snd Scenario.opened_sys)))
     = Ok true.
Proof.
  assert (H : NewUnifiedMcapWriter Scenario.svc Scenario.fox (fresh [])
              = (Ok (fst Scenario.opened_sys), snd Scenario.opened_sys))
    by (vm_compute; reflexivity).
  split; [exact H|].
  destruct (path_and_closed_flag _ _ _ _ _ H) as [_ Hlife].
  destruct (Hlife [CallClose]) as [Hp _].
  split; [exact Hp | vm_compute; reflexivity].
Defined.

(** ** The metric adapter *)

Section Metric_adapter_facts.

Lemma getOrCreateChannel_hit name m s id :
  metric_channels m !! name = Some id -> getOrCreateChannel name (m, s) = (Ok id, (m, s)).
Proof. intros H. unfold getOrCreateChannel. now rewrite H. Qed.

Lemma getOrCreateChannel_miss name m s :
  metric_channels m !! name = None ->
  getOrCreateChannel name (m, s) =
  match CreateChannel (metric_topic (metric_serviceName m) name) "mahcanirobotics.metric"
          (<["metric_name" := name]> (metric_metadata m)) s with
  | (Err e, s') => (Err (EMetricChannel name e), (m, s'))
  | (Ok channelID, s') =>
      (Ok channelID,
       ({| metric_channels := <[name := channelID]> (metric_channels m);
           metric_serviceName := metric_serviceName m;
           metric_metadata := metric_metadata m |}, s'))
  end.
Proof. intros H. unfold getOrCreateChannel. now rewrite H. Qed.

Lemma append_inj_r (p a b : string) : (p ++ a = p ++ b)%string -> a = b.
Proof. induction p as [|c p IH]; simpl; [trivial|]. intros [= H]. now apply IH. Qed.

Lemma metric_topic_eq serviceName n1 n2 :
  metric_topic serviceName n1 = metric_topic serviceName n2 <-> slashify n1 = slashify n2.
Proof.
  unfold metric_topic. rewrite !ReplaceAll_dot_slash. split.
  - intros H. now do 3 apply append_inj_r in H.
  - now intros ->.
Qed.

Lemma Consistent_channels_injective s t1 t2 id :
  Consistent s ->
  Z.of_nat (length (channelRecords (snd s))) < 65535 ->
  channels (fst s) !! t1 = Some id -> channels (fst s) !! t2 = Some id -> t1 = t2.
Proof.
  intros HC Hlen H1 H2.
  destruct (bound_channel_is_record s t1 id HC H1) as (c1 & I1 & <- & E1).
  destruct (bound_channel_is_record s t2 id HC H2) as (c2 & I2 & <- & E2).
  f_equal. eapply (NoDup_fmap_same channel_ID); [|exact I1 | exact I2 | congruence].
  rewrite (channel_ids _ HC), counter_ids_small by lia. apply NoDup_ids_from.
Qed.

End Metric_adapter_facts.

(** X13.  The metric adapter resolves a metric name once.  When
    [getOrCreateChannel] returns an id for a name, it has cached the id
    under the name and kept what it had cached for other names; from then
    on it returns that id for the name without calling the unified writer,
    in whatever state that writer is.  When it returns an error, the error
    is the one of [CreateMetricChannel], wrapped with the metric name, and
    nothing was cached, so that the next call for the name asks the
    unified writer again. *)
Theorem getOrCreateChannel_caches name m s :
  (forall id m1 s1,
      getOrCreateChannel name (m, s) = (Ok id, (m1, s1)) ->
      metric_channels m1 !! name = Some id
      /\ (forall other id', metric_channels m !! other = Some id' ->
                            other <> name -> metric_channels m1 !! other = Some id')
      /\ (forall s2, getOrCreateChannel name (m1, s2) = (Ok id, (m1, s2))))
  /\ (forall e m1 s1,
        getOrCreateChannel name (m, s) = (Err e, (m1, s1)) ->
        m1 = m /\ metric_channels m !! name = None
        /\ exists cause,
            e = EMetricChannel name cause
            /\ CreateMetricChannel (metric_topic (metric_serviceName m) name)
                 (<["metric_name" := name]> (metric_metadata m)) s = (Err cause, s1)).
Proof.
  destruct (metric_channels m !! name) as [id0|] eqn:Hc.
  - rewrite (getOrCreateChannel_hit name m s id0 Hc). split.
    + intros id m1 s1 [= <- <- <-]. split; [exact Hc|]. split; [auto|].
      intros s2. now apply getOrCreateChannel_hit.
    + intros e m1 s1 H. discriminate.
  - rewrite (getOrCreateChannel_miss name m s Hc). unfold CreateMetricChannel.
    destruct (CreateChannel _ _ _ s) as [[id0|e0] s0]; split.
    + intros id m1 s1 [= <- <- <-]. cbn [metric_channels].
      split; [apply lookup_insert_eq|]. split.
      * intros other id' Ho Hne. now rewrite lookup_insert_ne by congruence.
      * intros s2. apply getOrCreateChannel_hit. cbn [metric_channels].
        apply lookup_insert_eq.
    + intros e m1 s1 H. discriminate.
    + intros id m1 s1 H. discriminate.
    + intros e m1 s1 [= <- <- <-]. split; [reflexivity|]. split; [reflexivity|]. eauto.
Qed.

Lemma getOrCreateChannel_caches_witness :
  fst (getOrCreateChannel "cpu.load" (NewMetricMcapWriter Scenario.svc, Scenario.opened_sys))
  = Ok 1
  /\ forall s2,
      getOrCreateChannel "cpu.load"
        (fst (snd (getOrCreateChannel "cpu.load"
                     (NewMetricMcapWriter Scenario.svc, Scenario.opened_sys))), s2)
      = (Ok 1,
         (fst (snd (getOrCreateChannel "cpu.load"
                      (NewMetricMcapWriter Scenario.svc, Scenario.opened_sys))), s2)).
Proof.
  set (st := snd (getOrCreateChannel "cpu.load"
                    (NewMetricMcapWriter Scenario.svc, Scenario.opened_sys))).
  assert (G : getOrCreateChannel "cpu.load" (NewMetricMcapWriter Scenario.svc, Scenario.opened_sys)
              = (Ok 1, (fst st, snd st))) by (vm_compute; reflexivity).
  split; [now rewrite G|].
  destruct (getOrCreateChannel_caches "cpu.load" (NewMetricMcapWriter Scenario.svc)
              Scenario.opened_sys) as [H _].
  destruct (H _ _ _ G) as (_ & _ & Hs). exact Hs.
Defined.

(** X14.  Two metric names share a channel exactly when they agree after
    every ['.'] is replaced by ['/'] (as ["a.b"] and ["a/b"] do).  On a
    writer that was opened and used in any way, let the adapter resolve,
    one after the other, two different names it had not cached.  If the
    names agree after the replacement, the second call returns the id of
    the first and leaves the unified writer and the stream unchanged, so
    that the channel record keeps the metadata (the metric name) of the
    first.  If they do not agree, the two ids differ, as long as fewer than
    65535 channel records were written. *)
Theorem metric_names_share_a_channel m s n1 n2 id1 m1 s1 id2 m2 s2 :
  Reachable s ->
  metric_channels m !! n1 = None -> metric_channels m !! n2 = None -> n1 <> n2 ->
  getOrCreateChannel n1 (m, s) = (Ok id1, (m1, s1)) ->
  getOrCreateChannel n2 (m1, s1) = (Ok id2, (m2, s2)) ->
  (slashify n1 = slashify n2 -> id2 = id1 /\ s2 = s1)
  /\ (slashify n1 <> slashify n2 ->
      Z.of_nat (length (channelRecords (snd s2))) < 65535 -> id2 <> id1).
Proof.
  intros HR H1 H2 Hne G1 G2.
  rewrite (getOrCreateChannel_miss n1 m s H1) in G1.
  destruct (CreateChannel _ _ _ s) as [[i1|e1] s1'] eqn:C1; [|discriminate].
  injection G1 as <- <- <-.
  assert (Hm1 : metric_channels
                  {| metric_channels := <[n1 := i1]> (metric_channels m);
                     metric_serviceName := metric_serviceName m;
                     metric_metadata := metric_metadata m |} !! n2 = None).
  { simpl. now rewrite lookup_insert_ne by congruence. }
  rewrite (getOrCreateChannel_miss n2 _ s1' Hm1) in G2. simpl in G2.
  destruct (CreateChannel _ _ _ s1') as [[i2|e2] s2'] eqn:C2; [|discriminate].
  injection G2 as <- _ <-.
  pose proof (CreateChannel_Ok_bound _ _ _ _ _ _ C1) as B1.
  pose proof (CreateChannel_Ok_bound _ _ _ _ _ _ C2) as B2.
  split.
  - intros Hs. apply (metric_topic_eq (metric_serviceName m)) in Hs. rewrite <- Hs in C2.
    destruct s1' as [u1 w1]. rewrite (CreateChannel_bound u1 w1 _ _ _ i1 B1) in C2.
    injection C2 as <- <-. split; reflexivity.
  - intros Hs Hlen Heq. subst i2. apply Hs.
    apply (metric_topic_eq (metric_serviceName m)).
    assert (HR1 : Reachable s1') by (eapply Reachable_CreateChannel; eassumption).
    assert (HR2 : Reachable s2') by (eapply Reachable_CreateChannel; eassumption).
    eapply (Consistent_channels_injective s2'); [now apply Reachable_Consistent | exact Hlen | | exact B2].
    destruct (Kept_CreateChannel
                (metric_topic (metric_serviceName m) n2) "mahcanirobotics.metric"
                (<["metric_name" := n2]> (metric_metadata m)) s1') as (_ & Hk & _).
    rewrite C2 in Hk. simpl in Hk. now apply Hk.
Qed.

Lemma metric_names_share_a_channel_witness :
  Reachable Scenario.opened_sys
  /\ slashify "a.b" = slashify "a/b"
  /\ fst (getOrCreateChannel "a.b" (NewMetricMcapWriter Scenario.svc, Scenario.opened_sys)) = Ok 1
  /\ fst (getOrCreateChannel "a/b"
            (snd (getOrCreateChannel "a.b" (NewMetricMcapWriter Scenario.svc, Scenario.opened_sys))))
     = Ok 1.
Proof.
  assert (HR : Reachable Scenario.opened_sys).
  { exists Scenario.svc, Scenario.fox, [], (fst Scenario.opened_sys), (snd Scenario.opened_sys), [].
    split; vm_compute; reflexivity. }
  set (st1 := snd (getOrCreateChannel "a.b" (NewMetricMcapWriter Scenario.svc, Scenario.opened_sys))).
  set (st2 := snd (getOrCreateChannel "a/b" st1)).
  assert (G1 : getOrCreateChannel "a.b" (NewMetricMcapWriter Scenario.svc, Scenario.opened_sys)
               = (Ok 1, (fst st1, snd st1))) by (vm_compute; reflexivity).
  assert (G2 : getOrCreateChannel "a/b" (fst st1, snd st1) = (Ok 1, (fst st2, snd st2)))
    by (vm_compute; reflexivity).
  split; [exact HR|]. split; [reflexivity|]. split; [now rewrite G1|].
  assert (H1 : metric_channels (NewMetricMcapWriter Scenario.svc) !! "a.b" = None)
    by (vm_compute; reflexivity).
  assert (H2 : metric_channels (NewMetricMcapWriter Scenario.svc) !! "a/b" = None)
    by (vm_compute; reflexivity).
  assert (Hne : "a.b" <> "a/b") by discriminate.
  destruct (metric_names_share_a_channel _ _ "a.b" "a/b" _ _ _ _ _ _ HR H1 H2 Hne G1 G2)
    as [Hsame _].
  destruct (Hsame eq_refl) as [E _].
  replace st1 with (fst st1, snd st1) by now destruct st1.
  rewrite G2. reflexivity.
Defined.

(** ** Writing a metric and writing a log record *)

Section Time_facts.

Import Clock.

Lemma stamp_in_range now :
  valid now -> 0 <= Unix now < 4294967296 ->
  Sec (stamp now) = Unix now /\ Nsec (stamp now) = Nanosecond now
  /\ to_uint64 (UnixNano now) = Unix now * 1000000000 + Nanosecond now.
Proof.
  unfold valid, stamp, to_uint32, to_uint64, UnixNano, to_int64; simpl. intros Hn Hu.
  rewrite (Z.mod_small (Unix now)) by lia.
  rewrite (Z.mod_small (Nanosecond now)) by lia.
  split; [reflexivity|]. split; [reflexivity|].
  rewrite (Z.mod_small (_ + 9223372036854775808)) by lia.
  rewrite Z.mod_small by lia. lia.
Qed.

End Time_facts.

(** X15.  The time stamps computed by the adapters.  [writeMetric] and
    [WriteLog] turn the time read from the clock into the time in
    nanoseconds as a [uint64] (the log time and the publish time of the
    message) and into the seconds and the nanoseconds as [uint32] (the
    time stamp of the record inside).  For a time from 1970 to the year
    2106 (seconds below 2^32) the two agree: the time in nanoseconds is
    the seconds times 10^9 plus the nanoseconds of the record, and the
    nanoseconds are below 10^9.  From 2^32 seconds on the seconds of the
    record have wrapped around, and the record no longer gives the time of
    the message. *)
Theorem adapter_time_stamps now :
  Clock.valid now ->
  (0 <= Clock.Unix now < 4294967296 ->
   Clock.to_uint64 (Clock.UnixNano now)
   = Clock.Sec (Clock.stamp now) * 1000000000 + Clock.Nsec (Clock.stamp now)
   /\ 0 <= Clock.Nsec (Clock.stamp now) < 1000000000
   /\ 0 <= Clock.to_uint64 (Clock.UnixNano now) < 4294967296 * 1000000000)
  /\ (4294967296 <= Clock.Unix now < 9223372036 ->
      Clock.to_uint64 (Clock.UnixNano now)
      = Clock.Unix now * 1000000000 + Clock.Nanosecond now
      /\ Clock.Sec (Clock.stamp now) = Clock.Unix now mod 4294967296
      /\ Clock.to_uint64 (Clock.UnixNano now)
         <> Clock.Sec (Clock.stamp now) * 1000000000 + Clock.Nsec (Clock.stamp now)).
Proof.
  intros Hv. split.
  - intros Hu. destruct (stamp_in_range now Hv Hu) as (-> & -> & ->).
    unfold Clock.valid in Hv. lia.
  - intros Hu. unfold Clock.valid in Hv.
    assert (E : Clock.to_uint64 (Clock.UnixNano now)
                = Clock.Unix now * 1000000000 + Clock.Nanosecond now).
    { unfold Clock.to_uint64, Clock.UnixNano, Clock.to_int64.
      rewrite (Z.mod_small (_ + 9223372036854775808)) by lia.
      rewrite Z.mod_small by lia. lia. }
    split; [exact E|]. split; [reflexivity|].
    rewrite E. unfold Clock.stamp, Clock.to_uint32; simpl.
    rewrite (Z.mod_small (Clock.Nanosecond now)) by lia.
    pose proof (Z.mod_pos_bound (Clock.Unix now) 4294967296 ltac:(lia)). lia.
Qed.

Lemma adapter_time_stamps_witness :
  Clock.valid {| Clock.Unix := 1700000000; Clock.Nanosecond := 5 |}
  /\ Clock.to_uint64 (Clock.UnixNano {| Clock.Unix := 1700000000; Clock.Nanosecond := 5 |})
     = 1700000000000000005.
Proof.
  assert (Hv : Clock.valid {| Clock.Unix := 1700000000; Clock.Nanosecond := 5 |})
    by (unfold Clock.valid; simpl; lia).
  split; [exact Hv|].
  destruct (adapter_time_stamps _ Hv) as [H _].
  destruct H as (E & _); [simpl; lia|].
  rewrite E. reflexivity.
Defined.

(** ** The level of a log record *)

Section Level_facts.

Lemma is_one_of_spec s cases : LogWriter.is_one_of s cases = true <-> s ∈ cases.
Proof.
  unfold LogWriter.is_one_of. rewrite existsb_exists. split.
  - intros (x & Hin & Heq). apply String.eqb_eq in Heq. subst x. now apply list_elem_of_In.
  - intros Hin. exists s. split; [now apply list_elem_of_In | apply String.eqb_refl].
Qed.

End Level_facts.

(** X16.  [stringToFoxgloveLevel] returns a level between 0 (unknown) and
    5 (fatal).  It is 0 exactly for the strings outside its eighteen
    spellings, which are matched as they are written: the upper-case, the
    lower-case and the capitalised spelling of a level give the level, and
    any other mix of cases, and any surrounding blank, gives unknown.
    ["WARN"] and ["WARNING"] give the same level. *)
Theorem stringToFoxgloveLevel_range level :
  0 <= LogWriter.stringToFoxgloveLevel level <= 5
  /\ (LogWriter.stringToFoxgloveLevel level = LogWriter.LogLevelUnknown
      <-> level ∉ LogWriter.known_levels)
  /\ (level ∈ ["DEBUG"; "debug"; "Debug"]
      <-> LogWriter.stringToFoxgloveLevel level = LogWriter.LogLevelDebug)
  /\ (level ∈ ["INFO"; "info"; "Info"]
      <-> LogWriter.stringToFoxgloveLevel level = LogWriter.LogLevelInfo)
  /\ (level ∈ ["WARN"; "warn"; "Warn"; "WARNING"; "warning"; "Warning"]
      <-> LogWriter.stringToFoxgloveLevel level = LogWriter.LogLevelWarning)
  /\ (level ∈ ["ERROR"; "error"; "Error"]
      <-> LogWriter.stringToFoxgloveLevel level = LogWriter.LogLevelError)
  /\ (level ∈ ["FATAL"; "fatal"; "Fatal"]
      <-> LogWriter.stringToFoxgloveLevel level = LogWriter.LogLevelFatal)
  /\ LogWriter.stringToFoxgloveLevel "dEBUG" = LogWriter.LogLevelUnknown
  /\ LogWriter.stringToFoxgloveLevel " info" = LogWriter.LogLevelUnknown.
Proof.
  unfold LogWriter.stringToFoxgloveLevel, LogWriter.known_levels.
  destruct (LogWriter.is_one_of level ["DEBUG"; "debug"; "Debug"]) eqn:H1;
    [|destruct (LogWriter.is_one_of level ["INFO"; "info"; "Info"]) eqn:H2;
      [|destruct (LogWriter.is_one_of level
                    ["WARN"; "warn"; "Warn"; "WARNING"; "warning"; "Warning"]) eqn:H3;
        [|destruct (LogWriter.is_one_of level ["ERROR"; "error"; "Error"]) eqn:H4;
          [|destruct (LogWriter.is_one_of level ["FATAL"; "fatal"; "Fatal"]) eqn:H5]]]].
  all: repeat match goal with
         | H : LogWriter.is_one_of _ _ = true |- _ => apply is_one_of_spec in H
         | H : LogWriter.is_one_of _ _ = false |- _ =>
             apply not_true_iff_false in H; rewrite is_one_of_spec in H
         end.
  all: unfold LogWriter.LogLevelUnknown, LogWriter.LogLevelDebug, LogWriter.LogLevelInfo,
         LogWriter.LogLevelWarning, LogWriter.LogLevelError, LogWriter.LogLevelFatal.
  all: repeat (split; [try lia|]); try reflexivity.
  all: try (split; [discriminate | intros Hn; exfalso; apply Hn]).
  all: try (split; [intros _; assumption | reflexivity]).
  all: try (split; [intros Hin | discriminate]).
  all: rewrite ?elem_of_cons, ?elem_of_nil in *.
  all: try (intuition (subst; simpl in *; congruence)).
Qed.

(** ** A session of both adapters *)

Section Session_facts.

Variables float64 any : Type.
Variable marshal_metric : MetricWriter.FoxgloveMetric float64 -> option string.
Variable marshal_log : LogWriter.FoxgloveLog any -> option string.

Local Abbreviation use := (Session.use float64 any marshal_metric marshal_log).
Local Abbreviation run := (Session.run float64 any marshal_metric marshal_log).
Local Abbreviation msg_order :=
  (Order.preceded Order.message_channel_ref Order.channel_on_stream).

(** A call of the unified writer other than [WriteMessage] hands no
    message to the codec. *)
Lemma step_keeps_message_order c s :
  match c with CallWriteMessage _ _ _ _ => False | _ => True end ->
  msg_order (trace (snd s)) -> msg_order (trace (snd (snd (step c s)))).
Proof.
  intros Hc HP. destruct s as [u w]. destruct c; simpl; try contradiction.
  - destruct (RegisterSchema_effect schemaName u w) as [E | [[r E] | [r [_ E]]]];
      cbv zeta in E; rewrite E; simpl; [assumption | |];
      now apply preceded_snoc_silent.
  - rewrite AddCustomSchema_eq.
    destruct (RegisterSchema_effect name
                (with_registry (Register name schema (registry u)) u) w)
      as [E | [[r E] | [r [_ E]]]];
      cbv zeta in E; rewrite E; simpl; [assumption | |];
      now apply preceded_snoc_silent.
  - pose proof (CreateChannel_effect topic schemaName metadata u w) as H. cbv zeta in H.
    destruct (CreateChannel topic schemaName metadata (u, w)) as [[x|e] s']; simpl in *;
      destruct H as [E | [[r E] | [r [_ E]]]]; rewrite E; simpl;
      first [assumption | now apply preceded_snoc_silent].
  - destruct (closed u) eqn:Hcl.
    + now rewrite Close_closed.
    + rewrite Close_open by assumption. cbv zeta.
      destruct (outcome w); [destruct (outcome (advance WriterClose w))|]; simpl;
        repeat apply preceded_snoc_silent; auto.
Qed.

Lemma CreateChannel_keeps_message_order t n md s :
  msg_order (trace (snd s)) -> msg_order (trace (snd (snd (CreateChannel t n md s)))).
Proof.
  intros HP. pose proof (step_keeps_message_order (CallCreateChannel t n md) s I HP) as H.
  simpl in H. now destruct (CreateChannel t n md s) as [[x|e] s'].
Qed.

(** A message on a bound channel keeps the order. *)
Lemma WriteMessage_keeps_message_order ch d lt pt s t :
  Reachable s -> channels (fst s) !! t = Some ch ->
  msg_order (trace (snd s)) ->
  msg_order (trace (snd (snd (Foxglove.WriteMessage ch d lt pt s)))).
Proof.
  intros HR Hb HP. destruct s as [u w]. rewrite WriteMessage_eq. simpl.
  apply preceded_snoc; [assumption|].
  intros k [= <-].
  exact (bound_channel_in_trace (u, w) t ch (Reachable_Consistent _ HR) Hb).
Qed.

Lemma Reachable_WriteMessage ch d lt pt s :
  Reachable s -> Reachable (snd (Foxglove.WriteMessage ch d lt pt s)).
Proof. intros HR. exact (Reachable_step (CallWriteMessage ch d lt pt) s HR). Qed.

Lemma WriteMessage_keeps_writer ch d lt pt s :
  fst (snd (Foxglove.WriteMessage ch d lt pt s)) = fst s.
Proof. destruct s as [u w]. now rewrite WriteMessage_eq. Qed.

Lemma session_ok_intro serviceOpts lw m s :
  Reachable s ->
  metric_serviceName m = Name serviceOpts ->
  Session.cache_coherent m s ->
  (forall l, lw = Some l -> channels (fst s) !! log_topic serviceOpts = Some (log_channelID l)) ->
  msg_order (trace (snd s)) ->
  Session.ok serviceOpts {| Session.logw := lw; Session.metricw := m; Session.sys := s |}.
Proof. intros. repeat split; assumption. Qed.

Lemma session_ok_start serviceOpts foxgloveOpts script u w :
  NewUnifiedMcapWriter serviceOpts foxgloveOpts (fresh script) = (Ok u, w) ->
  Session.ok serviceOpts (Session.start serviceOpts (u, w)).
Proof.
  intros HN.
  assert (HR : Reachable (u, w)).
  { exists serviceOpts, foxgloveOpts, script, u, w, []. now split. }
  assert (HP : msg_order (trace w)).
  { apply NewUnifiedMcapWriter_ok in HN as (_ & _ & Htr). simpl in Htr. rewrite Htr.
    apply opening_calls_preceded. intros e He. unfold opening_calls in He.
    repeat (apply elem_of_cons in He as [-> | He]; [reflexivity|]).
    now apply elem_of_nil in He. }
  unfold Session.start, NewLogMcapWriter, CreateLogChannel.
  set (md := <["service" := _]> _).
  pose proof (CreateChannel_keeps_message_order (log_topic serviceOpts) "foxglove.Log" md (u, w) HP)
    as HP'.
  destruct (CreateChannel (log_topic serviceOpts) "foxglove.Log" md (u, w)) as [[id|e] s'] eqn:HC;
    apply session_ok_intro; try assumption; try reflexivity;
    try (eapply Reachable_CreateChannel; eassumption);
    try (intros name id' H; discriminate).
  - intros l [= <-]. simpl. eapply CreateChannel_Ok_bound. exact HC.
  - intros l H. discriminate.
Qed.

Lemma session_ok_message serviceOpts lw m s ch data lt t :
  Session.ok serviceOpts {| Session.logw := lw; Session.metricw := m; Session.sys := s |} ->
  channels (fst s) !! t = Some ch ->
  Session.ok serviceOpts
    {| Session.logw := lw; Session.metricw := m;
       Session.sys := snd (Foxglove.WriteMessage ch data lt lt s) |}.
Proof.
  intros (HR & Hname & Hcoh & Hlog & HP) Hb; simpl in *.
  pose proof (WriteMessage_keeps_writer ch data lt lt s) as Hw.
  apply session_ok_intro.
  - now apply Reachable_WriteMessage.
  - assumption.
  - intros n i Hn. rewrite Hw. now apply Hcoh.
  - intros l Hl. rewrite Hw. now apply Hlog.
  - eapply WriteMessage_keeps_message_order; eassumption.
Qed.

Lemma session_ok_use serviceOpts x st :
  Session.through_adapters float64 any x ->
  Session.ok serviceOpts st -> Session.ok serviceOpts (use x st).
Proof.
  intros Hx Hok. destruct st as [lw m s].
  pose proof Hok as (HR & Hname & Hcoh & Hlog & HP); simpl in *.
  destruct x as [now name value | now level message file line data | c]; simpl.
  - (* a metric *)
    unfold MetricWriter.writeMetric.
    destruct (metric_channels m !! name) as [id|] eqn:Hc.
    + rewrite (getOrCreateChannel_hit name m s id Hc).
      destruct (marshal_metric _) as [data|]; [|exact Hok].
      pose proof (session_ok_message serviceOpts lw m s id data
                    (Clock.to_uint64 (Clock.UnixNano now)) _ Hok (Hcoh name id Hc)) as H.
      now destruct (Foxglove.WriteMessage _ _ _ _ s) as [[[]|e] s'].
    + rewrite (getOrCreateChannel_miss name m s Hc).
      set (topic := metric_topic (metric_serviceName m) name).
      set (md := <["metric_name" := name]> (metric_metadata m)).
      pose proof (CreateChannel_keeps_message_order topic "mahcanirobotics.metric" md s HP)
        as HP1.
      destruct (Kept_CreateChannel topic "mahcanirobotics.metric" md s) as (_ & Hk & _).
      destruct (CreateChannel topic "mahcanirobotics.metric" md s) as [[id|e] s1] eqn:HC;
        simpl in *.
      * assert (HR1 : Reachable s1) by (eapply Reachable_CreateChannel; eassumption).
        pose proof (CreateChannel_Ok_bound _ _ _ _ _ _ HC) as Hb.
        assert (Hok1 : Session.ok serviceOpts
                         {| Session.logw := lw;
                            Session.metricw :=
                              {| metric_channels := <[name := id]> (metric_channels m);
                                 metric_serviceName := metric_serviceName m;
                                 metric_metadata := metric_metadata m |};
                            Session.sys := s1 |}).
        { apply session_ok_intro; try assumption.
          - intros n i. simpl. destruct (decide (name = n)) as [<-|Hne].
            + rewrite lookup_insert_eq. intros [= <-]. exact Hb.
            + rewrite lookup_insert_ne by assumption. intros Hn. apply Hk. now apply Hcoh.
          - intros l Hl. apply Hk. now apply Hlog. }
        destruct (marshal_metric _) as [data|]; [|exact Hok1].
        pose proof (session_ok_message serviceOpts lw _ s1 id data
                      (Clock.to_uint64 (Clock.UnixNano now)) _ Hok1 Hb) as H.
        now destruct (Foxglove.WriteMessage _ _ _ _ s1) as [[[]|e] s'].
      * apply session_ok_intro; try assumption.
        -- eapply Reachable_CreateChannel; eassumption.
        -- intros n i Hn. apply Hk. now apply Hcoh.
        -- intros l Hl. apply Hk. now apply Hlog.
  - (* a log record *)
    destruct lw as [l|]; [|exact Hok].
    unfold LogWriter.WriteLog.
    destruct (marshal_log _) as [payload|]; [|exact Hok].
    pose proof (session_ok_message serviceOpts (Some l) m s (log_channelID l) payload
                  (Clock.to_uint64 (Clock.UnixNano now)) _ Hok (Hlog l eq_refl)) as H.
    now destruct (Foxglove.WriteMessage _ _ _ _ s) as [[[]|e] s'].
  - (* the unified writer *)
    destruct (Kept_step c s) as (_ & Hk & _).
    apply session_ok_intro; try assumption.
    + now apply Reachable_step.
    + intros n i Hn. apply Hk. now apply Hcoh.
    + intros l Hl. apply Hk. now apply Hlog.
    + apply step_keeps_message_order; [|assumption].
      destruct c; simpl in *; auto.
Qed.

Lemma session_ok_run serviceOpts xs :
  forall st,
    Forall (Session.through_adapters float64 any) xs ->
    Session.ok serviceOpts st -> Session.ok serviceOpts (run xs st).
Proof.
  induction xs as [|x xs IH]; intros st Hxs Hok; simpl; [assumption|].
  apply Forall_cons in Hxs as [Hx Hxs]. apply IH; [assumption|].
  now apply session_ok_use.
Qed.

Lemma Session_Reachable_ok serviceOpts st :
  Session.Reachable float64 any marshal_metric marshal_log serviceOpts st ->
  Session.ok serviceOpts st.
Proof.
  intros (fo & script & u & w & xs & HN & Hxs & <-).
  apply session_ok_run; [assumption|]. eapply session_ok_start; eassumption.
Qed.

End Session_facts.

(** X17.  A channel is on the stream before any message that refers to
    it.  In a session in which the producers hand their messages to the
    adapters (and call the unified writer for anything else), under any
    pattern of I/O failures and whatever [json.Marshal] does, each message
    handed to the codec carries a channel id for which a channel record was
    written, with success, earlier in the stream. *)
Theorem channel_written_before_message
  (float64 any : Type)
  (marshal_metric : MetricWriter.FoxgloveMetric float64 -> option string)
  (marshal_log : LogWriter.FoxgloveLog any -> option string)
  serviceOpts st :
  Session.Reachable float64 any marshal_metric marshal_log serviceOpts st ->
  Order.preceded Order.message_channel_ref Order.channel_on_stream
    (trace (snd (Session.sys st))).
Proof. intros HR. now apply (Session_Reachable_ok _ _ _ _ _ _ HR). Qed.

Lemma channel_written_before_message_witness :
  Session.Reachable Z unit Demo.marshal_metric Demo.marshal_log Scenario.svc Demo.session
  /\ last (trace (snd (Session.sys Demo.session)))
     = Some (Mcap.WriteMessage
               {| message_ChannelID := 2; message_Sequence := 0;
                  message_LogTime := 1700000000000000005;
                  message_PublishTime := 1700000000000000005;
                  message_Data := "{}" |}, true)
  /\ exists e', e' ∈ removelast (trace (snd (Session.sys Demo.session)))
                /\ Order.channel_on_stream e' = Some 2.
Proof.
  assert (HR : Session.Reachable Z unit Demo.marshal_metric Demo.marshal_log
                 Scenario.svc Demo.session).
  { exists Scenario.fox, [], (fst Scenario.opened_sys), (snd Scenario.opened_sys), Demo.uses.
    split; [vm_compute; reflexivity|]. split; [repeat constructor|].
    vm_compute. reflexivity. }
  split; [exact HR|].
  assert (Hlast : last (trace (snd (Session.sys Demo.session)))
                  = Some (Mcap.WriteMessage
                            {| message_ChannelID := 2; message_Sequence := 0;
                               message_LogTime := 1700000000000000005;
                               message_PublishTime := 1700000000000000005;
                               message_Data := "{}" |}, true))
    by (vm_compute; reflexivity).
  split; [exact Hlast|].
  pose proof (channel_written_before_message _ _ _ _ _ _ HR) as Hord.
  assert (Heq : trace (snd (Session.sys Demo.session))
                = removelast (trace (snd (Session.sys Demo.session)))
                  ++ [(Mcap.WriteMessage
                         {| message_ChannelID := 2; message_Sequence := 0;
                            message_LogTime := 1700000000000000005;
                            message_PublishTime := 1700000000000000005;
                            message_Data := "{}" |}, true)])
    by (vm_compute; reflexivity).
  exact (Hord _ _ _ 2 Heq eq_refl).
Defined.

(** X18.  The adapters never disagree with the unified writer.  In such a
    session, every id that the metric adapter has cached for a metric name
    is the id to which the unified writer binds the topic of that name, and
    the stream holds exactly one channel record for that topic, with that
    id; and the id held by the log adapter is the id of the one channel
    record of the topic ["/logs/{service name}"]. *)
Theorem adapters_agree_with_the_writer
  (float64 any : Type)
  (marshal_metric : MetricWriter.FoxgloveMetric float64 -> option string)
  (marshal_log : LogWriter.FoxgloveLog any -> option string)
  serviceOpts st :
  Session.Reachable float64 any marshal_metric marshal_log serviceOpts st ->
  (forall name id,
      metric_channels (Session.metricw st) !! name = Some id ->
      channels (fst (Session.sys st)) !! spec_topic (Name serviceOpts) name = Some id
      /\ exists c,
          channelRecordsOn (spec_topic (Name serviceOpts) name) (snd (Session.sys st)) = [c]
          /\ channel_ID c = id)
  /\ (forall l,
        Session.logw st = Some l ->
        channels (fst (Session.sys st)) !! ("/logs/" ++ Name serviceOpts)%string
        = Some (log_channelID l)
        /\ exists c,
            channelRecordsOn ("/logs/" ++ Name serviceOpts)%string (snd (Session.sys st)) = [c]
            /\ channel_ID c = log_channelID l).
Proof.
  intros HR. destruct (Session_Reachable_ok _ _ _ _ _ _ HR) as (HRs & Hname & Hcoh & Hlog & _).
  pose proof (Reachable_Consistent _ HRs) as HC. split.
  - intros name id Hc. apply Hcoh in Hc. rewrite Hname in Hc.
    unfold spec_topic. unfold metric_topic in Hc. rewrite ReplaceAll_dot_slash in Hc.
    split; [exact Hc|].
    destruct (bound_channel_written_once _ _ _ HC Hc) as (c & E & _ & Hid). eauto.
  - intros l Hl. apply Hlog in Hl. unfold log_topic in Hl. split; [exact Hl|].
    destruct (bound_channel_written_once _ _ _ HC Hl) as (c & E & _ & Hid). eauto.
Qed.

Lemma adapters_agree_with_the_writer_witness :
  Session.Reachable Z unit Demo.marshal_metric Demo.marshal_log Scenario.svc Demo.session
  /\ metric_channels (Session.metricw Demo.session) !! "cpu.load" = Some 2
  /\ channels (fst (Session.sys Demo.session)) !! "/metrics/svc/cpu/load" = Some 2.
Proof.
  assert (HR : Session.Reachable Z unit Demo.marshal_metric Demo.marshal_log
                 Scenario.svc Demo.session).
  { exists Scenario.fox, [], (fst Scenario.opened_sys), (snd Scenario.opened_sys), Demo.uses.
    split; [vm_compute; reflexivity|]. split; [repeat constructor|].
    vm_compute. reflexivity. }
  assert (Hc : metric_channels (Session.metricw Demo.session) !! "cpu.load" = Some 2)
    by (vm_compute; reflexivity).
  split; [exact HR|]. split; [exact Hc|].
  destruct (adapters_agree_with_the_writer _ _ _ _ _ _ HR) as [Hm _].
  destruct (Hm _ _ Hc) as [Hb _]. exact Hb.
Defined.

Section Record_facts.

(** The record written by a [CreateChannel] that bound a topic is, and
    stays, the only channel record of the topic. *)
Lemma fresh_channel_record s t n md sid id s1 :
  Reachable s -> channels (fst s) !! t = None -> schemaIDs (fst s) !! n = Some sid ->
  CreateChannel t n md s = (Ok id, s1) ->
  forall cs,
    channels (fst (exec cs s1)) !! t = Some id
    /\ channelRecordsOn t (snd (exec cs s1))
       = [ {| channel_ID := id; channel_SchemaID := sid; channel_Topic := t;
              channel_MessageEncoding := "json"; channel_Metadata := md |} ].
Proof.
  intros HR Ht Hs H1 cs. destruct s as [u w]; simpl in *.
  assert (HR1 : Reachable s1) by (eapply Reachable_CreateChannel; eassumption).
  rewrite (CreateChannel_fresh u w t n md sid Ht Hs) in H1. cbv zeta in H1.
  destruct (outcome w) eqn:Hok; [|discriminate].
  injection H1 as <- <-.
  set (c := {| channel_ID := nextChannel u; channel_SchemaID := sid; channel_Topic := t;
               channel_MessageEncoding := "json"; channel_Metadata := md |}).
  set (s1 := (bind_channel t (nextChannel u) u, advance (WriteChannel c) w)) in *.
  assert (HR2 : Reachable (exec cs s1)) by now apply Reachable_exec.
  assert (Hb : channels (fst (exec cs s1)) !! t = Some (nextChannel u)).
  { apply (Kept_exec cs s1). simpl. apply lookup_insert_eq. }
  split; [exact Hb|].
  destruct (bound_channel_written_once _ t _ (Reachable_Consistent _ HR2) Hb)
    as (c' & Hc' & _ & _).
  rewrite Hc'. f_equal. symmetry. eapply unique_topic_record; [exact Hc' | | reflexivity].
  apply exec_channelRecords_grow. simpl.
  rewrite channelRecords_advance, Hok. apply elem_of_app. right. apply list_elem_of_here.
Qed.

End Record_facts.

(** X19.  The channel of a metric.  On a writer that was opened and used
    in any way, let the metric adapter resolve a name it has not cached.
    When the unified writer has no channel on the topic of the name and the
    call returns an id, the stream holds from then on exactly one channel
    record on that topic: it carries the id returned, the id 2 of the
    metric schema, and the metadata of the adapter together with the metric
    name.  When the unified writer has a channel on that topic already,
    whoever created it and with whatever schema, the adapter takes over its
    id and writes nothing. *)
Theorem metric_channel_record m s name :
  Reachable s ->
  metric_channels m !! name = None ->
  let topic := metric_topic (metric_serviceName m) name in
  let md := <["metric_name" := name]> (metric_metadata m) in
  (channels (fst s) !! topic = None ->
   forall id m1 s1,
     getOrCreateChannel name (m, s) = (Ok id, (m1, s1)) ->
     forall cs,
       channels (fst (exec cs s1)) !! topic = Some id
       /\ channelRecordsOn topic (snd (exec cs s1))
          = [ {| channel_ID := id; channel_SchemaID := 2; channel_Topic := topic;
                 channel_MessageEncoding := "json"; channel_Metadata := md |} ])
  /\ (forall id0,
        channels (fst s) !! topic = Some id0 ->
        getOrCreateChannel name (m, s)
        = (Ok id0, ({| metric_channels := <[name := id0]> (metric_channels m);
                       metric_serviceName := metric_serviceName m;
                       metric_metadata := metric_metadata m |}, s)))
  /\ (forall serviceOpts,
        m = NewMetricMcapWriter serviceOpts ->
        md !! "metric_name" = Some name
        /\ md !! "service_name" = Some (Name serviceOpts)
        /\ md !! "version" = Some (Version serviceOpts)
        /\ md !! "environment" = Some (Environment serviceOpts)
        /\ forall k, k ∉ ["metric_name"; "service_name"; "version"; "environment"] ->
                     md !! k = None).
Proof.
  intros HR Hc topic md. destruct (Reachable_builtins_bound s HR) as [_ HM].
  rewrite (getOrCreateChannel_miss name m s Hc). fold topic md.
  split; [|split].
  - intros Ht id m1 s1 H cs.
    destruct (CreateChannel topic "mahcanirobotics.metric" md s) as [[id'|e] s'] eqn:HC;
      [|discriminate].
    injection H as <- _ <-.
    exact (fresh_channel_record s topic _ md 2 id' s' HR Ht HM HC cs).
  - intros id0 Ht. destruct s as [u w].
    now rewrite (CreateChannel_bound u w topic _ md id0 Ht).
  - intros serviceOpts ->. subst md. simpl.
    split; [apply lookup_insert_eq|].
    repeat (split; [rewrite !lookup_insert_ne by discriminate; try apply lookup_insert_eq;
                    rewrite ?lookup_insert_ne by discriminate; apply lookup_insert_eq |]).
    intros k Hk. rewrite !not_elem_of_cons in Hk. destruct Hk as (H1 & H2 & H3 & H4 & _).
    rewrite !lookup_insert_ne by congruence. apply lookup_empty.
Qed.

Lemma metric_channel_record_witness :
  Reachable Scenario.opened_sys
  /\ metric_channels (NewMetricMcapWriter Scenario.svc) !! "cpu.load" = None
  /\ channel_SchemaID <$>
       channelRecordsOn "/metrics/svc/cpu/load"
         (snd (snd (snd (getOrCreateChannel "cpu.load"
                           (NewMetricMcapWriter Scenario.svc, Scenario.opened_sys)))))
     = [2].
Proof.
  assert (HR : Reachable Scenario.opened_sys).
  { exists Scenario.svc, Scenario.fox, [], (fst Scenario.opened_sys), (snd Scenario.opened_sys), [].
    split; vm_compute; reflexivity. }
  assert (Hc : metric_channels (NewMetricMcapWriter Scenario.svc) !! "cpu.load" = None)
    by (vm_compute; reflexivity).
  split; [exact HR|]. split; [exact Hc|].
  destruct (metric_channel_record _ _ "cpu.load" HR Hc) as [Hrec _].
  set (st := getOrCreateChannel "cpu.load" (NewMetricMcapWriter Scenario.svc, Scenario.opened_sys)).
  assert (Ht : channels (fst Scenario.opened_sys)
                 !! metric_topic (metric_serviceName (NewMetricMcapWriter Scenario.svc)) "cpu.load"
               = None) by (vm_compute; reflexivity).
  assert (G : getOrCreateChannel "cpu.load" (NewMetricMcapWriter Scenario.svc, Scenario.opened_sys)
              = (Ok 1, (fst (snd st), snd (snd st)))) by (vm_compute; reflexivity).
  destruct (Hrec Ht _ _ _ G []) as [_ E].
  change (metric_topic (metric_serviceName (NewMetricMcapWriter Scenario.svc)) "cpu.load")
    with "/metrics/svc/cpu/load" in E.
  simpl exec in E. rewrite E. reflexivity.
Defined.

(** X20.  Building the log adapter.  On a writer that was opened and used
    in any way, [NewLogMcapWriter] fails only when the topic
    ["/logs/{service name}"] has no channel and the codec refuses the
    channel record; the error is the one of [CreateLogChannel], wrapped,
    and the unified writer is unchanged.  When it returns an adapter, the
    adapter holds the name ["{name} ({version} | {environment})"] and an
    id to which the topic stays bound; when the topic had no channel
    before, the stream holds from then on exactly one channel record on
    it, with that id, the id 1 of the log schema and the four metadata
    entries of the service; when it had one, the adapter takes over its id
    and nothing is written. *)
Theorem NewLogMcapWriter_result serviceOpts s :
  Reachable s ->
  let topic := ("/logs/" ++ Name serviceOpts)%string in
  let md : gmap string string :=
    <["service" := Name serviceOpts]>
      (<["version" := Version serviceOpts]>
         (<["environment" := Environment serviceOpts]>
            (<["description" := Description serviceOpts]> ∅))) in
  (forall e s1,
      NewLogMcapWriter serviceOpts s = (Err e, s1) ->
      e = ELogChannel (ECreateChannel EIo)
      /\ channels (fst s) !! topic = None /\ outcome (snd s) = false /\ fst s1 = fst s)
  /\ (forall l s1,
        NewLogMcapWriter serviceOpts s = (Ok l, s1) ->
        log_serviceName l
        = (Name serviceOpts ++ " (" ++ Version serviceOpts ++ " | "
           ++ Environment serviceOpts ++ ")")%string
        /\ log_serviceVersion l = Version serviceOpts
        /\ log_serviceEnvironment l = Environment serviceOpts
        /\ (forall cs, channels (fst (exec cs s1)) !! topic = Some (log_channelID l))
        /\ (channels (fst s) !! topic = None ->
            outcome (snd s) = true
            /\ forall cs,
                channelRecordsOn topic (snd (exec cs s1))
                = [ {| channel_ID := log_channelID l; channel_SchemaID := 1;
                       channel_Topic := topic; channel_MessageEncoding := "json";
                       channel_Metadata := md |} ])
        /\ (forall id0, channels (fst s) !! topic = Some id0 ->
                        log_channelID l = id0 /\ s1 = s)).
Proof.
  intros HR topic md. destruct (Reachable_builtins_bound s HR) as [HL _].
  unfold NewLogMcapWriter, CreateLogChannel, log_topic. fold topic md.
  destruct s as [u w]; simpl in *.
  destruct (channels u !! topic) as [id0|] eqn:Ht.
  - rewrite (CreateChannel_bound u w topic _ md id0 Ht). split.
    + intros e s1 H. discriminate.
    + intros l s1 [= <- <-]. simpl. repeat split.
      * intros cs. now apply (Kept_exec cs (u, w)).
      * discriminate.
      * congruence.
      * congruence.
  - pose proof (fun id s1 => fresh_channel_record (u, w) topic "foxglove.Log" md 1 id s1
                               HR Ht HL) as Hrec.
    rewrite (CreateChannel_fresh u w topic _ md 1 Ht HL) in *. cbv zeta in *.
    destruct (outcome w) eqn:Hok; split.
    + intros e s1 H. discriminate.
    + intros l s1 [= <- <-]. simpl. repeat split.
      * intros cs. now apply (Hrec _ _ eq_refl cs).
      * intros cs. now apply (Hrec _ _ eq_refl cs).
      * discriminate.
      * discriminate.
    + intros e s1 [= <- <-]. repeat split.
    + intros l s1 H. discriminate.
Qed.

Lemma NewLogMcapWriter_result_witness :
  Reachable Scenario.opened_sys
  /\ (exists l, fst (NewLogMcapWriter Scenario.svc Scenario.opened_sys) = Ok l
                /\ log_serviceName l = "svc (1.0.0 | development)").
Proof.
  assert (HR : Reachable Scenario.opened_sys).
  { exists Scenario.svc, Scenario.fox, [], (fst Scenario.opened_sys), (snd Scenario.opened_sys), [].
    split; vm_compute; reflexivity. }
  split; [exact HR|].
  destruct (NewLogMcapWriter_result Scenario.svc _ HR) as [_ Hok].
  destruct (NewLogMcapWriter Scenario.svc Scenario.opened_sys) as [[l|e] s1] eqn:E.
  - exists l. split; [reflexivity|]. destruct (Hok l s1 eq_refl) as (Hn & _).
    rewrite Hn. reflexivity.
  - vm_compute in E. discriminate.
Defined.

(** ** Writing a metric *)

(** X21.  What [writeMetric] hands to the codec.  On a writer that was
    opened and used in any way, a call does one of three things.  It
    resolves the channel, marshals the sample and hands the codec one
    message, as its last call: on the channel cached for the name, with
    sequence number 0 and the time in nanoseconds both as log time and as
    publish time; it returns no error when the codec accepts the message
    and the error of the codec, as it is, otherwise.  Or [json.Marshal]
    fails: the marshal error is returned and no message is handed over,
    but the channel stays created and cached.  Or the channel cannot be
    created: the error of the codec is returned, wrapped with the metric
    name, no message is handed over and nothing is cached.
    [WriteCounter], [WriteHistogram] and [WriteGauge] do the same: the
    kind of a metric is not recorded. *)
Theorem writeMetric_outcomes (float64 : Type)
  (json_Marshal : MetricWriter.FoxgloveMetric float64 -> option string)
  now name value m s :
  Reachable s ->
  let res := MetricWriter.writeMetric float64 json_Marshal now name value (m, s) in
  let m' := fst (snd res) in
  let s' := snd (snd res) in
  let metric := {| MetricWriter.Timestamp := Clock.stamp now;
                   MetricWriter.Name := name;
                   MetricWriter.Value := value |} in
  let t := Clock.to_uint64 (Clock.UnixNano now) in
  (exists evs,
      trace (snd s') = trace (snd s) ++ evs
      /\ ((exists id data ok,
              let msg := (Mcap.WriteMessage
                            {| message_ChannelID := id; message_Sequence := 0;
                               message_LogTime := t; message_PublishTime := t;
                               message_Data := data |}, ok) in
              metric_channels m' !! name = Some id
              /\ json_Marshal metric = Some data
              /\ Events.messages evs = [msg]
              /\ last evs = Some msg
              /\ fst res = (if ok then Ok tt else Err (Clock.FromWriter EIo)))
          \/ (json_Marshal metric = None
              /\ fst res = Err Clock.EMarshalMetric
              /\ Events.messages evs = []
              /\ is_Some (metric_channels m' !! name))
          \/ (fst res = Err (Clock.FromWriter (EMetricChannel name (ECreateChannel EIo)))
              /\ Events.messages evs = []
              /\ m' = m /\ metric_channels m !! name = None /\ fst s' = fst s)))
  /\ MetricWriter.WriteCounter float64 json_Marshal now name value (m, s) = res
  /\ MetricWriter.WriteHistogram float64 json_Marshal now name value (m, s) = res
  /\ MetricWriter.WriteGauge float64 json_Marshal now name value (m, s) = res.
Proof.
  intros HR. cbv zeta. split; [|repeat split].
  destruct (Reachable_builtins_bound s HR) as [_ HM].
  unfold MetricWriter.writeMetric. destruct s as [u w].
  assert (Hmsg : forall m0 u0 w0 id pre,
             metric_channels m0 !! name = Some id ->
             trace w0 = trace w ++ pre -> Events.messages pre = [] ->
             let r := match json_Marshal {| MetricWriter.Timestamp := Clock.stamp now;
                                            MetricWriter.Name := name;
                                            MetricWriter.Value := value |} with
                      | Some data =>
                          match Foxglove.WriteMessage id data
                                  (Clock.to_uint64 (Clock.UnixNano now))
                                  (Clock.to_uint64 (Clock.UnixNano now)) (u0, w0) with
                          | (Ok _, s'') => (Ok tt, (m0, s''))
                          | (Err err, s'') => (Err (Clock.FromWriter err), (m0, s''))
                          end
                      | None => (Err Clock.EMarshalMetric, (m0, (u0, w0)))
                      end in
             exists evs,
               trace (snd (snd (snd r))) = trace w ++ evs
               /\ ((exists id' data ok,
                       let msg := (Mcap.WriteMessage
                                     {| message_ChannelID := id'; message_Sequence := 0;
                                        message_LogTime := Clock.to_uint64 (Clock.UnixNano now);
                                        message_PublishTime := Clock.to_uint64 (Clock.UnixNano now);
                                        message_Data := data |}, ok) in
                       metric_channels (fst (snd r)) !! name = Some id'
                       /\ json_Marshal {| MetricWriter.Timestamp := Clock.stamp now;
                                          MetricWriter.Name := name;
                                          MetricWriter.Value := value |} = Some data
                       /\ Events.messages evs = [msg]
                       /\ last evs = Some msg
                       /\ fst r = (if ok then Ok tt else Err (Clock.FromWriter EIo)))
                   \/ (json_Marshal {| MetricWriter.Timestamp := Clock.stamp now;
                                       MetricWriter.Name := name;
                                       MetricWriter.Value := value |} = None
                       /\ fst r = Err Clock.EMarshalMetric
                       /\ Events.messages evs = []
                       /\ is_Some (metric_channels (fst (snd r)) !! name))
                   \/ (fst r = Err (Clock.FromWriter (EMetricChannel name (ECreateChannel EIo)))
                       /\ Events.messages evs = []
                       /\ fst (snd r) = m /\ metric_channels m !! name = None
                       /\ fst (snd (snd r)) = u))).
  { intros m0 u0 w0 id pre Hid Htr Hpre. cbv zeta.
    destruct (json_Marshal _) as [data|] eqn:Hj.
    - rewrite WriteMessage_eq. cbv zeta.
      exists (pre ++ [(Mcap.WriteMessage
                         {| message_ChannelID := id; message_Sequence := 0;
                            message_LogTime := Clock.to_uint64 (Clock.UnixNano now);
                            message_PublishTime := Clock.to_uint64 (Clock.UnixNano now);
                            message_Data := data |}, outcome w0)]).
      split.
      + destruct (outcome w0) eqn:Hok; simpl; rewrite Hok, Htr; now rewrite app_assoc.
      + left. exists id, data, (outcome w0). cbv zeta.
        split; [now destruct (outcome w0)|]. split; [reflexivity|].
        split; [unfold Events.messages in *; rewrite filter_app, Hpre; reflexivity|].
        split; [apply last_snoc|]. now destruct (outcome w0).
    - exists pre. split; [exact Htr|]. right. left. simpl. repeat split; eauto. }
  destruct (metric_channels m !! name) as [id|] eqn:Hc.
  - rewrite (getOrCreateChannel_hit name m (u, w) id Hc).
    apply (Hmsg m u w id []); [assumption | now rewrite app_nil_r | reflexivity].
  - rewrite (getOrCreateChannel_miss name m (u, w) Hc).
    set (topic := metric_topic (metric_serviceName m) name).
    set (md := <["metric_name" := name]> (metric_metadata m)).
    destruct (channels u !! topic) as [id0|] eqn:Ht.
    + rewrite (CreateChannel_bound u w topic _ md id0 Ht).
      apply (Hmsg _ u w id0 []); [apply lookup_insert_eq | now rewrite app_nil_r | reflexivity].
    + simpl in HM. rewrite (CreateChannel_fresh u w topic _ md 2 Ht HM). cbv zeta.
      destruct (outcome w) eqn:Hok.
      * apply (Hmsg _ _ _ (nextChannel u)
                 [(WriteChannel {| channel_ID := nextChannel u; channel_SchemaID := 2;
                                   channel_Topic := topic; channel_MessageEncoding := "json";
                                   channel_Metadata := md |}, true)]);
          [apply lookup_insert_eq | simpl; now rewrite Hok | reflexivity].
      * eexists. split; [simpl; rewrite Hok; reflexivity|].
        right. right. simpl. repeat split; assumption.
Qed.

Lemma writeMetric_outcomes_witness :
  Reachable Scenario.opened_sys
  /\ fst (MetricWriter.writeMetric Z Demo.marshal_metric Demo.noon "cpu.load" 0
            (NewMetricMcapWriter Scenario.svc, Scenario.opened_sys))
     = Err Clock.EMarshalMetric
  /\ exists evs,
      trace (snd (snd (snd (MetricWriter.writeMetric Z Demo.marshal_metric Demo.noon "cpu.load" 0
                              (NewMetricMcapWriter Scenario.svc, Scenario.opened_sys)))))
      = trace (snd Scenario.opened_sys) ++ evs
      /\ Events.messages evs = [].
Proof.
  assert (HR : Reachable Scenario.opened_sys).
  { exists Scenario.svc, Scenario.fox, [], (fst Scenario.opened_sys), (snd Scenario.opened_sys), [].
    split; vm_compute; reflexivity. }
  assert (Hj : Demo.marshal_metric
                 {| MetricWriter.Timestamp := Clock.stamp Demo.noon;
                    MetricWriter.Name := "cpu.load"; MetricWriter.Value := 0 |} = None)
    by reflexivity.
  assert (Hres : fst (MetricWriter.writeMetric Z Demo.marshal_metric Demo.noon "cpu.load" 0
                        (NewMetricMcapWriter Scenario.svc, Scenario.opened_sys))
                 = Err Clock.EMarshalMetric) by (vm_compute; reflexivity).
  split; [exact HR|]. split; [exact Hres|].
  destruct (writeMetric_outcomes Z Demo.marshal_metric Demo.noon "cpu.load" 0
              (NewMetricMcapWriter Scenario.svc) _ HR) as [(evs & Htr & Hcases) _].
  exists evs. split; [exact Htr|].
  destruct Hcases as [(id & data & ok & _ & Hd & _) | [(_ & _ & Hm & _) | (He & _)]].
  - rewrite Hj in Hd. discriminate.
  - exact Hm.
  - rewrite Hres in He. discriminate.
Defined.

(** ** Writing a log record *)

(** X22.  What [WriteLog] hands to the codec.  Let the log adapter be
    built by [NewLogMcapWriter] on a writer that was opened and used in any
    way, and let any calls of the unified writer follow ([Close] among
    them).  [WriteLog] then marshals a record with the level given by
    [stringToFoxgloveLevel], the name ["{name} ({version} | {environment})"]
    and the version and environment of the service.  When [json.Marshal]
    fails, the marshal error is returned and nothing is handed to the
    codec.  Otherwise exactly one message is handed to the codec, on the
    channel of the one channel record of the topic ["/logs/{name}"], with
    sequence number 0 and the time in nanoseconds both as log time and as
    publish time; the error of the codec, if any, is returned as it is.
    The unified writer's tables are never changed. *)
Theorem WriteLog_outcomes (any : Type)
  (json_Marshal : LogWriter.FoxgloveLog any -> option string)
  serviceOpts s l s1 cs now level message file line data :
  Reachable s ->
  NewLogMcapWriter serviceOpts s = (Ok l, s1) ->
  let s2 := exec cs s1 in
  let res := LogWriter.WriteLog any json_Marshal l now level message file line data s2 in
  let record :=
    {| LogWriter.Timestamp := Clock.stamp now;
       LogWriter.Level := LogWriter.stringToFoxgloveLevel level;
       LogWriter.Message := message;
       LogWriter.Name := (Name serviceOpts ++ " (" ++ Version serviceOpts ++ " | "
                          ++ Environment serviceOpts ++ ")")%string;
       LogWriter.File := file;
       LogWriter.Line := line;
       LogWriter.Data := data;
       LogWriter.ServiceVersion := Version serviceOpts;
       LogWriter.ServiceEnvironment := Environment serviceOpts |} in
  let t := Clock.to_uint64 (Clock.UnixNano now) in
  fst (snd res) = fst s2
  /\ (json_Marshal record = None -> res = (Err Clock.EMarshalLog, s2))
  /\ (forall payload,
        json_Marshal record = Some payload ->
        trace (snd (snd res))
        = trace (snd s2)
          ++ [(Mcap.WriteMessage
                 {| message_ChannelID := log_channelID l; message_Sequence := 0;
                    message_LogTime := t; message_PublishTime := t;
                    message_Data := payload |}, outcome (snd s2))]
        /\ fst res = (if outcome (snd s2) then Ok tt else Err (Clock.FromWriter EIo))
        /\ exists c,
            channelRecordsOn ("/logs/" ++ Name serviceOpts)%string (snd (snd res)) = [c]
            /\ channel_ID c = log_channelID l).
Proof.
  intros HR HN. cbv zeta.
  assert (HR1 : Reachable s1).
  { unfold NewLogMcapWriter, CreateLogChannel in HN.
    destruct (CreateChannel _ _ _ s) as [[id|e] s'] eqn:HC; [|discriminate].
    injection HN as _ <-. eapply Reachable_CreateChannel; eassumption. }
  assert (HR2 : Reachable (exec cs s1)) by now apply Reachable_exec.
  assert (Hb : channels (fst (exec cs s1)) !! ("/logs/" ++ Name serviceOpts)%string
               = Some (log_channelID l)).
  { apply (Kept_exec cs s1).
    unfold NewLogMcapWriter, CreateLogChannel, log_topic in HN.
    destruct (CreateChannel _ _ _ s) as [[id|e] s'] eqn:HC; [|discriminate].
    injection HN as <- <-. simpl. eapply CreateChannel_Ok_bound. exact HC. }
  assert (Hl : LogWriter.logMsg any l now level message file line data
               = {| LogWriter.Timestamp := Clock.stamp now;
                    LogWriter.Level := LogWriter.stringToFoxgloveLevel level;
                    LogWriter.Message := message;
                    LogWriter.Name := (Name serviceOpts ++ " (" ++ Version serviceOpts ++ " | "
                                       ++ Environment serviceOpts ++ ")")%string;
                    LogWriter.File := file;
                    LogWriter.Line := line;
                    LogWriter.Data := data;
                    LogWriter.ServiceVersion := Version serviceOpts;
                    LogWriter.ServiceEnvironment := Environment serviceOpts |}).
  { unfold NewLogMcapWriter in HN.
    destruct (CreateLogChannel _ _ s) as [[id|e] s']; [|discriminate].
    injection HN as <- _. reflexivity. }
  unfold LogWriter.WriteLog. rewrite Hl.
  destruct (exec cs s1) as [u2 w2] eqn:E2. simpl in Hb |- *.
  destruct (json_Marshal _) as [payload|].
  - rewrite WriteMessage_eq. cbv zeta.
    split; [now destruct (outcome w2)|]. split; [discriminate|].
    intros p [= <-].
    split; [destruct (outcome w2) eqn:Hok; simpl; now rewrite Hok|].
    split; [now destruct (outcome w2)|].
    pose proof (Reachable_WriteMessage (log_channelID l) payload
                  (Clock.to_uint64 (Clock.UnixNano now)) (Clock.to_uint64 (Clock.UnixNano now))
                  (u2, w2) HR2) as HR3.
    rewrite WriteMessage_eq in HR3. cbv zeta in HR3. simpl in HR3.
    destruct (bound_channel_written_once _ _ _ (Reachable_Consistent _ HR3) Hb)
      as (c & Hc & _ & Hid).
    exists c. split; [|exact Hid]. now destruct (outcome w2).
  - split; [reflexivity|]. split; [reflexivity|]. discriminate.
Qed.

Lemma WriteLog_outcomes_witness :
  Reachable Scenario.opened_sys
  /\ (exists l,
         NewLogMcapWriter Scenario.svc Scenario.opened_sys
         = (Ok l, snd (NewLogMcapWriter Scenario.svc Scenario.opened_sys))
         /\ fst (LogWriter.WriteLog unit Demo.marshal_log l Demo.noon "INFO" "" "main.go" 10 ∅
                   (exec [CallClose] (snd (NewLogMcapWriter Scenario.svc Scenario.opened_sys))))
            = Err Clock.EMarshalLog).
Proof.
  assert (HR : Reachable Scenario.opened_sys).
  { exists Scenario.svc, Scenario.fox, [], (fst Scenario.opened_sys), (snd Scenario.opened_sys), [].
    split; vm_compute; reflexivity. }
  split; [exact HR|].
  destruct (NewLogMcapWriter Scenario.svc Scenario.opened_sys) as [[l|e] s1] eqn:E.
  - exists l. split; [reflexivity|].
    destruct (WriteLog_outcomes unit Demo.marshal_log Scenario.svc _ l s1 [CallClose]
                Demo.noon "INFO" "" "main.go" 10 ∅ HR E) as (_ & Hnone & _).
    simpl snd. rewrite Hnone; reflexivity.
  - vm_compute in E. discriminate.
Defined.

(** ** The counters wrap around *)

Section Wrap_facts.

(** A record of the stream is bound in the table. *)
Lemma channel_record_is_bound s c :
  Consistent s -> c ∈ channelRecords (snd s) ->
  channels (fst s) !! channel_Topic c = Some (channel_ID c).
Proof.
  intros HC Hin. rewrite (channel_bindings _ HC).
  apply elem_of_list_to_map_1.
  - rewrite fst_binding_channel. apply HC.
  - apply list_elem_of_fmap. exists c. split; [reflexivity | assumption].
Qed.

(** Once 65536 channel records are written, the id that comes next is in
    use. *)
Lemma next_channel_id_in_use s :
  Consistent s ->
  65536 <= Z.of_nat (length (channelRecords (snd s))) ->
  exists t', channels (fst s) !! t' = Some (nextChannel (fst s)).
Proof.
  intros HC Hk.
  set (n := length (channelRecords (snd s))) in *.
  assert (Hin : nextChannel (fst s) ∈ channel_ID <$> channelRecords (snd s)).
  { rewrite (channel_ids _ HC), (channel_next _ HC). fold n.
    apply list_elem_of_In. unfold counter_ids. apply in_map_iff.
    exists (Z.to_nat (Z.of_nat n - 65536)). split.
    - rewrite Z2Nat.id by lia.
      replace (Z.of_nat n - 65536 + 1) with (Z.of_nat n + 1 + (-1) * 65536) by lia.
      apply Z_mod_plus_full.
    - apply in_seq. lia. }
  apply list_elem_of_fmap in Hin as (c & Hid & Hc).
  exists (channel_Topic c). rewrite Hid. now apply channel_record_is_bound.
Qed.

(** The ids bound while fewer than 65535 records are written. *)
Lemma bound_channel_id_range s t id :
  Consistent s ->
  Z.of_nat (length (channelRecords (snd s))) < 65535 ->
  channels (fst s) !! t = Some id ->
  1 <= id <= Z.of_nat (length (channelRecords (snd s))).
Proof.
  intros HC Hlen Hb.
  destruct (bound_channel_is_record s t id HC Hb) as (c & I & _ & <-).
  assert (Hin : channel_ID c ∈ ids_from 1 (length (channelRecords (snd s)))).
  { rewrite <- counter_ids_small by lia. rewrite <- (channel_ids _ HC).
    apply list_elem_of_fmap. eauto. }
  pose proof (ids_from_lower _ _ _ Hin). pose proof (ids_from_upper _ _ _ Hin). lia.
Qed.

(** A writer in a world without faults can always take one more channel. *)
Lemma one_more_channel s :
  Reachable s -> faults (snd s) = [] ->
  exists t s1,
    channels (fst s) !! t = None
    /\ CreateChannel t "foxglove.Log" ∅ s = (Ok (nextChannel (fst s)), s1)
    /\ Reachable s1 /\ faults (snd s1) = []
    /\ length (channelRecords (snd s1)) = S (length (channelRecords (snd s)))
    /\ (forall t' id, channels (fst s) !! t' = Some id -> channels (fst s1) !! t' = Some id)
    /\ channels (fst s1) !! t = Some (nextChannel (fst s)).
Proof.
  intros HR Hf. destruct (Reachable_builtins_bound s HR) as [HL _].
  destruct s as [u w]; simpl in *.
  set (t := stdpp.base.fresh (dom (channels u) : gset string)).
  assert (Ht : channels u !! t = None).
  { apply not_elem_of_dom. apply is_fresh. }
  assert (Hok : outcome w = true) by (unfold outcome; now rewrite Hf).
  pose proof (CreateChannel_fresh u w t "foxglove.Log" ∅ 1 Ht HL) as E. cbv zeta in E.
  rewrite Hok in E.
  exists t. eexists. split; [exact Ht|]. split; [exact E|].
  split; [eapply (Reachable_CreateChannel t "foxglove.Log" ∅ (u, w)); eassumption|].
  simpl. split; [now rewrite Hf|].
  split; [rewrite channelRecords_advance, Hok; simpl; rewrite length_app; simpl; lia|].
  split.
  - intros t' id Hb. rewrite lookup_insert_ne; [assumption|]. congruence.
  - apply lookup_insert_eq.
Qed.

(** A writer can hold any number of channels. *)
Lemma any_number_of_channels (k : nat) :
  exists s, Reachable s /\ faults (snd s) = [] /\ length (channelRecords (snd s)) = k.
Proof.
  induction k as [|k (s & HR & Hf & Hlen)].
  - exists Scenario.opened_sys. split; [|split; vm_compute; reflexivity].
    exists Scenario.svc, Scenario.fox, [], (fst Scenario.opened_sys), (snd Scenario.opened_sys), [].
    split; vm_compute; reflexivity.
  - destruct (one_more_channel s HR Hf) as (t & s1 & _ & _ & HR1 & Hf1 & Hlen1 & _).
    exists s1. split; [assumption|]. split; [assumption|]. now rewrite Hlen1, Hlen.
Qed.

End Wrap_facts.

(** X23.  The id of a new channel.  On a writer that was opened and used
    in any way, a [CreateChannel] that binds a topic returns the number of
    channel records written so far plus one, modulo 65536.  While fewer
    than 65535 records are written this is an id that no topic has; the
    65536th channel gets the id 0; and from then on every new channel gets
    an id that another topic has already, so that the two topics share the
    id from then on. *)
Theorem channel_ids_wrap_around s t n md id s1 :
  Reachable s ->
  channels (fst s) !! t = None ->
  CreateChannel t n md s = (Ok id, s1) ->
  let k := Z.of_nat (length (channelRecords (snd s))) in
  id = (k + 1) mod 65536
  /\ length (channelRecords (snd s1)) = S (length (channelRecords (snd s)))
  /\ (k < 65535 -> id = k + 1 /\ forall t', channels (fst s) !! t' <> Some id)
  /\ (k = 65535 -> id = 0)
  /\ (65536 <= k ->
      exists t', t' <> t
                 /\ channels (fst s1) !! t' = Some id /\ channels (fst s1) !! t = Some id).
Proof.
  intros HR Ht HC k. pose proof (Reachable_Consistent s HR) as Hcons.
  pose proof (CreateChannel_Ok_bound _ _ _ _ _ _ HC) as Hb.
  destruct (Kept_CreateChannel t n md s) as (_ & Hk & _). rewrite HC in Hk. simpl in Hk.
  assert (Hid : id = nextChannel (fst s) /\
                length (channelRecords (snd s1)) = S (length (channelRecords (snd s)))).
  { destruct s as [u w]; simpl in *.
    destruct (schemaIDs u !! n) as [sid|] eqn:Hs.
    2:{ rewrite (CreateChannel_unregistered u w t n md Ht Hs) in HC. discriminate. }
    rewrite (CreateChannel_fresh u w t n md sid Ht Hs) in HC. cbv zeta in HC.
    destruct (outcome w) eqn:Hok; [|discriminate].
    injection HC as <- <-. split; [reflexivity|]. simpl.
    rewrite channelRecords_advance, Hok. simpl. rewrite length_app. simpl. lia. }
  destruct Hid as [Hid Hlen].
  split; [rewrite Hid; apply (channel_next _ Hcons)|]. split; [exact Hlen|].
  rewrite Hid, (channel_next _ Hcons). fold k. split; [|split].
  - intros Hsmall. rewrite Z.mod_small by lia. split; [reflexivity|].
    intros t' Hb'. pose proof (bound_channel_id_range s t' _ Hcons ltac:(lia) Hb'). lia.
  - intros ->. reflexivity.
  - intros Hbig. destruct (next_channel_id_in_use s Hcons Hbig) as (t' & Hb').
    rewrite (channel_next _ Hcons) in Hb'. fold k in Hb'.
    exists t'. split; [congruence|]. split; [now apply Hk|].
    rewrite Hid, (channel_next _ Hcons) in Hb. exact Hb.
Qed.

Lemma channel_ids_wrap_around_witness :
  Reachable Scenario.opened_sys
  /\ channels (fst Scenario.opened_sys) !! "/t" = None
  /\ fst (CreateChannel "/t" "foxglove.Plot" ∅ Scenario.opened_sys)
     = Err (ESchemaNotRegistered "foxglove.Plot")
  /\ fst (CreateChannel "/t" "foxglove.Log" ∅ Scenario.opened_sys) = Ok 1.
Proof.
  assert (HR : Reachable Scenario.opened_sys).
  { exists Scenario.svc, Scenario.fox, [], (fst Scenario.opened_sys), (snd Scenario.opened_sys), [].
    split; vm_compute; reflexivity. }
  assert (Ht : channels (fst Scenario.opened_sys) !! "/t" = None) by (vm_compute; reflexivity).
  split; [exact HR|]. split; [exact Ht|]. split; [vm_compute; reflexivity|].
  destruct (CreateChannel "/t" "foxglove.Log" ∅ Scenario.opened_sys) as [[id|e] s1] eqn:E.
  - destruct (channel_ids_wrap_around _ _ _ _ _ _ HR Ht E) as (Hid & _).
    simpl. rewrite Hid. vm_compute. reflexivity.
  - vm_compute in E. discriminate.
Defined.

(** X24.  Channel ids can collide.  When the codec accepts every record, a
    writer takes any number of channels; and after 65537 of them two
    different topics are bound to one channel id, and the stream holds two
    channel records with that id and different topics. *)
Theorem channel_ids_can_collide :
  (forall k : nat,
      exists s, Reachable s /\ length (channelRecords (snd s)) = k)
  /\ exists s t1 t2 id c1 c2,
      Reachable s
      /\ Z.of_nat (length (channelRecords (snd s))) = 65537
      /\ t1 <> t2
      /\ channels (fst s) !! t1 = Some id /\ channels (fst s) !! t2 = Some id
      /\ c1 ∈ channelRecords (snd s) /\ c2 ∈ channelRecords (snd s)
      /\ channel_Topic c1 = t1 /\ channel_Topic c2 = t2
      /\ channel_ID c1 = id /\ channel_ID c2 = id.
Proof.
  split.
  - intros k. destruct (any_number_of_channels k) as (s & HR & _ & Hlen). eauto.
  - destruct (any_number_of_channels (Z.to_nat 65536)) as (s & HR & Hf & Hlen).
    pose proof (Reachable_Consistent s HR) as HC.
    assert (Hk : Z.of_nat (length (channelRecords (snd s))) = 65536).
    { rewrite Hlen. now rewrite Z2Nat.id by lia. }
    destruct (next_channel_id_in_use s HC ltac:(lia)) as (t' & Hb').
    destruct (one_more_channel s HR Hf) as (t & s1 & Ht & _ & HR1 & _ & Hlen1 & Hkept & Hb).
    pose proof (Reachable_Consistent s1 HR1) as HC1.
    pose proof Hb' as Hb0. apply Hkept in Hb'.
    destruct (bound_channel_is_record s1 t' _ HC1 Hb') as (c1 & I1 & T1 & D1).
    destruct (bound_channel_is_record s1 t _ HC1 Hb) as (c2 & I2 & T2 & D2).
    exists s1, t', t, (nextChannel (fst s)), c1, c2.
    split; [assumption|]. split; [rewrite Hlen1; lia|].
    split; [intros ->; congruence|].
    repeat split; try assumption.
Qed.

(** ** The closed flag *)

(** X25.  Only [Close] reads the closed flag.  Every other method of the
    unified writer behaves on a writer marked closed exactly as on the same
    writer not marked closed: it returns the same result, makes the same
    calls to the codec and leaves the same tables.  No method refuses to
    work on a closed writer. *)
Theorem closed_flag_is_read_by_Close_only c u w :
  c <> CallClose ->
  step c (mark_closed u, w)
  = (fst (step c (u, w)),
     (mark_closed (fst (snd (step c (u, w)))), snd (snd (step c (u, w)))))
  /\ (forall t n md,
        fst (CreateChannel t n md (mark_closed u, w)) = fst (CreateChannel t n md (u, w)))
  /\ fst (IsClosed (snd (step c (mark_closed u, w)))) = Ok true.
Proof.
  intros Hc.
  assert (HRS : forall n u0,
             RegisterSchema n (mark_closed u0, w)
             = (fst (RegisterSchema n (u0, w)),
                (mark_closed (fst (snd (RegisterSchema n (u0, w)))),
                 snd (snd (RegisterSchema n (u0, w)))))).
  { intros n u0. unfold RegisterSchema, bind, get_writer, io, perform, set_writer, ret, fail.
    simpl. destruct (schemaIDs u0 !! n); [reflexivity|].
    destruct (Get n (registry u0)); [|reflexivity].
    destruct (outcome w); reflexivity. }
  assert (HCC : forall t n md,
             CreateChannel t n md (mark_closed u, w)
             = (fst (CreateChannel t n md (u, w)),
                (mark_closed (fst (snd (CreateChannel t n md (u, w)))),
                 snd (snd (CreateChannel t n md (u, w)))))).
  { intros t n md. unfold CreateChannel, bind, get_writer, io, perform, set_writer, ret, fail.
    simpl. destruct (channels u !! t); [reflexivity|].
    destruct (schemaIDs u !! n); [|reflexivity].
    destruct (outcome w); reflexivity. }
  assert (Hstep : step c (mark_closed u, w)
                  = (fst (step c (u, w)),
                     (mark_closed (fst (snd (step c (u, w)))), snd (snd (step c (u, w)))))).
  { destruct c; simpl.
    - apply HRS.
    - rewrite !AddCustomSchema_eq.
      exact (HRS name (with_registry (Register name schema (registry u)) u)).
    - rewrite HCC. now destruct (CreateChannel topic schemaName metadata (u, w)) as [[id|e] s'].
    - rewrite !WriteMessage_eq. reflexivity.
    - contradiction. }
  split; [exact Hstep|]. split.
  - intros t n md. now rewrite HCC.
  - now rewrite Hstep.
Qed.

Lemma closed_flag_is_read_by_Close_only_witness :
  CallCreateChannel "/t" "foxglove.Log" ∅ <> CallClose
  /\ fst (CreateChannel "/t" "foxglove.Log" ∅
            (mark_closed (fst Scenario.opened_sys), snd Scenario.opened_sys))
     = Ok 1.
Proof.
  assert (Hc : CallCreateChannel "/t" "foxglove.Log" ∅ <> CallClose) by discriminate.
  split; [exact Hc|].
  destruct (closed_flag_is_read_by_Close_only _ (fst Scenario.opened_sys)
              (snd Scenario.opened_sys) Hc) as (_ & H & _).
  rewrite H. vm_compute. reflexivity.
Defined.

(** ** The adapters and the file *)

Section Open_facts.

Variable path : string.

Local Abbreviation stays_open := (Lifetime.stays_open path).

Lemma stays_open_step c s :
  c <> CallClose -> stays_open s -> stays_open (snd (step c s)).
Proof.
  intros Hc (Hcl & Htr & Hp). destruct s as [u w]; simpl in *.
  assert (Hadv : forall e, Events.is_close (e, outcome w) = false ->
                           filter Events.is_close (trace (advance e w)) = []).
  { intros e He. rewrite trace_advance, filter_app, Htr. simpl.
    rewrite filter_cons_False; [reflexivity|]. rewrite He. exact id. }
  unfold Lifetime.stays_open. rewrite filePath_step. simpl.
  destruct c; simpl.
  - destruct (RegisterSchema_effect schemaName u w) as [E | [[r E] | [r [_ E]]]];
      cbv zeta in E; rewrite E; simpl; repeat split; auto; apply Hadv; reflexivity.
  - rewrite AddCustomSchema_eq.
    destruct (RegisterSchema_effect name
                (with_registry (Register name schema (registry u)) u) w)
      as [E | [[r E] | [r [_ E]]]];
      cbv zeta in E; rewrite E; simpl; repeat split; auto; apply Hadv; reflexivity.
  - pose proof (CreateChannel_effect topic schemaName metadata u w) as H. cbv zeta in H.
    destruct (CreateChannel topic schemaName metadata (u, w)) as [[x|e] s']; simpl in *;
      destruct H as [E | [[r E] | [r [_ E]]]]; rewrite E; simpl; repeat split; auto;
      apply Hadv; reflexivity.
  - rewrite WriteMessage_eq. simpl. repeat split; auto. apply Hadv. reflexivity.
  - contradiction.
Qed.

Lemma stays_open_CreateChannel t n md s :
  stays_open s -> stays_open (snd (CreateChannel t n md s)).
Proof.
  intros H. pose proof (stays_open_step (CallCreateChannel t n md) s ltac:(discriminate) H) as H'.
  simpl in H'. now destruct (CreateChannel t n md s) as [[x|e] s'].
Qed.

Lemma stays_open_WriteMessage ch d lt pt s :
  stays_open s -> stays_open (snd (Foxglove.WriteMessage ch d lt pt s)).
Proof.
  intros H. exact (stays_open_step (CallWriteMessage ch d lt pt) s ltac:(discriminate) H).
Qed.

Variables float64 any : Type.
Variable marshal_metric : MetricWriter.FoxgloveMetric float64 -> option string.
Variable marshal_log : LogWriter.FoxgloveLog any -> option string.

Lemma stays_open_use x st :
  x <> Session.UseWriter float64 any CallClose ->
  stays_open (Session.sys st) ->
  stays_open (Session.sys (Session.use float64 any marshal_metric marshal_log x st)).
Proof.
  intros Hx H. destruct st as [lw m s]; simpl in *.
  destruct x as [now name value | now level message file line data | c]; simpl.
  - unfold MetricWriter.writeMetric, getOrCreateChannel.
    destruct (metric_channels m !! name) as [id|].
    + destruct (marshal_metric _) as [data|]; [|exact H].
      pose proof (stays_open_WriteMessage id data (Clock.to_uint64 (Clock.UnixNano now))
                    (Clock.to_uint64 (Clock.UnixNano now)) s H) as H'.
      now destruct (Foxglove.WriteMessage _ _ _ _ s) as [[[]|e] s'].
    + unfold CreateMetricChannel.
      pose proof (stays_open_CreateChannel (metric_topic (metric_serviceName m) name)
                    "mahcanirobotics.metric"
                    (<["metric_name" := name]> (metric_metadata m)) s H) as H1.
      destruct (CreateChannel _ _ _ s) as [[id|e] s1]; simpl in *; [|exact H1].
      destruct (marshal_metric _) as [data|]; [|exact H1].
      pose proof (stays_open_WriteMessage id data (Clock.to_uint64 (Clock.UnixNano now))
                    (Clock.to_uint64 (Clock.UnixNano now)) s1 H1) as H'.
      now destruct (Foxglove.WriteMessage _ _ _ _ s1) as [[[]|e] s'].
  - destruct lw as [l|]; [|exact H]. simpl. unfold LogWriter.WriteLog.
    destruct (marshal_log _) as [payload|]; [|exact H].
    pose proof (stays_open_WriteMessage (log_channelID l) payload
                  (Clock.to_uint64 (Clock.UnixNano now))
                  (Clock.to_uint64 (Clock.UnixNano now)) s H) as H'.
    now destruct (Foxglove.WriteMessage _ _ _ _ s) as [[[]|e] s'].
  - apply stays_open_step; [congruence | exact H].
Qed.

Lemma stays_open_run xs :
  forall st,
    Forall (fun x => x <> Session.UseWriter float64 any CallClose) xs ->
    stays_open (Session.sys st) ->
    stays_open (Session.sys (Session.run float64 any marshal_metric marshal_log xs st)).
Proof.
  induction xs as [|x xs IH]; intros st Hxs H; simpl; [assumption|].
  apply Forall_cons in Hxs as [Hx Hxs]. apply IH; [assumption|].
  now apply stays_open_use.
Qed.

Lemma stays_open_start serviceOpts foxgloveOpts script u w :
  McapPath foxgloveOpts = path ->
  NewUnifiedMcapWriter serviceOpts foxgloveOpts (fresh script) = (Ok u, w) ->
  stays_open (Session.sys (Session.start serviceOpts (u, w))).
Proof.
  intros Hp HN. apply NewUnifiedMcapWriter_ok in HN as (_ & -> & Htr). simpl in Htr.
  assert (H0 : stays_open (opened_writer (McapPath foxgloveOpts), w)).
  { repeat split; [|exact Hp]. simpl. rewrite Htr. reflexivity. }
  unfold Session.start, NewLogMcapWriter, CreateLogChannel.
  set (md := <["service" := _]> _).
  pose proof (stays_open_CreateChannel (log_topic serviceOpts) "foxglove.Log" md _ H0) as H1.
  now destruct (CreateChannel (log_topic serviceOpts) "foxglove.Log" md _) as [[id|e] s'].
Qed.

Lemma stays_open_session serviceOpts foxgloveOpts script u w xs :
  McapPath foxgloveOpts = path ->
  NewUnifiedMcapWriter serviceOpts foxgloveOpts (fresh script) = (Ok u, w) ->
  Forall (fun x => x <> Session.UseWriter float64 any CallClose) xs ->
  let st := Session.run float64 any marshal_metric marshal_log xs
              (Session.start serviceOpts (u, w)) in
  closed (fst (Session.sys st)) = false
  /\ filter Events.is_close (trace (snd (Session.sys st))) = []
  /\ filePath (fst (Session.sys st)) = path.
Proof.
  intros Hp HN Hxs. apply stays_open_run; [assumption|].
  eapply stays_open_start; eassumption.
Qed.

End Open_facts.

(** X26.  The adapters never close the file.  In a session in which
    nobody calls [Close] on the unified writer, whatever else is done
    through the adapters or on the unified writer and whatever fails, the
    stream is never finalized and the file handle never closed; both
    adapters report that the writer is not closed, and both report the path
    the writer was opened with.  [Close] on an adapter returns no error and
    changes nothing. *)
Theorem adapters_never_close_the_file
  (float64 any : Type)
  (marshal_metric : MetricWriter.FoxgloveMetric float64 -> option string)
  (marshal_log : LogWriter.FoxgloveLog any -> option string)
  serviceOpts foxgloveOpts script u w xs :
  NewUnifiedMcapWriter serviceOpts foxgloveOpts (fresh script) = (Ok u, w) ->
  Forall (fun x => x <> Session.UseWriter float64 any CallClose) xs ->
  let st := Session.run float64 any marshal_metric marshal_log xs
              (Session.start serviceOpts (u, w)) in
  MetricWriter.IsClosed (Session.metricw st, Session.sys st) = false
  /\ LogWriter.IsClosed (Session.sys st) = false
  /\ filter Events.is_close (trace (snd (Session.sys st))) = []
  /\ MetricWriter.GetFilePath (Session.metricw st, Session.sys st) = McapPath foxgloveOpts
  /\ LogWriter.GetFilePath (Session.sys st) = McapPath foxgloveOpts
  /\ MetricWriter.Close (Session.metricw st, Session.sys st)
     = (Ok tt, (Session.metricw st, Session.sys st))
  /\ LogWriter.Close (Session.sys st) = (Ok tt, Session.sys st).
Proof.
  intros HN Hxs st.
  destruct (stays_open_session (McapPath foxgloveOpts) float64 any marshal_metric marshal_log
              serviceOpts foxgloveOpts script u w xs eq_refl HN Hxs) as (Hcl & Htr & Hp).
  fold st in Hcl, Htr, Hp.
  unfold MetricWriter.IsClosed, LogWriter.IsClosed, MetricWriter.GetFilePath,
    LogWriter.GetFilePath, Foxglove.GetFilePath, MetricWriter.Close, LogWriter.Close. simpl.
  repeat split; assumption.
Qed.

Lemma adapters_never_close_the_file_witness :
  NewUnifiedMcapWriter Scenario.svc Scenario.fox (fresh [])
  = (Ok (fst Scenario.opened_sys), snd Scenario.opened_sys)
  /\ Forall (fun x => x <> Session.UseWriter Z unit CallClose) Demo.uses
  /\ LogWriter.GetFilePath (Session.sys Demo.session) = "/tmp/svc.mcap".
Proof.
  assert (HN : NewUnifiedMcapWriter Scenario.svc Scenario.fox (fresh [])
               = (Ok (fst Scenario.opened_sys), snd Scenario.opened_sys))
    by (vm_compute; reflexivity).
  assert (Hxs : Forall (fun x => x <> Session.UseWriter Z unit CallClose) Demo.uses).
  { unfold Demo.uses. repeat constructor; discriminate. }
  split; [exact HN|]. split; [exact Hxs|].
  destruct (adapters_never_close_the_file Z unit Demo.marshal_metric Demo.marshal_log
              _ _ _ _ _ _ HN Hxs) as (_ & _ & _ & _ & Hp & _).
  exact Hp.
Defined.

(** ** The logger and the closed flag *)

Section Logger_facts.

Variables float64 any : Type.
Variable marshal_metric : MetricWriter.FoxgloveMetric float64 -> option string.
Variable marshal_log : LogWriter.FoxgloveLog any -> option string.

(** A closed writer stays closed, whatever is done. *)
Lemma closed_kept_by_use x st :
  closed (fst (Session.sys st)) = true ->
  closed (fst (Session.sys (Session.use float64 any marshal_metric marshal_log x st))) = true
  /\ fileCloses (snd (Session.sys (Session.use float64 any marshal_metric marshal_log x st)))
     = fileCloses (snd (Session.sys st)).
Proof.
  intros Hcl. destruct st as [lw m s]; simpl in *.
  assert (HW : forall ch d lt s0,
             closed (fst s0) = true ->
             closed (fst (snd (Foxglove.WriteMessage ch d lt lt s0))) = true
             /\ fileCloses (snd (snd (Foxglove.WriteMessage ch d lt lt s0))) = fileCloses (snd s0)).
  { intros ch d lt s0 H0.
    now apply (Kept_step (CallWriteMessage ch d lt lt) s0). }
  destruct x as [now name value | now level message file line data | c]; simpl.
  - unfold MetricWriter.writeMetric, getOrCreateChannel.
    destruct (metric_channels m !! name) as [id|].
    + destruct (marshal_metric _) as [data|]; [|now split].
      pose proof (HW id data (Clock.to_uint64 (Clock.UnixNano now)) s Hcl) as H.
      now destruct (Foxglove.WriteMessage _ _ _ _ s) as [[[]|e] s'].
    + unfold CreateMetricChannel.
      destruct (Kept_CreateChannel (metric_topic (metric_serviceName m) name)
                  "mahcanirobotics.metric"
                  (<["metric_name" := name]> (metric_metadata m)) s) as (_ & _ & Hk).
      specialize (Hk Hcl).
      destruct (CreateChannel _ _ _ s) as [[id|e] s1]; simpl in *; [|exact Hk].
      destruct (marshal_metric _) as [data|]; [|exact Hk].
      destruct Hk as [Hk1 Hk2].
      pose proof (HW id data (Clock.to_uint64 (Clock.UnixNano now)) s1 Hk1) as [H1 H2].
      destruct (Foxglove.WriteMessage _ _ _ _ s1) as [[[]|e] s']; simpl in *;
        (split; [assumption | congruence]).
  - destruct lw as [l|]; [|now split]. simpl. unfold LogWriter.WriteLog.
    destruct (marshal_log _) as [payload|]; [|now split].
    pose proof (HW (log_channelID l) payload (Clock.to_uint64 (Clock.UnixNano now)) s Hcl) as H.
    now destruct (Foxglove.WriteMessage _ _ _ _ s) as [[[]|e] s'].
  - now apply (Kept_step c s).
Qed.

Lemma log_mcap_closed now levelStr msg file line dataMap st :
  closed (fst (Session.sys st)) = true ->
  LoggerCalls.log_mcap any marshal_log now levelStr msg file line dataMap st = st.
Proof.
  intros Hcl. unfold LoggerCalls.log_mcap, LogWriter.IsClosed. rewrite Hcl.
  now destruct (Session.logw st).
Qed.

Lemma closed_kept_by_run acts :
  forall st,
    closed (fst (Session.sys st)) = true ->
    LoggerCalls.run float64 any marshal_metric marshal_log acts st
    = LoggerCalls.run float64 any marshal_metric marshal_log
        (LoggerCalls.without_logs float64 any acts) st
    /\ closed (fst (Session.sys
                      (LoggerCalls.run float64 any marshal_metric marshal_log acts st))) = true
    /\ fileCloses (snd (Session.sys
                          (LoggerCalls.run float64 any marshal_metric marshal_log acts st)))
       = fileCloses (snd (Session.sys st)).
Proof.
  induction acts as [|a acts IH]; intros st Hcl; simpl; [now repeat split|].
  destruct a as [now levelStr msg file line dataMap | x]; simpl.
  - rewrite log_mcap_closed by assumption. now apply IH.
  - destruct (closed_kept_by_use x st Hcl) as [H1 H2].
    destruct (IH _ H1) as (E & Hc & Hf). split; [exact E|]. split; [exact Hc|]. congruence.
Qed.

End Logger_facts.

(** X27.  The logger stops writing once the writer is closed.  [Logger.log]
    asks [IsClosed] before it writes to the MCAP file.  So, from the
    moment the closed flag is set, in whatever a service does, its calls of
    the logger leave the writer and the stream as they are (the session
    runs as if they had not been made), the writer stays closed and the
    file handle is not touched again.  A metric written through the metric
    adapter is not held back: with the name cached and the sample
    marshalled, its message is still handed to the codec.  While the writer
    is not closed, a call of the logger is a call of [WriteLog], with the
    line number converted to [uint32]. *)
Theorem Logger_is_silent_once_closed
  (float64 any : Type)
  (marshal_metric : MetricWriter.FoxgloveMetric float64 -> option string)
  (marshal_log : LogWriter.FoxgloveLog any -> option string)
  st acts :
  closed (fst (Session.sys st)) = true ->
  let st' := LoggerCalls.run float64 any marshal_metric marshal_log acts st in
  st' = LoggerCalls.run float64 any marshal_metric marshal_log
          (LoggerCalls.without_logs float64 any acts) st
  /\ closed (fst (Session.sys st')) = true
  /\ fileCloses (snd (Session.sys st')) = fileCloses (snd (Session.sys st))
  /\ (forall now levelStr msg file line dataMap,
        LoggerCalls.log_mcap any marshal_log now levelStr msg file line dataMap st' = st')
  /\ (forall now name value id data,
        metric_channels (Session.metricw st') !! name = Some id ->
        marshal_metric {| MetricWriter.Timestamp := Clock.stamp now;
                          MetricWriter.Name := name;
                          MetricWriter.Value := value |} = Some data ->
        trace (snd (Session.sys
                      (Session.use float64 any marshal_metric marshal_log
                         (Session.UseMetric float64 any now name value) st')))
        = trace (snd (Session.sys st'))
          ++ [(Mcap.WriteMessage
                 {| message_ChannelID := id; message_Sequence := 0;
                    message_LogTime := Clock.to_uint64 (Clock.UnixNano now);
                    message_PublishTime := Clock.to_uint64 (Clock.UnixNano now);
                    message_Data := data |}, outcome (snd (Session.sys st')))])
  /\ (forall open_st l now levelStr msg file line dataMap,
        Session.logw open_st = Some l ->
        closed (fst (Session.sys open_st)) = false ->
        Session.sys (LoggerCalls.log_mcap any marshal_log now levelStr msg file line dataMap
                       open_st)
        = snd (LogWriter.WriteLog any marshal_log l now levelStr msg file
                 (Clock.to_uint32 line) dataMap (Session.sys open_st))).
Proof.
  intros Hcl st'.
  destruct (closed_kept_by_run float64 any marshal_metric marshal_log acts st Hcl)
    as (E & Hc & Hf).
  fold st' in E, Hc, Hf.
  split; [exact E|]. split; [exact Hc|]. split; [exact Hf|]. split; [|split].
  - intros. now apply log_mcap_closed.
  - intros now name value id data Hid Hj. destruct st' as [lw m [u w]]; simpl in *.
    unfold MetricWriter.writeMetric. rewrite (getOrCreateChannel_hit name m (u, w) id Hid).
    rewrite Hj, WriteMessage_eq. cbv zeta.
    destruct (outcome w) eqn:Hok; simpl; now rewrite Hok.
  - intros open_st l now levelStr msg file line dataMap Hl Hopen.
    unfold LoggerCalls.log_mcap, LogWriter.IsClosed. now rewrite Hl, Hopen.
Qed.

Lemma Logger_is_silent_once_closed_witness :
  closed (fst (Session.sys Demo.closed_session)) = true
  /\ LoggerCalls.run Z unit Demo.marshal_metric Demo.marshal_log
       [LoggerCalls.ActLog Z unit Demo.noon "info" "late" "main.go" 12 ∅] Demo.closed_session
     = Demo.closed_session.
Proof.
  assert (Hcl : closed (fst (Session.sys Demo.closed_session)) = true)
    by (vm_compute; reflexivity).
  split; [exact Hcl|].
  destruct (Logger_is_silent_once_closed Z unit Demo.marshal_metric Demo.marshal_log
              Demo.closed_session
              [LoggerCalls.ActLog Z unit Demo.noon "info" "late" "main.go" 12 ∅] Hcl)
    as (E & _).
  rewrite E. reflexivity.
Defined.

(** ** The metric tags *)

Section Tag_facts.

Import MetricTags.

Variable sep : ascii.

Lemma Split_nonempty s : Split s sep <> [].
Proof.
  destruct s as [|c s]; simpl; [discriminate|].
  destruct (Ascii.eqb c sep); [discriminate|].
  destruct (Split s sep); discriminate.
Qed.

(** Joining the pieces gives the string back. *)
Lemma Join_Split s : Join (Split s sep) sep = s.
Proof.
  induction s as [|c s IH]; simpl; [reflexivity|].
  destruct (Ascii.eqb_spec c sep) as [->|Hne].
  - pose proof (Split_nonempty s) as Hn. simpl.
    destruct (Split s sep) as [|p ps]; [contradiction|]. simpl in *. now rewrite IH.
  - pose proof (Split_nonempty s) as Hn.
    destruct (Split s sep) as [|p ps]; [contradiction|].
    destruct ps as [|q qs]; simpl in *; now rewrite <- IH.
Qed.

(** No piece holds the separator. *)
Lemma Split_pieces s : Forall (fun piece => occurs sep piece = false) (Split s sep).
Proof.
  induction s as [|c s IH]; simpl; [repeat constructor|].
  destruct (Ascii.eqb c sep) eqn:Hc.
  - constructor; [reflexivity | assumption].
  - destruct (Split s sep) as [|p ps]; [repeat constructor; simpl; now rewrite Hc|].
    apply Forall_cons in IH as [Hp Hps]. constructor; [|assumption].
    simpl. now rewrite Hc, Hp.
Qed.

(** A string without separator is one piece, and a separator after it
    ends the piece. *)
Lemma Split_piece p : occurs sep p = false -> Split p sep = [p].
Proof.
  induction p as [|c p IH]; simpl; [reflexivity|].
  intros H. apply orb_false_iff in H as [Hc Hp]. rewrite Hc, (IH Hp). reflexivity.
Qed.

Lemma Split_app p rest :
  occurs sep p = false ->
  Split (p ++ String sep rest)%string sep = p :: Split rest sep.
Proof.
  induction p as [|c p IH]; simpl.
  - intros _. now rewrite Ascii.eqb_refl.
  - intros H. apply orb_false_iff in H as [Hc Hp]. now rewrite Hc, (IH Hp).
Qed.

(** Two strings without separator, each followed by a separator: when one
    is a prefix of the other, they are equal. *)
Lemma has_prefix_piece a p x :
  occurs sep a = false -> occurs sep p = false ->
  has_prefix (a ++ String sep EmptyString)%string (p ++ String sep x)%string = true ->
  a = p.
Proof.
  revert p. induction a as [|a0 a IH]; intros [|p0 p]; simpl; try reflexivity.
  - intros _ Hp. apply orb_false_iff in Hp as [Hp0 _].
    rewrite Ascii.eqb_sym, Hp0. discriminate.
  - intros Ha _. apply orb_false_iff in Ha as [Ha0 _]. rewrite Ha0. discriminate.
  - intros Ha Hp. apply orb_false_iff in Ha as [_ Ha]. apply orb_false_iff in Hp as [_ Hp].
    destruct (Ascii.eqb_spec a0 p0) as [->|]; [|discriminate].
    intros H. f_equal. now apply IH.
Qed.

Lemma has_prefix_app a x : has_prefix a (a ++ x)%string = true.
Proof. induction a as [|c a IH]; simpl; [reflexivity|]. now rewrite Ascii.eqb_refl. Qed.

End Tag_facts.

(** X28.  The tag of a metric field.  The loop of
    [extractAndRecordMetrics] reads a tag as ["metric:{type}:{name}"]: for
    a type and a name without [':'], this tag gives back the type and the
    name, also when more text follows after a further [':'].  Conversely,
    whenever a tag is accepted, the type and the name found hold no [':']
    and the tag is ["metric:{type}:{name}"], or that followed by [':'] and
    more text: a metric name cannot hold a [':'], and what follows the
    third [':'] is dropped.  A tag with fewer than two [':'] is skipped.
    The name may be empty.  [recordMetric] knows the types ["counter"],
    ["histogram"] and ["gauge"], in lower case only. *)
Theorem metric_tag_format :
  (forall metricType metricName,
      MetricTags.occurs ":" metricType = false ->
      MetricTags.occurs ":" metricName = false ->
      MetricTags.parse_tag ("metric:" ++ metricType ++ ":" ++ metricName)%string
      = Some (metricType, metricName)
      /\ forall more,
          MetricTags.parse_tag
            ("metric:" ++ metricType ++ ":" ++ metricName ++ ":" ++ more)%string
          = Some (metricType, metricName))
  /\ (forall tag metricType metricName,
        MetricTags.parse_tag tag = Some (metricType, metricName) ->
        MetricTags.occurs ":" metricType = false
        /\ MetricTags.occurs ":" metricName = false
        /\ (tag = ("metric:" ++ metricType ++ ":" ++ metricName)%string
            \/ exists more,
                tag = ("metric:" ++ metricType ++ ":" ++ metricName ++ ":" ++ more)%string))
  /\ (forall metricType,
        MetricTags.occurs ":" metricType = false ->
        MetricTags.parse_tag ("metric:" ++ metricType)%string = None)
  /\ (forall metricType,
        is_Some (MetricTags.recordMetric metricType)
        <-> metricType ∈ ["counter"; "histogram"; "gauge"]).
Proof.
  split; [|split; [|split]].
  - intros ty name Hty Hname.
    assert (H : forall tail,
               MetricTags.Split ("metric:" ++ ty ++ ":" ++ tail)%string ":"
               = "metric" :: ty :: MetricTags.Split tail ":").
    { intros tail.
      change ("metric:" ++ ty ++ ":" ++ tail)%string
        with ("metric" ++ String ":" (ty ++ String ":" tail))%string.
      rewrite (Split_app ":" "metric") by reflexivity.
      now rewrite (Split_app ":" ty) by assumption. }
    unfold MetricTags.parse_tag. split.
    + rewrite H, (Split_piece ":" name) by assumption. reflexivity.
    + intros more.
      change (name ++ ":" ++ more)%string with (name ++ String ":" more)%string.
      rewrite H, (Split_app ":" name) by assumption. reflexivity.
  - intros tag ty name. unfold MetricTags.parse_tag.
    destruct (String.eqb tag "" || negb (has_prefix "metric:" tag)) eqn:Hguard; [discriminate|].
    apply orb_false_iff in Hguard as [_ Hpre]. apply negb_false_iff in Hpre.
    pose proof (Join_Split ":" tag) as Hjoin.
    pose proof (Split_pieces ":" tag) as Hpieces.
    destruct (MetricTags.Split tag ":") as [|p0 [|p1 [|p2 more]]]; try discriminate.
    intros [= -> ->].
    apply Forall_cons in Hpieces as [H0 Hpieces].
    apply Forall_cons in Hpieces as [H1 Hpieces].
    apply Forall_cons in Hpieces as [H2 Hpieces].
    split; [assumption|]. split; [assumption|].
    assert (Hp0 : "metric" = p0).
    { apply (has_prefix_piece ":" "metric" p0
               (MetricTags.Join (ty :: name :: more) ":")); [reflexivity | assumption |].
      destruct more; simpl in Hjoin |- *; now rewrite Hjoin. }
    subst p0. destruct more as [|q qs].
    + left. simpl in Hjoin. now rewrite <- Hjoin.
    + right. exists (MetricTags.Join (q :: qs) ":").
      rewrite <- Hjoin. reflexivity.
  - intros ty Hty. unfold MetricTags.parse_tag.
    change ("metric:" ++ ty)%string with ("metric" ++ String ":" ty)%string.
    rewrite (Split_app ":" "metric") by reflexivity.
    rewrite (Split_piece ":" ty) by assumption.
    now destruct (_ || _).
  - intros ty. unfold MetricTags.recordMetric.
    rewrite !elem_of_cons, elem_of_nil.
    destruct (String.eqb_spec ty "counter") as [->|H1]; [split; eauto|].
    destruct (String.eqb_spec ty "histogram") as [->|H2]; [split; eauto|].
    destruct (String.eqb_spec ty "gauge") as [->|H3]; [split; eauto|].
    split; [intros [k Hk]; discriminate | intuition congruence].
Qed.

Lemma metric_tag_format_witness :
  MetricTags.occurs ":" "gauge" = false
  /\ MetricTags.occurs ":" "llm.cache.hit_rate" = false
  /\ MetricTags.parse_tag "metric:gauge:llm.cache.hit_rate"
     = Some ("gauge", "llm.cache.hit_rate").
Proof.
  assert (H1 : MetricTags.occurs ":" "gauge" = false) by reflexivity.
  assert (H2 : MetricTags.occurs ":" "llm.cache.hit_rate" = false) by reflexivity.
  split; [exact H1|]. split; [exact H2|].
  destruct metric_tag_format as (H & _).
  destruct (H _ _ H1 H2) as [E _]. exact E.
Defined.
